(** * Crash Street: the round engine of [server.js] and of the mock [GameServer]

    A shallow embedding of the two round engines of the repository, and of
    the part of the client that consumes their messages:

    - [Server]: the Socket.IO server ([server.js]): one shared round, a ledger
      [activeBets] keyed by socket id, handlers for [START_GAME], [PLACE_BET],
      [CASH_OUT] and [disconnect], and the timer callbacks [tick], [crash] and
      [startGame];
    - [Mock]: the single-player [GameServer] class, with a user balance, a
      ledger keyed by game id and the same crash formula and growth step;
    - [App]: the chart and the history list of the page ([app.js]).

    JavaScript numbers are IEEE 754 binary64 values; they are modelled by Rocq's
    primitive floats, which are the same format with the same rounding, so the
    arithmetic below is the arithmetic the code performs. *)

From Stdlib Require Import ZArith Lia List Bool Floats.
From stdpp Require Import base option list gmap strings.

Set Warnings "-inexact-float".
#[local] Open Scope Z_scope.

(** * Definitions *)

(** ** JavaScript numbers and the built-ins the code calls *)

(** [!x] on a number: [0], [-0] and [NaN] are falsy. *)
Definition js_falsy (x : float) : bool := is_zero x || is_nan x.

(** [a >= b]. *)
Definition js_ge (a b : float) : bool := (b <=? a)%float.

(** [a > b]. *)
Definition js_gt (a b : float) : bool := (b <? a)%float.

(** [Math.min(a, b)]: [NaN] if either is [NaN]; [-0] is below [+0]. *)
Definition js_min (a b : float) : float :=
  if is_nan a || is_nan b then nan
  else if (a <? b)%float then a
  else if (b <? a)%float then b
  else if get_sign a then a else b.

(** [Math.floor] on the unpacked value: a value with no fractional bits is
    returned as it is, otherwise the integer below it is converted back. *)
Definition SFfloor (x : spec_float) : spec_float :=
  match x with
  | S754_finite s m e =>
      if 0 <=? e then x
      else match cond_Zopp s (Zpos m) / 2 ^ (- e) with
           | Z0 => S754_zero s
           | n => binary_normalize prec emax n 0 false
           end
  | _ => x
  end.

Definition js_floor (x : float) : float := SF2Prim (SFfloor (Prim2SF x)).

(** [Number.isInteger]. *)
Definition SFis_integer (x : spec_float) : bool :=
  match x with
  | S754_zero _ => true
  | S754_finite _ m e => (0 <=? e) || (Zpos m mod 2 ^ (- e) =? 0)
  | _ => false
  end.

Definition js_isInteger (x : float) : bool := SFis_integer (Prim2SF x).

(** A clock difference (milliseconds, an integer) as a number. *)
Definition float_of_Z (z : Z) : float := SF2Prim (binary_normalize prec emax z 0 false).

(** [s || d] on an optional string: [undefined] and [""] are falsy. *)
Definition js_or_default (s : option string) (d : string) : string :=
  match s with
  | Some (String a r) => String a r
  | _ => d
  end.

(** [arr.unshift(e)] and [arr.pop()] on an array kept as a list, first element
    first. *)
Definition js_unshift {A : Type} (arr : list A) (e : A) : list A := e :: arr.
Definition js_pop {A : Type} (arr : list A) : list A := removelast arr.

(** An integer rank that orders binary64 values as [<] and [<=] do (both zeros
    at 0, the infinities outside every finite value). It is used in proofs
    only. *)
Definition SFrank (x : spec_float) : Z :=
  match x with
  | S754_zero _ => 0
  | S754_nan => 0
  | S754_infinity s => cond_Zopp s (2 ^ 2100)
  | S754_finite s m e => cond_Zopp s (Zpos m * 2 ^ (e + 1074))
  end.

Definition SFis_nan (x : spec_float) : bool :=
  match x with S754_nan => true | _ => false end.

Definition rank (x : float) : Z := SFrank (Prim2SF x).

(** ** The crash point and the growth step

    Both files contain the same three statements after [const r =
    Math.random()], and the same growth statement in their tick. *)

(** [crashPoint = 0.99 / (1 - r); if (crashPoint < 1.00) crashPoint = 1.00;
    crashPoint = Math.min(crashPoint, 1000)]. *)
Definition drawCrashPoint (r : float) : float :=
  let crashPoint := (0.99 / (1 - r))%float in
  let crashPoint := if (crashPoint <? 1.00)%float then 1.00%float else crashPoint in
  js_min crashPoint 1000.

(** A crash point between [1.00] and the cap. *)
Definition in_range (x : float) : bool := (1 <=? x)%float && (x <=? 1000)%float.

(** [multiplier += multiplier * growthRate * (tickRate / 1000)]. *)
Definition grow (growthRate tickRate multiplier : float) : float :=
  (multiplier + (multiplier * growthRate * (tickRate / 1000)))%float.

(** The multiplier after [n] growth steps from [1.00], with the constants of
    the code. *)
Fixpoint mult_seq (n : nat) : float :=
  match n with
  | O => 1.00%float
  | S k => grow 0.15 30 (mult_seq k)
  end.

(** The number of growth steps after which the multiplier has passed the cap. *)
Definition max_ticks : nat := 1539.

(** The growth table is checked once: up to [max_ticks] steps every value is
    at least [1.00] and at most its successor, and the last one is at least
    the cap. *)
Fixpoint growth_table_ok (n : nat) (m : float) : bool :=
  match n with
  | O => (1000 <=? m)%float
  | S k => (1 <=? m)%float && (m <=? grow 0.15 30 m)%float
           && growth_table_ok k (grow 0.15 30 m)
  end.

(** ** [server.js] *)

Module Server.

Module CONFIG.
Definition tickRate : float := 30.
Definition growthRate : float := 0.15.
End CONFIG.

(** A value of [activeBets]. *)
Record Bet := mkBet {
  amount : float;
  cashedOut : bool;
  profit : float;
  username : string
}.

Record HistoryEntry := mkHistoryEntry {
  h_crashPoint : float;
  timestamp : Z
}.

(** [gameState]; [gameId] is [null] or [Date.now().toString()], kept as the
    clock value it prints. *)
Record GameState := mkGameState {
  running : bool;
  multiplier : float;
  crashPoint : float;
  startTime : Z;
  crashed : bool;
  gameId : option Z;
  history : list HistoryEntry
}.

(** The module-level variables the handlers share. *)
Record State := mkState {
  gameState : GameState;
  activeBets : gmap string Bet
}.

Inductive Outcome := lost | won.

(** An element of the [results] array of [GAME_CRASHED]. *)
Record Result := mkResult {
  socketId : string;
  r_username : string;
  r_amount : float;
  result : Outcome;
  r_profit : float
}.

Inductive Msg :=
| INITIAL_STATE (running isCrashed : bool) (multiplier : float)
                (history : list HistoryEntry)
| ERROR (text : string)
| BET_CONFIRMED (amount : float)
| CASHOUT_SUCCESS (multiplier winAmount profit : float)
| GAME_START (id : Z)
| TICK (multiplier elapsed : float)
| GAME_CRASHED (crashPoint : float) (results : list Result).

(** What a handler does besides changing the state. *)
Inductive Effect :=
| SocketEmit (sid : string) (m : Msg)   (* socket.emit *)
| IoEmit (m : Msg)                      (* io.emit *)
| SetInterval (ms : float)              (* gameLoop = setInterval(tick, ms) *)
| ClearInterval                         (* clearInterval(gameLoop) *)
| SetTimeout (ms : Z).                  (* setTimeout(() => startGame(), ms) *)

Definition initial : State :=
  {| gameState := {| running := false; multiplier := 1.00; crashPoint := 0;
                     startTime := 0; crashed := false; gameId := None;
                     history := [] |};
     activeBets := ∅ |}.

Definition addToHistory (h : list HistoryEntry) (crashPoint : float) (now : Z)
  : list HistoryEntry :=
  let h := js_unshift h {| h_crashPoint := crashPoint; timestamp := now |} in
  if (50 <? length h)%nat then js_pop h else h.

(** [startGame()]; [now] is [Date.now()] and [r] is [Math.random()]. *)
Definition startGame (st : State) (now : Z) (r : float) : State * list Effect :=
  let g := gameState st in
  ({| gameState := {| running := true; multiplier := 1.00; crashed := false;
                      gameId := Some now; startTime := now;
                      crashPoint := drawCrashPoint r;
                      history := history g |};
      activeBets := ∅ |},
   [IoEmit (GAME_START now); SetInterval CONFIG.tickRate]).

(** One element of [results], as [activeBets.forEach] pushes it. *)
Definition settle (sid : string) (bet : Bet) : Result :=
  if negb (cashedOut bet) then
    {| socketId := sid; r_username := username bet; r_amount := amount bet;
       result := lost; r_profit := (- amount bet)%float |}
  else
    {| socketId := sid; r_username := username bet; r_amount := amount bet;
       result := won; r_profit := profit bet |}.

(** [crash()]. The array [results] has one element per key of [activeBets];
    a JavaScript [Map] is iterated in insertion order, the list here is in
    the order of [map_to_list]. *)
Definition crash (st : State) (now : Z) : State * list Effect :=
  let g := gameState st in
  let results := (fun kv => settle (fst kv) (snd kv)) <$> map_to_list (activeBets st) in
  ({| gameState := {| running := false; crashed := true;
                      multiplier := multiplier g; crashPoint := crashPoint g;
                      startTime := startTime g; gameId := gameId g;
                      history := addToHistory (history g) (crashPoint g) now |};
      activeBets := activeBets st |},
   [ClearInterval; IoEmit (GAME_CRASHED (crashPoint g) results); SetTimeout 5000]).

(** [tick()], the interval callback. *)
Definition tick (st : State) (now : Z) : State * list Effect :=
  let g := gameState st in
  if negb (running g) then (st, [])
  else
    let elapsed := (float_of_Z (now - startTime g) / 1000)%float in
    let m := grow CONFIG.growthRate CONFIG.tickRate (multiplier g) in
    let st1 := {| gameState := {| running := running g; multiplier := m;
                                  crashPoint := crashPoint g; startTime := startTime g;
                                  crashed := crashed g; gameId := gameId g;
                                  history := history g |};
                  activeBets := activeBets st |} in
    if js_ge m (crashPoint g) then crash st1 now
    else (st1, [IoEmit (TICK m elapsed)]).

(** [io.on('connection', ...)]: the initial snapshot. *)
Definition on_connection (st : State) (sid : string) : State * list Effect :=
  let g := gameState st in
  (st, [SocketEmit sid (INITIAL_STATE (running g) (crashed g) (multiplier g) (history g))]).

Definition on_START_GAME (st : State) (now : Z) (r : float) : State * list Effect :=
  if negb (running (gameState st)) then startGame st now r else (st, []).

(** [PLACE_BET], for a payload object whose [amount] is a number or is absent
    ([None]) and whose [username] is a string or is absent: the messages
    [app.js] sends, where the amount comes from [parseInt]. *)
Definition on_PLACE_BET (st : State) (sid : string)
    (amount : option float) (username : option string) : State * list Effect :=
  let g := gameState st in
  if negb (running g) || crashed g then
    (st, [SocketEmit sid (ERROR "Cannot place bet at this time")])
  else
    match activeBets st !! sid with
    | Some _ => (st, [SocketEmit sid (ERROR "You already have an active bet")])
    | None =>
        match amount with
        | None => (st, [SocketEmit sid (ERROR "Minimum bet is 10")])
        | Some a =>
            if js_falsy a || (a <? 10)%float then
              (st, [SocketEmit sid (ERROR "Minimum bet is 10")])
            else
              ({| gameState := g;
                  activeBets :=
                    <[sid := {| amount := a; cashedOut := false; profit := 0;
                                username := js_or_default username "Player" |}]>
                      (activeBets st) |},
               [SocketEmit sid (BET_CONFIRMED a)])
        end
    end.

Definition on_CASH_OUT (st : State) (sid : string) : State * list Effect :=
  let g := gameState st in
  if negb (running g) || crashed g then
    (st, [SocketEmit sid (ERROR "Game not active")])
  else
    match activeBets st !! sid with
    | None => (st, [SocketEmit sid (ERROR "No active bet to cash out")])
    | Some bet =>
        if cashedOut bet then
          (st, [SocketEmit sid (ERROR "No active bet to cash out")])
        else
          let winAmount := js_floor (amount bet * multiplier g)%float in
          let profit := (winAmount - amount bet)%float in
          ({| gameState := g;
              activeBets :=
                <[sid := {| amount := amount bet; cashedOut := true;
                            profit := profit; username := username bet |}]>
                  (activeBets st) |},
           [SocketEmit sid (CASHOUT_SUCCESS (multiplier g) winAmount profit)])
    end.

Definition on_disconnect (st : State) (sid : string) : State * list Effect :=
  ({| gameState := gameState st; activeBets := delete sid (activeBets st) |}, []).

(** What the event loop can run next: a socket message or a timer callback.
    Every clock read of one callback is the event's [now]; every draw of
    [Math.random()] is its [r]. *)
Inductive Event :=
| Connection (sid : string)
| START_GAME (now : Z) (r : float)
| PLACE_BET (sid : string) (amount : option float) (username : option string)
| CASH_OUT (sid : string)
| Disconnect (sid : string)
| IntervalFired (now : Z)                 (* tick() *)
| TimeoutFired (now : Z) (r : float).     (* startGame() *)

Definition step (st : State) (ev : Event) : State * list Effect :=
  match ev with
  | Connection sid => on_connection st sid
  | START_GAME now r => on_START_GAME st now r
  | PLACE_BET sid a u => on_PLACE_BET st sid a u
  | CASH_OUT sid => on_CASH_OUT st sid
  | Disconnect sid => on_disconnect st sid
  | IntervalFired now => tick st now
  | TimeoutFired now r => startGame st now r
  end.

(** [Math.random()] returns a number in [[0, 1)]. *)
Definition draw_ok (r : float) : bool := (0 <=? r)%float && (r <? 1)%float.

Definition event_ok (ev : Event) : bool :=
  match ev with
  | START_GAME _ r | TimeoutFired _ r => draw_ok r
  | _ => true
  end.

Definition starts_round (ev : Event) : bool :=
  match ev with
  | START_GAME _ _ | TimeoutFired _ _ => true
  | _ => false
  end.

(** The state and everything emitted after a sequence of events. *)
Fixpoint run (st : State) (evs : list Event) : State * list Effect :=
  match evs with
  | [] => (st, [])
  | ev :: evs =>
      let '(st1, out1) := step st ev in
      let '(st2, out2) := run st1 evs in
      (st2, out1 ++ out2)
  end.

Inductive reachable : State -> Prop :=
| reachable_initial : reachable initial
| reachable_step st ev :
    reachable st -> event_ok ev = true -> reachable (fst (step st ev)).



(** Repeated [tick()] calls, one per clock value. *)
Definition ticks (st : State) (nows : list Z) : State :=
  fold_left (fun s now => fst (tick s now)) nows st.

(** The part of the state a tick reads and writes. *)
Definition round_view (st : State) : bool * float * float * bool :=
  let g := gameState st in (running g, multiplier g, crashPoint g, crashed g).


(** What every reachable state satisfies: a running round has not crashed, its
    target is at most the cap and its multiplier is an entry of the growth
    table; no stake in the ledger is below the minimum; the history holds at
    most 50 entries. *)
Definition invariant (st : State) : Prop :=
  let g := gameState st in
  (running g = true ->
     crashed g = false /\ (crashPoint g <=? 1000)%float = true /\
     exists k : nat, (k < max_ticks)%nat /\ multiplier g = mult_seq k) /\
  (forall sid bet, activeBets st !! sid = Some bet -> (amount bet <? 10)%float = false) /\
  (length (history g) <= 50)%nat.

(** The state [n] ticks into a round with the given target: still running on
    the [n]-th entry of the growth table, or stopped on the entry that reached
    the target. *)
Definition ticked (target : float) (n : nat) (st : State) : Prop :=
  let g := gameState st in
  crashPoint g = target /\
  ((running g = true /\ crashed g = false /\ (n < max_ticks)%nat /\
    multiplier g = mult_seq n) \/
   (running g = false /\ crashed g = true /\
    exists k : nat, (k <= n)%nat /\ (k <= max_ticks)%nat /\
                    multiplier g = mult_seq k /\ js_ge (multiplier g) target = true)).

(** The socket whose handler an event runs. The [START_GAME] handler reads
    no socket id, and the timer callbacks belong to no socket. *)
Definition socket_of (ev : Event) : option string :=
  match ev with
  | Connection sid | PLACE_BET sid _ _ | CASH_OUT sid | Disconnect sid => Some sid
  | START_GAME _ _ | IntervalFired _ | TimeoutFired _ _ => None
  end.

(** A message sent by a client, as opposed to a timer callback. *)
Definition client_message (ev : Event) : bool :=
  match ev with
  | IntervalFired _ | TimeoutFired _ _ => false
  | _ => true
  end.

(** The effect is a [socket.emit] on the socket [sid]. *)
Definition emits_to (sid : string) (e : Effect) : bool :=
  match e with
  | SocketEmit s _ => bool_decide (s = sid)
  | _ => false
  end.



(** What the ledger holds: stakes that are numbers not below the minimum, open
    bets with no profit yet, names that are not empty. *)
Definition ledger_ok (st : State) : Prop :=
  forall sid bet, activeBets st !! sid = Some bet ->
    (10 <=? amount bet)%float = true /\
    (cashedOut bet = false -> profit bet = 0%float) /\
    username bet <> "".

(** The three phases of the server: no round yet, a round running, a round
    crashed. *)
Definition phase_ok (st : State) : Prop :=
  let g := gameState st in
  match gameId g with
  | None => running g = false /\ crashed g = false /\ activeBets st = ∅ /\
            history g = [] /\ multiplier g = 1.00%float
  | Some _ => crashed g = negb (running g)
  end.

(** The numbers of a round: target and multiplier of a running round, and the
    targets kept in the history. *)
Definition round_bounds (st : State) : Prop :=
  let g := gameState st in
  (running g = true ->
     in_range (crashPoint g) = true /\
     (1 <=? multiplier g)%float = true /\
     (multiplier g <=? crashPoint g)%float = true) /\
  Forall (fun e => in_range (h_crashPoint e) = true) (history g).

End Server.

(** ** The mock [GameServer] class *)

Module Mock.

(** [this._config]; [growthRate] is the constant of [_gameLoop]. *)
Module _config.
Definition houseEdge : float := 0.01.
Definition tickRate : float := 30.
End _config.
Definition growthRate : float := 0.15.

(** [this._state.user]; [referralCode] keeps the number after ['USER-']. *)
Record User := mkUser {
  username : string;
  balance : float;
  referralCode : float;
  totalProfit : float
}.

(** A value of [this._state.bets]. *)
Record Bet := mkBet {
  amount : float;
  cashedOut : bool;
  profit : float
}.

Inductive Status := lost | won | none.

Record HistoryEntry := mkHistoryEntry {
  mult : float;
  h_profit : float;
  status : Status
}.

(** [this._state.game]; [id] is [null] or [Date.now().toString()]; [crashed]
    is absent until the first round and only read through [!]. *)
Record Game := mkGame {
  id : option Z;
  running : bool;
  multiplier : float;
  crashPoint : float;
  startTime : Z;
  crashed : bool;
  history : list HistoryEntry
}.

(** [this._state], with the ['cs_user'] entry of [localStorage]: [storage]
    keeps the object that [_saveUser] last passed to [JSON.stringify]; what
    the entry holds as text is [entry] below. *)
Record State := mkState {
  user : option User;
  game : Game;
  bets : gmap (option Z) Bet;
  storage : option User
}.

Inductive Msg :=
| INITIAL_STATE (user : option User) (history : list HistoryEntry)
| USER_UPDATE (user : option User)
| GAME_START (id : Z) (modeId : string)
| BET_PLACED (amount : float)
| CASHOUT_SUCCESS (multiplier winAmount profit : float)
| BET_LOST (amount : float)
| TICK (multiplier elapsed : float)
| GAME_CRASHED (crashPoint : float)
| HISTORY_UPDATE (history : list HistoryEntry).

Inductive Effect :=
| Emit (m : Msg)              (* this._emit(event, data) *)
| SetInterval (ms : float)    (* this._loopInterval = setInterval(...) *)
| ClearInterval.              (* clearInterval(this._loopInterval) *)

(** What a method call comes back with: its return value, or the
    [TypeError] of reading a property of [null]. *)
Inductive Ret :=
| Undefined
| Error (text : string)                (* { error: text } *)
| Success                              (* { success: true } *)
| Redeemed (thousandths : float)       (* { success: true, message: ... } *)
| TypeError.

(** The state the constructor leaves, [saved] being what [_loadUser] finds. *)
Definition initial (saved : option User) : State :=
  {| user := saved;
     game := {| id := None; running := false; multiplier := 1.00; crashPoint := 0;
                startTime := 0; crashed := false; history := [] |};
     bets := ∅;
     storage := saved |}.

Definition set_user (st : State) (u : option User) (saved : option User) : State :=
  {| user := u; game := game st; bets := bets st; storage := saved |}.

Definition set_game (st : State) (g : Game) : State :=
  {| user := user st; game := g; bets := bets st; storage := storage st |}.

Definition subscribe (st : State) : State * list Effect * Ret :=
  (st, [Emit (INITIAL_STATE (user st) (history (game st)))], Undefined).

Definition login (st : State) (username : string) (r : float)
  : State * list Effect * Ret :=
  match username with
  | EmptyString => (st, [], Error "Username required")
  | _ =>
      let u := {| username := username; balance := 5000;
                  referralCode := js_floor (1000 + r * 9000)%float;
                  totalProfit := 0 |} in
      (set_user st (Some u) (Some u), [Emit (USER_UPDATE (Some u))], Success)
  end.

Definition logout (st : State) : State * list Effect * Ret :=
  (set_user st None None, [Emit (USER_UPDATE None)], Undefined).

Definition redeem (st : State) (amount : float) : State * list Effect * Ret :=
  match user st with
  | None => (st, [], Error "Not logged in")
  | Some u =>
      if js_gt amount (balance u) then (st, [], Error "Insufficient funds")
      else
        let u := {| username := username u; balance := (balance u - amount)%float;
                    referralCode := referralCode u; totalProfit := totalProfit u |} in
        (set_user st (Some u) (Some u), [Emit (USER_UPDATE (Some u))],
         Redeemed (amount / 1000)%float)
  end.

Definition startGame (st : State) (modeId : string) (now : Z) (r : float)
  : State * list Effect * Ret :=
  let g := game st in
  if running g then (st, [], Undefined)
  else
    (set_game st {| running := true; multiplier := 1.00; id := Some now;
                    startTime := now; crashed := false;
                    crashPoint := drawCrashPoint r; history := history g |},
     [Emit (GAME_START now modeId); SetInterval _config.tickRate], Undefined).

(** [placeBet(amount)]; the first [if] of the method has an empty body. *)
Definition placeBet (st : State) (amount : float) : State * list Effect * Ret :=
  match user st with
  | None => (st, [], Error "Login required")
  | Some u =>
      if js_gt amount (balance u) then (st, [], Error "Insufficient funds")
      else if (amount <? 10)%float then (st, [], Error "Min bet 10")
      else
        let u := {| username := username u; balance := (balance u - amount)%float;
                    referralCode := referralCode u; totalProfit := totalProfit u |} in
        ({| user := Some u; game := game st;
            bets := <[id (game st) := {| amount := amount; cashedOut := false;
                                         profit := 0 |}]> (bets st);
            storage := Some u |},
         [Emit (USER_UPDATE (Some u)); Emit (BET_PLACED amount)], Success)
  end.

(** [cashOut()]. The bet object is marked before the user is touched, so
    with no user the call throws after the ledger has changed. *)
Definition cashOut (st : State) : State * list Effect * Ret :=
  let g := game st in
  if negb (running g) then (st, [], Error "Game not running")
  else
    match bets st !! id g with
    | None => (st, [], Error "No active bet")
    | Some bet =>
        if cashedOut bet then (st, [], Error "No active bet")
        else
          let currentMult := multiplier g in
          let winAmount := js_floor (amount bet * currentMult)%float in
          let profit := (winAmount - amount bet)%float in
          let bets := <[id g := {| amount := amount bet; cashedOut := true;
                                   profit := profit |}]> (bets st) in
          match user st with
          | None =>
              ({| user := None; game := g; bets := bets; storage := storage st |},
               [], TypeError)
          | Some u =>
              let u := {| username := username u;
                          balance := (balance u + winAmount)%float;
                          referralCode := referralCode u;
                          totalProfit := (totalProfit u + profit)%float |} in
              ({| user := Some u; game := g; bets := bets; storage := Some u |},
               [Emit (CASHOUT_SUCCESS currentMult winAmount profit);
                Emit (USER_UPDATE (Some u))], Success)
          end
    end.

(** [_addToHistory(mult, profit, status)], without its emit. *)
Definition _addToHistory (h : list HistoryEntry) (mult profit : float) (status : Status)
  : list HistoryEntry :=
  let h := js_unshift h {| mult := mult; h_profit := profit; status := status |} in
  if (50 <? length h)%nat then js_pop h else h.

(** [_crash()]. With a live bet and no user the method throws before the
    history is touched. *)
Definition _crash (st : State) : State * list Effect * Ret :=
  let g := game st in
  let g1 := {| running := false; crashed := true; id := id g;
               multiplier := multiplier g; crashPoint := crashPoint g;
               startTime := startTime g; history := history g |} in
  let finalCrash := crashPoint g in
  let finish (u : option User) (saved : option User) (pre : list Effect)
             (profit : float) (status : Status) :=
    let h := _addToHistory (history g) finalCrash profit status in
    ({| user := u;
        game := {| running := false; crashed := true; id := id g;
                   multiplier := multiplier g; crashPoint := crashPoint g;
                   startTime := startTime g; history := h |};
        bets := bets st; storage := saved |},
     [ClearInterval] ++ pre ++
     [Emit (HISTORY_UPDATE h); Emit (GAME_CRASHED finalCrash); Emit (USER_UPDATE u)],
     Undefined) in
  match bets st !! id g with
  | Some bet =>
      if negb (cashedOut bet) then
        match user st with
        | None =>
            ({| user := None; game := g1; bets := bets st; storage := storage st |},
             [ClearInterval], TypeError)
        | Some u =>
            let u := {| username := username u; balance := balance u;
                        referralCode := referralCode u;
                        totalProfit := (totalProfit u - amount bet)%float |} in
            finish (Some u) (Some u) [Emit (BET_LOST (amount bet))]
                   (- amount bet)%float lost
        end
      else finish (user st) (storage st) [] (profit bet) won
  | None => finish (user st) (storage st) [] 0%float none
  end.

(** [_gameLoop()], the interval callback. *)
Definition _gameLoop (st : State) (now : Z) : State * list Effect * Ret :=
  let g := game st in
  if negb (running g) then (st, [], Undefined)
  else
    let elapsed := (float_of_Z (now - startTime g) / 1000)%float in
    let m := grow growthRate _config.tickRate (multiplier g) in
    let st1 := set_game st {| running := running g; multiplier := m; id := id g;
                              crashPoint := crashPoint g; startTime := startTime g;
                              crashed := crashed g; history := history g |} in
    if js_ge m (crashPoint g) then _crash st1
    else (st1, [Emit (TICK m elapsed)], Undefined).

Inductive Event :=
| Subscribe
| Login (username : string) (r : float)
| Logout
| Redeem (amount : float)
| StartGame (modeId : string) (now : Z) (r : float)
| PlaceBet (amount : float)
| CashOut
| IntervalFired (now : Z).

Definition step (st : State) (ev : Event) : State * list Effect * Ret :=
  match ev with
  | Subscribe => subscribe st
  | Login u r => login st u r
  | Logout => logout st
  | Redeem a => redeem st a
  | StartGame modeId now r => startGame st modeId now r
  | PlaceBet a => placeBet st a
  | CashOut => cashOut st
  | IntervalFired now => _gameLoop st now
  end.

Definition draw_ok (r : float) : bool := (0 <=? r)%float && (r <? 1)%float.

Definition event_ok (ev : Event) : bool :=
  match ev with
  | Login _ r | StartGame _ _ r => draw_ok r
  | _ => true
  end.

Inductive reachable (saved : option User) : State -> Prop :=
| reachable_initial : reachable saved (initial saved)
| reachable_step st ev :
    reachable saved st -> event_ok ev = true ->
    reachable saved (fst (fst (step st ev))).

(** Repeated [_gameLoop()] calls, one per clock value. *)
Definition ticks (st : State) (nows : list Z) : State :=
  fold_left (fun s now => fst (fst (_gameLoop s now))) nows st.

(** The state and everything emitted after a sequence of calls. *)
Fixpoint run (st : State) (evs : list Event) : State * list Effect :=
  match evs with
  | [] => (st, [])
  | ev :: evs =>
      let '(st1, out1, _) := step st ev in
      let '(st2, out2) := run st1 evs in
      (st2, out1 ++ out2)
  end.

Definition starts_round (ev : Event) : bool :=
  match ev with
  | StartGame _ _ _ => true
  | _ => false
  end.

(** The part of the state a tick reads and writes. *)
Definition round_view (st : State) : bool * float * float * bool :=
  let g := game st in (running g, multiplier g, crashPoint g, crashed g).

(** What every reachable state satisfies. *)
Definition invariant (st : State) : Prop :=
  let g := game st in
  (running g = true ->
     (crashPoint g <=? 1000)%float = true /\
     exists k : nat, (k < max_ticks)%nat /\ multiplier g = mult_seq k) /\
  (forall k bet, bets st !! k = Some bet -> (amount bet <? 10)%float = false) /\
  (length (history g) <= 50)%nat.

(** The state [n] ticks into a round with the given target. *)
Definition ticked (target : float) (n : nat) (st : State) : Prop :=
  let g := game st in
  crashPoint g = target /\
  ((running g = true /\ (n < max_ticks)%nat /\ multiplier g = mult_seq n) \/
   (running g = false /\
    exists k : nat, (k <= n)%nat /\ (k <= max_ticks)%nat /\
                    multiplier g = mult_seq k /\ js_ge (multiplier g) target = true)).

(** What each call of a sequence comes back with. *)
Fixpoint rets (st : State) (evs : list Event) : list Ret :=
  match evs with
  | [] => []
  | ev :: evs => let '(st1, _, ret) := step st ev in ret :: rets st1 evs
  end.

(** The amounts of a call are numbers below [Infinity]. *)
Definition amounts_ok (ev : Event) : bool :=
  match ev with
  | PlaceBet a | Redeem a => (a <? infinity)%float
  | _ => true
  end.

(** Timers. [setInterval] starts a timer and stores its handle in
    [_loopInterval]; [clearInterval(this._loopInterval)] stops the timer of
    that handle if it still runs. The pair is the number of running timers
    and whether the stored handle is one of them. *)
Definition timer_step (s : nat * bool) (e : Effect) : nat * bool :=
  match e with
  | SetInterval _ => (S (fst s), true)
  | ClearInterval => if snd s then (pred (fst s), false) else s
  | Emit _ => s
  end.

Definition live_intervals (out : list Effect) : nat :=
  fst (fold_left timer_step out (0%nat, false)).

(** The numbers of a round: target and multiplier of a running round, and the
    targets kept in the history. *)
Definition round_bounds (st : State) : Prop :=
  let g := game st in
  (running g = true ->
     in_range (crashPoint g) = true /\
     (1 <=? multiplier g)%float = true /\
     (multiplier g <=? crashPoint g)%float = true) /\
  Forall (fun e => in_range (mult e) = true) (history g).

(** A number after [JSON.stringify] and [JSON.parse]: [NaN] and the infinities
    are written as [null] ([None]), both zeros as [0], and any other number
    with digits that read back as the same number. *)
Definition json_number (x : float) : option float :=
  if is_nan x || is_infinity x then None
  else if is_zero x then Some 0%float
  else Some x.

(** What [JSON.parse] makes of [JSON.stringify(user)]: the strings as they
    are ([referralCode] is a string in the code), the numbers through
    [json_number]. *)
Record Entry := mkEntry {
  e_username : string;
  e_balance : option float;
  e_referralCode : float;
  e_totalProfit : option float
}.

Definition stringify (u : User) : Entry :=
  {| e_username := username u; e_balance := json_number (balance u);
     e_referralCode := referralCode u; e_totalProfit := json_number (totalProfit u) |}.

(** The ['cs_user'] entry of [localStorage], as [_loadUser] reads it. *)
Definition entry (st : State) : option Entry := stringify <$> storage st.

(** The entry as a user of this model: it is one when no number is [null]. *)
Definition parse (e : Entry) : option User :=
  match e_balance e, e_totalProfit e with
  | Some b, Some t =>
      Some {| username := e_username e; balance := b;
              referralCode := e_referralCode e; totalProfit := t |}
  | _, _ => None
  end.




(** Balances and stakes that are numbers: no balance below zero, every stake
    from the minimum up and below [Infinity]. *)
Definition balance_ok (st : State) : Prop :=
  (forall u, user st = Some u -> (0 <=? balance u)%float = true) /\
  (forall k bet, bets st !! k = Some bet ->
     (10 <=? amount bet)%float = true /\ (amount bet <? infinity)%float = true).

End Mock.

(** ** The client ([app.js]): the chart and the history list

    The handlers of [TICK] and [GAME_START], with [drawChart], and
    [updateHistory], which the handler of [GAME_CRASHED] calls. Writes to the
    page and to the canvas are recorded as effects; a text built from a number
    is kept with the number it prints. *)

Module App.

(** An element of [App.chart.data]. *)
Record Point := mkPoint {
  x : float;
  y : float
}.

(** [App.chart]: the size of the canvas and the points. *)
Record Chart := mkChart {
  width : Z;
  height : Z;
  data : list Point
}.

(** [App.chart.maxPoints]. *)
Definition maxPoints : nat := 200.

Inductive Text :=
| Str (s : string)
| Fixed2x (v : float).          (* v.toFixed(2) + 'x' *)

Inductive Effect :=
| InnerText (id : string) (t : Text)        (* element.innerText = t *)
| ClassName (id : string) (c : string)      (* element.className = c *)
| ClassAdd (id : string) (c : string)       (* element.classList.add(c) *)
| ClassRemove (id : string) (c : string)    (* element.classList.remove(c) *)
| Disabled (id : string) (b : bool)         (* element.disabled = b *)
| Display (id : string) (d : string)        (* element.style.display = d *)
| ClearRect (x y w h : float)
| BeginPath
| StrokeStyle (c : string)
| LineWidth (n : float)
| MoveTo (x y : float)
| LineTo (x y : float)
| Stroke.

(** How a handler ends: it returns, or reading a property of [undefined]
    throws. *)
Inductive Outcome := Returned | TypeError.

(** The chart before the first message: no point yet (here on a canvas of
    size 0; [resizeCanvas] sets the size). *)
Definition initial : Chart := {| width := 0; height := 0; data := [] |}.

(** [a || d] on numbers. *)
Definition js_or (a d : float) : float := if js_falsy a then d else a.

(** [App.resizeCanvas], with the size of the parent element. *)
Definition resizeCanvas (c : Chart) (clientWidth clientHeight : Z) : Chart :=
  {| width := clientWidth; height := clientHeight; data := data c |}.

(** [App.drawChart(currentMult)]. The first four canvas calls come before
    [data[0].x], which throws on an empty array. *)
Definition drawChart (c : Chart) (currentMult : float) : list Effect * Outcome :=
  let w := float_of_Z (width c) in
  let h := float_of_Z (height c) in
  let setup := [ClearRect 0 0 w h; BeginPath; StrokeStyle "#00ff88"; LineWidth 3] in
  match data c with
  | [] => (setup, TypeError)
  | p0 :: _ =>
      let minX := x p0 in
      let maxX := x (List.last (data c) p0) in
      let rangeX := js_or (maxX - minX) 1 in
      let maxY := (currentMult * 1.1)%float in
      let minY := 1.0%float in
      let rangeY := js_or (maxY - minY) 0.1 in
      let segment (i : nat) (p : Point) :=
        let px := ((x p - minX) / rangeX * w)%float in
        let normalizedY := ((y p - minY) / rangeY)%float in
        let py := (h - normalizedY * h)%float in
        match i with O => MoveTo px py | S _ => LineTo px py end in
      (setup ++ imap segment (data c) ++ [Stroke], Returned)
  end.

(** [App.onGameStart]. *)
Definition onGameStart (c : Chart) : Chart * list Effect * Outcome :=
  let c1 := {| width := width c; height := height c;
               data := [{| x := 0; y := 1.0 |}] |} in
  let '(drawn, outcome) := drawChart c1 1.0 in
  (c1,
   [ClassName "multiplierDisplay" "multiplier-display";
    InnerText "multiplierDisplay" (Str "1.00x");
    ClassRemove "marketHaltOverlay" "active";
    Disabled "placeBetBtn" false;
    Display "placeBetBtn" "block";
    Display "cashOutBtn" "none";
    InnerText "placeBetBtn" (Str "PLACE TRADE");
    InnerText "course-text" (Str "Live")] ++ drawn,
   outcome).

(** [App.onTick({ multiplier })]. *)
Definition onTick (c : Chart) (multiplier : float) : Chart * list Effect * Outcome :=
  let xVal := (float_of_Z (Z.of_nat (length (data c))) * 0.1)%float in
  let pushed := data c ++ [{| x := xVal; y := multiplier |}] in
  let kept := if (maxPoints <? length pushed)%nat then tail pushed else pushed in
  let c1 := {| width := width c; height := height c; data := kept |} in
  match drawChart c1 multiplier with
  | (drawn, TypeError) => (c1, drawn, TypeError)
  | (drawn, Returned) =>
      (c1,
       drawn ++ [InnerText "multiplierDisplay" (Fixed2x multiplier);
                 ClassAdd "multiplierDisplay" "positive"],
       Returned)
  end.

(** What can reach the chart: a resize of the window or a server message. *)
Inductive Event :=
| Resize (clientWidth clientHeight : Z)
| GAME_START
| TICK (multiplier : float).

Definition step (c : Chart) (ev : Event) : Chart * list Effect * Outcome :=
  match ev with
  | Resize w h => (resizeCanvas c w h, [], Returned)
  | GAME_START => onGameStart c
  | TICK m => onTick c m
  end.

(** The chart after a sequence of events, and how each handler ended. *)
Fixpoint run (c : Chart) (evs : list Event) : Chart * list Outcome :=
  match evs with
  | [] => (c, [])
  | ev :: evs =>
      let '(c1, _, o) := step c ev in
      let '(c2, os) := run c1 evs in
      (c2, o :: os)
  end.

(** The point a tick appends when the array holds [n] points. *)
Definition pushed_point (n : nat) (multiplier : float) : Point :=
  {| x := (float_of_Z (Z.of_nat n) * 0.1)%float; y := multiplier |}.

(** The points of a round, first to last: the one [onGameStart] puts, then one
    per tick, appended when the array holds [i + 1] points, or 200 once it is
    full. *)
Definition round_points (ms : list float) : list Point :=
  {| x := 0; y := 1.0 |} :: imap (fun i m => pushed_point (Nat.min (S i) maxPoints) m) ms.

(** A child node of the [gameHistory] container: an item made by
    [updateHistory] (its class is ['won'] or ['lost'], its text the crash
    point with two decimals), another element, or a node that is no element
    (text, comment). *)
Inductive Node :=
| HistoryItem (won : bool) (label : Text)
| OtherElement
| NonElement.

Definition is_element (n : Node) : bool :=
  match n with NonElement => false | _ => true end.

(** [container.children.length]. *)
Definition children_length (container : list Node) : nat :=
  length (List.filter is_element container).

(** [App.updateHistory(crashPoint)]: [prepend], then [lastChild.remove()] when
    more than 20 element children are there. *)
Definition updateHistory (container : list Node) (crashPoint : float) : list Node :=
  let div := HistoryItem (js_ge crashPoint 2) (Fixed2x crashPoint) in
  let container := div :: container in
  if (20 <? children_length container)%nat then removelast container else container.

End App.

(** ** Concrete runs, used as examples *)

Module Examples.

(** A round with target [1.98], a stake of 100 from socket [s1], one tick. *)
Definition server_round : list Server.Event :=
  [Server.TimeoutFired 1000 0.5;
   Server.PLACE_BET "s1" (Some 100%float) (Some "ann");
   Server.IntervalFired 1030].

Definition server_running : Server.State := fst (Server.run Server.initial server_round).

(** A round whose draw is [0]: the target is [1.00] and the first tick passes
    it. *)
Definition server_instant : Server.State :=
  fst (Server.run Server.initial [Server.TimeoutFired 1000 0]).

(** A round in which socket [s1] has staked [10.5]. *)
Definition server_fractional : Server.State :=
  fst (Server.run Server.initial
         [Server.TimeoutFired 1000 0.5; Server.PLACE_BET "s1" (Some 10.5%float) None]).

(** A round with no bet yet. *)
Definition server_open : Server.State :=
  fst (Server.run Server.initial [Server.TimeoutFired 1000 0.5]).


(** The mock after a login, the start of a round with target [1.98], a stake
    of 100 and one tick. *)
Definition mock_round : list Mock.Event :=
  [Mock.Login "ann" 0.5; Mock.StartGame "classic" 1000 0.5; Mock.PlaceBet 100;
   Mock.IntervalFired 1030].

Definition mock_running : Mock.State := fst (Mock.run (Mock.initial None) mock_round).

(** The mock with a user and a stake of 100 in a round that has just started. *)
Definition mock_bet_placed : Mock.State :=
  fst (Mock.run (Mock.initial None)
         [Mock.Login "ann" 0.5; Mock.StartGame "classic" 1000 0.5; Mock.PlaceBet 100]).

(** The mock with a user in a round whose first tick passes the target. *)
Definition mock_instant : Mock.State :=
  fst (Mock.run (Mock.initial None)
         [Mock.Login "ann" 0.5; Mock.StartGame "classic" 1000 0; Mock.PlaceBet 100]).


(** A running round at multiplier [2.50] in which socket [s1] has staked
    100. *)
Definition server_at_2_50 : Server.State :=
  {| Server.gameState :=
       {| Server.running := true; Server.multiplier := 2.5; Server.crashPoint := 3;
          Server.startTime := 1000; Server.crashed := false; Server.gameId := Some 1000;
          Server.history := [] |};
     Server.activeBets :=
       {["s1" := {| Server.amount := 100; Server.cashedOut := false;
                    Server.profit := 0; Server.username := "ann" |}]} |}.

(** The same in the mock, for a user with 4900 left. *)
Definition mock_at_2_50 : Mock.State :=
  {| Mock.user := Some {| Mock.username := "ann"; Mock.balance := 4900;
                          Mock.referralCode := 5500; Mock.totalProfit := 0 |};
     Mock.game :=
       {| Mock.id := Some 1000; Mock.running := true; Mock.multiplier := 2.5;
          Mock.crashPoint := 3; Mock.startTime := 1000; Mock.crashed := false;
          Mock.history := [] |};
     Mock.bets := {[Some 1000 := {| Mock.amount := 100; Mock.cashedOut := false;
                                    Mock.profit := 0 |}]};
     Mock.storage := Some {| Mock.username := "ann"; Mock.balance := 4900;
                             Mock.referralCode := 5500; Mock.totalProfit := 0 |} |}.




End Examples.

(** * Binary64 arithmetic

    The facts about rounding that the claims rest on, proved from the
    specification of the primitive operations ([SpecFloat], [FloatAxioms]). *)

Lemma digits2_pos_bounds (p : positive) :
  2 ^ (Zpos (digits2_pos p) - 1) <= Zpos p < 2 ^ Zpos (digits2_pos p).
Proof.
  induction p as [p IH | p IH |]; cbn [digits2_pos].
  - rewrite Pos2Z.inj_succ.
    replace (Z.succ (Zpos (digits2_pos p)) - 1) with (Z.succ (Zpos (digits2_pos p) - 1)) by lia.
    rewrite !Z.pow_succ_r by lia. lia.
  - rewrite Pos2Z.inj_succ.
    replace (Z.succ (Zpos (digits2_pos p)) - 1) with (Z.succ (Zpos (digits2_pos p) - 1)) by lia.
    rewrite !Z.pow_succ_r by lia. lia.
  - cbn. lia.
Qed.

Lemma shr_1_m (mrs : shr_record) :
  0 <= shr_m mrs -> shr_m (shr_1 mrs) = shr_m mrs / 2.
Proof.
  destruct mrs as [m r s]; cbn [shr_m shr_1]; intros Hm.
  destruct m as [|[p|p|]|p]; cbn [shr_m]; try lia.
  - reflexivity.
  - rewrite Pos2Z.inj_xI. rewrite Z.mul_comm, Z.div_add_l by lia. 
    replace (1/2) with 0 by reflexivity. lia.
  - rewrite Pos2Z.inj_xO. rewrite Z.mul_comm, Z.div_mul by lia. reflexivity.
  - reflexivity.
Qed.

Lemma shr_1_nonneg (mrs : shr_record) : 0 <= shr_m mrs -> 0 <= shr_m (shr_1 mrs).
Proof. intros H. rewrite shr_1_m by assumption. apply Z.div_pos; lia. Qed.

Lemma pow2_xI (k : positive) : 2 ^ Zpos k~1 = 2 * (2 ^ Zpos k * 2 ^ Zpos k).
Proof.
  change (Zpos k~1) with (2 * Zpos k + 1).
  rewrite Z.pow_add_r, Z.pow_twice_r by lia. change (2 ^ 1) with 2. lia.
Qed.

Lemma pow2_xO (k : positive) : 2 ^ Zpos k~0 = 2 ^ Zpos k * 2 ^ Zpos k.
Proof. change (Zpos k~0) with (2 * Zpos k). apply Z.pow_twice_r. Qed.

Lemma iter_pos_shr_1_m (k : positive) : forall mrs,
  0 <= shr_m mrs -> shr_m (SpecFloat.iter_pos shr_1 k mrs) = shr_m mrs / 2 ^ Zpos k.
Proof.
  induction k as [k IH | k IH |]; intros mrs Hm; cbn [SpecFloat.iter_pos].
  - assert (H1 : 0 <= shr_m (shr_1 mrs)) by now apply shr_1_nonneg.
    assert (H2 : 0 <= shr_m (SpecFloat.iter_pos shr_1 k (shr_1 mrs))).
    { rewrite IH by assumption. apply Z.div_pos; lia. }
    rewrite IH, IH, shr_1_m by assumption.
    rewrite !Z.div_div by lia.
    f_equal. rewrite pow2_xI. lia.
  - assert (H2 : 0 <= shr_m (SpecFloat.iter_pos shr_1 k mrs)).
    { rewrite IH by assumption. apply Z.div_pos; lia. }
    rewrite IH, IH by assumption.
    rewrite !Z.div_div by lia.
    f_equal. rewrite pow2_xO. lia.
  - rewrite shr_1_m by assumption. reflexivity.
Qed.

Abbreviation bra := (binary_round_aux prec emax).
Abbreviation fexp64 := (fexp prec emax).

Lemma fexp64_eq (x : Z) : fexp64 x = Z.max (x - 53) (-1074).
Proof. reflexivity. Qed.

Lemma shr_m_of_loc (m : Z) (l : location) : shr_m (shr_record_of_loc m l) = m.
Proof. destruct l as [|[]]; reflexivity. Qed.

Lemma shr_fexp_spec (m e : Z) (l : location) :
  0 <= m ->
  let e' := fexp64 (Zdigits2 m + e) in
  let '(r, e1) := shr_fexp prec emax m e l in
  (e' <= e /\ r = shr_record_of_loc m l /\ e1 = e) \/
  (e < e' /\ shr_m r = m / 2 ^ (e' - e) /\ e1 = e').
Proof.
  intros Hm e'. unfold shr_fexp, shr. fold e'.
  destruct (e' - e) as [|k|k] eqn:Hk.
  - left. repeat split; lia.
  - right. split; [lia | split; [| lia]].
    rewrite iter_pos_shr_1_m; rewrite shr_m_of_loc; auto.
  - left. repeat split; lia.
Qed.

Lemma rne_range (m : Z) (l : location) :
  m <= round_nearest_even m l <= m + 1.
Proof.
  destruct l as [|[]]; cbn [round_nearest_even]; try lia.
  destruct (Z.even m); lia.
Qed.

Lemma bra_not_nan (s : bool) (mx ex : Z) (lx : location) :
  0 <= mx -> bra s mx ex lx <> S754_nan.
Proof.
  intros Hm. unfold binary_round_aux.
  pose proof (shr_fexp_spec mx ex lx Hm) as H1. cbv zeta in H1.
  destruct (shr_fexp prec emax mx ex lx) as [r1 e1].
  assert (Hr1 : 0 <= shr_m r1).
  { destruct H1 as [(_ & -> & _) | (Hlt & -> & _)].
    - now rewrite shr_m_of_loc.
    - apply Z.div_pos; [lia | apply Z.pow_pos_nonneg; lia]. }
  set (t' := round_nearest_even (shr_m r1) (loc_of_shr_record r1)).
  assert (Ht' : 0 <= t') by (pose proof (rne_range (shr_m r1) (loc_of_shr_record r1)); unfold t'; lia).
  pose proof (shr_fexp_spec t' e1 loc_Exact Ht') as H2. cbv zeta in H2.
  destruct (shr_fexp prec emax t' e1 loc_Exact) as [r2 e2].
  assert (Hr2 : 0 <= shr_m r2).
  { destruct H2 as [(_ & -> & _) | (Hlt & -> & _)].
    - now rewrite shr_m_of_loc.
    - apply Z.div_pos; [lia | apply Z.pow_pos_nonneg; lia]. }
  destruct (shr_m r2); try discriminate; try lia.
  destruct (_ <=? _)%Z; discriminate.
Qed.

Lemma Zdigits2_bounds (m : Z) : 0 < m -> 2 ^ (Zdigits2 m - 1) <= m < 2 ^ Zdigits2 m.
Proof. destruct m; try lia. intros _. apply digits2_pos_bounds. Qed.

Lemma Zdigits2_gt0 (m : Z) : 0 < m -> 0 < Zdigits2 m.
Proof. destruct m; cbn; lia. Qed.

Lemma Zdigits2_le (m n : Z) : 0 < m -> 0 <= n -> m < 2 ^ n -> Zdigits2 m <= n.
Proof.
  intros Hm Hn Hlt. pose proof (Zdigits2_bounds m Hm) as [Hlo _].
  pose proof (Zdigits2_gt0 m Hm).
  assert (2 ^ (Zdigits2 m - 1) < 2 ^ n) as Hp by lia.
  apply Z.pow_lt_mono_r_iff in Hp; lia.
Qed.

Lemma Zdigits2_gt (m n : Z) : 0 < m -> 0 <= n -> 2 ^ n <= m -> n < Zdigits2 m.
Proof.
  intros Hm Hn Hle. pose proof (Zdigits2_bounds m Hm) as [_ Hhi].
  pose proof (Zdigits2_gt0 m Hm).
  assert (2 ^ n < 2 ^ Zdigits2 m) as Hp by lia.
  apply Z.pow_lt_mono_r_iff in Hp; lia.
Qed.

Lemma pow2_split (a b : Z) : 0 <= a <= b -> 2 ^ b = 2 ^ a * 2 ^ (b - a).
Proof. intros H. rewrite <- Z.pow_add_r by lia. f_equal. lia. Qed.

Lemma pow2_gt0 (n : Z) : 0 <= n -> 0 < 2 ^ n.
Proof. intros. apply Z.pow_pos_nonneg; lia. Qed.

(** What rounding returns, for a positive mantissa that is not shorter than
    the format asks for at its exponent. *)
Lemma bra_cases (s : bool) (mx ex : Z) (lx : location) :
  0 < mx ->
  let e' := fexp64 (Zdigits2 mx + ex) in
  ex <= e' ->
  let t := mx / 2 ^ (e' - ex) in
  (bra s mx ex lx = S754_zero s /\ t = 0) \/
  bra s mx ex lx = S754_infinity s \/
  exists mr er,
    bra s mx ex lx = S754_finite s mr er /\ bounded prec emax mr er = true /\
    ((er = e' /\ t <= Zpos mr <= t + 1) \/ (er = e' + 1 /\ t + 1 = 2 ^ 53)).
Proof.
  intros Hmx e' Hk t.
  pose proof (Zdigits2_bounds mx Hmx) as [Hdlo Hdhi].
  pose proof (Zdigits2_gt0 mx Hmx) as Hd0.
  set (d := Zdigits2 mx) in *.
  assert (He' : e' = Z.max (d + ex - 53) (-1074)) by reflexivity.
  assert (Hkpos : 0 < 2 ^ (e' - ex)) by (apply pow2_gt0; lia).
  assert (Ht0 : 0 <= t) by (apply Z.div_pos; lia).
  assert (Hthi : t < 2 ^ 53).
  { apply Z.div_lt_upper_bound; [lia |].
    rewrite <- Z.pow_add_r by lia.
    apply Z.lt_le_trans with (1 := Hdhi).
    apply Z.pow_le_mono_r; lia. }
  assert (Htlo : -1074 < e' -> 2 ^ 52 <= t).
  { intros Hn. apply Z.div_le_lower_bound; [lia |].
    rewrite <- Z.pow_add_r by lia.
    replace (e' - ex + 52) with (d - 1) by lia. exact Hdlo. }
  unfold binary_round_aux.
  pose proof (shr_fexp_spec mx ex lx (Z.lt_le_incl _ _ Hmx)) as H1. cbv zeta in H1.
  fold d in H1. fold e' in H1.
  destruct (shr_fexp prec emax mx ex lx) as [r1 e1].
  assert (H1' : shr_m r1 = t /\ e1 = e').
  { destruct H1 as [(Hle & -> & ->) | (Hlt & -> & ->)].
    - rewrite shr_m_of_loc. unfold t. replace (e' - ex) with 0 by lia.
      rewrite Z.pow_0_r, Z.div_1_r. lia.
    - auto. }
  destruct H1' as [Hr1 ->]. clear H1.
  pose proof (rne_range (shr_m r1) (loc_of_shr_record r1)) as Hrne.
  set (t' := round_nearest_even (shr_m r1) (loc_of_shr_record r1)) in *.
  rewrite Hr1 in Hrne. clearbody t'.
  assert (Ht' : 0 <= t') by lia.
  pose proof (shr_fexp_spec t' e' loc_Exact Ht') as H2. cbv zeta in H2.
  destruct (shr_fexp prec emax t' e' loc_Exact) as [r2 e2].
  rewrite fexp64_eq in H2.
  destruct (Z.eq_dec t' 0) as [Hz | Hnz].
  - (* nothing left after the shift *)
    subst t'. cbn [Zdigits2] in H2.
    destruct H2 as [(Hle & -> & ->) | (Hlt & _)]; [| lia].
    cbn [shr_m shr_record_of_loc]. left. split; [reflexivity | lia].
  - destruct (Z_lt_le_dec t' (2 ^ 53)) as [Hsmall | Hbig].
    + (* the rounded mantissa still fits *)
      assert (Hd' : Zdigits2 t' <= 53) by (apply Zdigits2_le; lia).
      destruct H2 as [(Hle & -> & ->) | (Hlt & _)]; [| lia].
      rewrite shr_m_of_loc.
      destruct t' as [| mr |]; try lia.
      destruct (e' <=? emax - prec)%Z eqn:Hov; [| right; left; reflexivity].
      right; right. exists mr, e'. split; [reflexivity |]. split; [| left; lia].
      unfold bounded, canonical_mantissa. rewrite Hov, andb_true_r.
      apply Z.eqb_eq. rewrite fexp64_eq.
      destruct (Z.eq_dec e' (-1074)) as [Hsub | Hnorm].
      * cbn [Zdigits2] in Hd'. lia.
      * assert (52 < Zdigits2 (Zpos mr)) by (apply Zdigits2_gt; lia).
        cbn [Zdigits2] in *. lia.
    + (* the carry made it one bit longer *)
      assert (t' = 2 ^ 53) by lia. subst t'.
      change (Zdigits2 (2 ^ 53)) with 54 in H2.
      destruct H2 as [(Hle & _) | (Hlt & Hm2 & ->)]; [lia |].
      replace (Z.max (54 + e' - 53) (-1074) - e') with 1 in Hm2 by lia.
      change (2 ^ 53 / 2 ^ 1) with (Zpos (4503599627370496)) in Hm2.
      rewrite Hm2.
      replace (Z.max (54 + e' - 53) (-1074)) with (e' + 1) by lia.
      destruct (e' + 1 <=? emax - prec)%Z eqn:Hov; [| right; left; reflexivity].
      right; right. exists 4503599627370496%positive, (e' + 1). split; [reflexivity |].
      split; [| right; lia].
      unfold bounded, canonical_mantissa. rewrite Hov, andb_true_r.
      apply Z.eqb_eq. rewrite fexp64_eq.
      change (Zpos (digits2_pos 4503599627370496)) with 53. lia.
Qed.

Lemma bra_valid (s : bool) (mx ex : Z) (lx : location) :
  0 < mx -> ex <= fexp64 (Zdigits2 mx + ex) ->
  valid_binary (bra s mx ex lx) = true.
Proof.
  intros Hm Hk.
  destruct (bra_cases s mx ex lx Hm Hk) as [[-> _] | [-> | (mr & er & -> & Hb & _)]];
    [reflexivity | reflexivity | exact Hb].
Qed.

(** ** The order of binary64 values, read through the integer rank *)

Lemma bounded_inv (m : positive) (e : Z) :
  bounded prec emax m e = true ->
  e = Z.max (Zpos (digits2_pos m) + e - 53) (-1074) /\ e <= 971.
Proof.
  unfold bounded, canonical_mantissa. rewrite andb_true_iff, Z.eqb_eq, Z.leb_le.
  rewrite fexp64_eq. unfold emax, prec. lia.
Qed.

Lemma bounded_rank (m : positive) (e : Z) :
  bounded prec emax m e = true ->
  0 < Zpos m * 2 ^ (e + 1074) < 2 ^ 2100 /\
  Zpos m < 2 ^ 53 /\ (-1074 < e -> 2 ^ 52 <= Zpos m).
Proof.
  intros Hb. apply bounded_inv in Hb as [Hc He].
  pose proof (digits2_pos_bounds m) as [Hlo Hhi].
  assert (Hd : Zpos (digits2_pos m) <= 53) by lia.
  assert (Hm : Zpos m < 2 ^ 53).
  { apply Z.lt_le_trans with (1 := Hhi). apply Z.pow_le_mono_r; lia. }
  assert (Hp : 0 < 2 ^ (e + 1074)) by (apply pow2_gt0; lia).
  repeat split; try lia.
  - apply Z.lt_le_trans with (2 ^ 53 * 2 ^ (e + 1074)).
    + apply Z.mul_lt_mono_pos_r; lia.
    + rewrite <- Z.pow_add_r by lia. apply Z.pow_le_mono_r; lia.
  - intros Hn. replace 52 with (Zpos (digits2_pos m) - 1) by lia. exact Hlo.
Qed.

Lemma finite_rank_lt (m1 m2 : positive) (e1 e2 : Z) :
  bounded prec emax m1 e1 = true -> bounded prec emax m2 e2 = true ->
  e1 < e2 -> Zpos m1 * 2 ^ (e1 + 1074) < Zpos m2 * 2 ^ (e2 + 1074).
Proof.
  intros H1 H2 Hlt.
  pose proof (bounded_inv _ _ H1) as [Hc1 _].
  apply bounded_rank in H1 as (_ & Hm1 & _).
  apply bounded_rank in H2 as (_ & _ & Hm2).
  assert (Hp : 0 < 2 ^ (e1 + 1074)) by (apply pow2_gt0; lia).
  rewrite (pow2_split (e1 + 1074) (e2 + 1074)) by lia.
  assert (Hq : 2 <= 2 ^ (e2 + 1074 - (e1 + 1074))).
  { change 2 with (2 ^ 1) at 1. apply Z.pow_le_mono_r; lia. }
  specialize (Hm2 ltac:(lia)).
  set (p := 2 ^ (e1 + 1074)) in *. set (q := 2 ^ (e2 + 1074 - (e1 + 1074))) in *.
  apply Z.lt_le_trans with (2 ^ 53 * p).
  - apply Z.mul_lt_mono_pos_r; lia.
  - change (2 ^ 53) with (2 ^ 52 * 2). rewrite <- Z.mul_assoc.
    apply Z.mul_le_mono_nonneg; try lia.
    rewrite Z.mul_comm. apply Z.mul_le_mono_nonneg_l; lia.
Qed.

Ltac cmp_by_lia :=
  apply (f_equal Some); symmetry;
  first [apply Z.compare_eq_iff; lia | apply Z.compare_lt_iff; lia | apply Z.compare_gt_iff; lia].

Lemma SFcompare_rank (x y : spec_float) :
  valid_binary x = true -> valid_binary y = true ->
  SFis_nan x = false -> SFis_nan y = false ->
  SFcompare x y = Some (SFrank x ?= SFrank y).
Proof.
  intros Hx Hy Nx Ny.
  assert (Hinf : 0 < 2 ^ 2100) by (apply pow2_gt0; lia).
  set (top := 2 ^ 2100) in *.
  destruct x as [sx | sx | | sx mx ex], y as [sy | sy | | sy my ey];
    try discriminate; cbn [SFcompare SFrank valid_binary] in *; fold top.
  - reflexivity.
  - destruct sy; cbn [cond_Zopp]; cmp_by_lia.
  - apply bounded_rank in Hy as (Hy & _).
    destruct sy; cbn [cond_Zopp]; cmp_by_lia.
  - destruct sx; cbn [cond_Zopp]; cmp_by_lia.
  - destruct sx, sy; cbn [cond_Zopp]; cmp_by_lia.
  - apply bounded_rank in Hy as (Hy & _). fold top in Hy.
    destruct sx, sy; cbn [cond_Zopp]; cmp_by_lia.
  - apply bounded_rank in Hx as (Hx & _).
    destruct sx; cbn [cond_Zopp]; cmp_by_lia.
  - apply bounded_rank in Hx as (Hx & _). fold top in Hx.
    destruct sx, sy; cbn [cond_Zopp]; cmp_by_lia.
  - pose proof (bounded_rank _ _ Hx) as (Hrx & _).
    pose proof (bounded_rank _ _ Hy) as (Hry & _).
    assert (Hlex : (match ex ?= ey with
                    | Lt => Lt | Gt => Gt | Eq => Pos.compare_cont Eq mx my end)
                   = (Zpos mx * 2 ^ (ex + 1074) ?= Zpos my * 2 ^ (ey + 1074))).
    { destruct (Z.compare_spec ex ey) as [Heq | Hlt | Hgt].
      - subst ey. assert (Hp : 0 < 2 ^ (ex + 1074)) by (apply pow2_gt0; apply bounded_inv in Hx; lia).
        change (Pos.compare_cont Eq mx my) with (Zpos mx ?= Zpos my).
        destruct (Z.compare_spec (Zpos mx) (Zpos my)) as [He | Hl | Hg]; symmetry.
        + apply Z.compare_eq_iff. congruence.
        + apply Z.compare_lt_iff. apply Z.mul_lt_mono_pos_r; lia.
        + apply Z.compare_gt_iff. apply Z.mul_lt_mono_pos_r; lia.
      - symmetry; apply Z.compare_lt_iff. now apply finite_rank_lt.
      - symmetry; apply Z.compare_gt_iff. now apply finite_rank_lt. }
    destruct sx, sy; cbn [cond_Zopp].
    + apply (f_equal Some).
      rewrite Z.compare_opp, (Z.compare_antisym (Zpos mx * _)), <- Hlex.
      destruct (ex ?= ey); reflexivity.
    + cmp_by_lia.
    + cmp_by_lia.
    + apply (f_equal Some). exact Hlex.
Qed.

(** ** The same order on primitive floats *)

Lemma is_nan_spec (x : float) : is_nan x = SFis_nan (Prim2SF x).
Proof.
  unfold is_nan. rewrite FloatAxioms.eqb_spec. unfold SFeqb.
  destruct (SFis_nan (Prim2SF x)) eqn:Hn.
  - destruct (Prim2SF x); try discriminate. reflexivity.
  - rewrite SFcompare_rank by (auto using Prim2SF_valid).
    now rewrite Z.compare_refl.
Qed.

Lemma leb_rank (x y : float) :
  (x <=? y)%float = negb (is_nan x) && negb (is_nan y) && (rank x <=? rank y).
Proof.
  rewrite FloatAxioms.leb_spec, !is_nan_spec. unfold SFleb, rank.
  destruct (SFis_nan (Prim2SF x)) eqn:Hx.
  { destruct (Prim2SF x); try discriminate. reflexivity. }
  destruct (SFis_nan (Prim2SF y)) eqn:Hy.
  { destruct (Prim2SF y); try discriminate. destruct (Prim2SF x); reflexivity. }
  rewrite SFcompare_rank by (auto using Prim2SF_valid).
  cbn [negb andb]. unfold Z.leb. now destruct (_ ?= _).
Qed.

Lemma ltb_rank (x y : float) :
  (x <? y)%float = negb (is_nan x) && negb (is_nan y) && (rank x <? rank y).
Proof.
  rewrite FloatAxioms.ltb_spec, !is_nan_spec. unfold SFltb, rank.
  destruct (SFis_nan (Prim2SF x)) eqn:Hx.
  { destruct (Prim2SF x); try discriminate. reflexivity. }
  destruct (SFis_nan (Prim2SF y)) eqn:Hy.
  { destruct (Prim2SF y); try discriminate. destruct (Prim2SF x); reflexivity. }
  rewrite SFcompare_rank by (auto using Prim2SF_valid).
  cbn [negb andb]. unfold Z.ltb. now destruct (_ ?= _).
Qed.

Lemma leb_true (x y : float) :
  (x <=? y)%float = true <-> is_nan x = false /\ is_nan y = false /\ rank x <= rank y.
Proof.
  rewrite leb_rank, !andb_true_iff, !negb_true_iff, Z.leb_le. tauto.
Qed.

Lemma ltb_true (x y : float) :
  (x <? y)%float = true <-> is_nan x = false /\ is_nan y = false /\ rank x < rank y.
Proof.
  rewrite ltb_rank, !andb_true_iff, !negb_true_iff, Z.ltb_lt. tauto.
Qed.

Lemma ltb_false (x y : float) :
  is_nan x = false -> is_nan y = false ->
  (x <? y)%float = false <-> rank y <= rank x.
Proof.
  intros Hx Hy. rewrite ltb_rank, Hx, Hy. cbn [negb andb]. apply Z.ltb_ge.
Qed.

Lemma leb_trans (x y z : float) :
  (x <=? y)%float = true -> (y <=? z)%float = true -> (x <=? z)%float = true.
Proof. rewrite !leb_true. intuition lia. Qed.

Lemma ltb_leb_trans (x y z : float) :
  (x <? y)%float = true -> (y <=? z)%float = true -> (x <? z)%float = true.
Proof. rewrite !leb_true, !ltb_true. intuition lia. Qed.

Lemma leb_refl (x : float) : is_nan x = false -> (x <=? x)%float = true.
Proof. intros H. apply leb_true. intuition lia. Qed.

(** ** Rounding does not go below a representable lower bound *)

Lemma bra_ge (my : positive) (ey mx ex E : Z) (lx : location) :
  bounded prec emax my ey = true ->
  0 < mx -> E <= ey -> E <= ex ->
  Zpos my * 2 ^ (ey - E) <= mx * 2 ^ (ex - E) ->
  ex <= fexp64 (Zdigits2 mx + ex) ->
  SFleb (S754_finite false my ey) (bra false mx ex lx) = true.
Proof.
  intros Hb Hmx HEy HEx Hle Hk.
  pose proof (bounded_inv _ _ Hb) as [Hcan _].
  pose proof (bounded_rank _ _ Hb) as (_ & Hmy & _).
  pose proof (digits2_pos_bounds my) as [Hylo Hyhi].
  pose proof (Zdigits2_bounds mx Hmx) as [Hxlo Hxhi].
  pose proof (Zdigits2_gt0 mx Hmx) as Hd0.
  set (dy := Zpos (digits2_pos my)) in *.
  set (d := Zdigits2 mx) in *.
  set (e' := fexp64 (d + ex)) in *.
  assert (He' : e' = Z.max (d + ex - 53) (-1074)) by reflexivity.
  set (t := mx / 2 ^ (e' - ex)).
  assert (Hkpos : 0 < 2 ^ (e' - ex)) by (apply pow2_gt0; lia).
  (* the magnitude of the bound is at most that of the rounded value *)
  assert (Hmag : dy + ey <= d + ex).
  { assert (Hp1 : 0 < 2 ^ (ey - E)) by (apply pow2_gt0; lia).
    assert (Hp2 : 0 < 2 ^ (ex - E)) by (apply pow2_gt0; lia).
    assert (H1 : 2 ^ (dy - 1) * 2 ^ (ey - E) <= Zpos my * 2 ^ (ey - E))
      by (apply Z.mul_le_mono_nonneg_r; lia).
    assert (H2 : mx * 2 ^ (ex - E) < 2 ^ d * 2 ^ (ex - E))
      by (apply Z.mul_lt_mono_pos_r; lia).
    rewrite <- Z.pow_add_r in H1 by (unfold dy; lia).
    rewrite <- Z.pow_add_r in H2 by lia.
    assert (H3 : 2 ^ (dy - 1 + (ey - E)) < 2 ^ (d + (ex - E))) by lia.
    apply Z.pow_lt_mono_r_iff in H3; lia. }
  assert (Hey : ey <= e') by lia.
  assert (Hsame : e' = ey -> Zpos my <= t).
  { intros Heq. apply Z.div_le_lower_bound; [lia |].
    assert (Hp2 : 0 < 2 ^ (ex - E)) by (apply pow2_gt0; lia).
    rewrite (pow2_split (ex - E) (ey - E)) in Hle by lia.
    replace (ey - E - (ex - E)) with (e' - ex) in Hle by lia.
    rewrite (Z.mul_comm (2 ^ (ex - E))), Z.mul_assoc in Hle.
    apply Z.mul_le_mono_pos_r in Hle; lia. }
  assert (Hup : ey < e' -> 2 ^ 52 <= t).
  { intros Hlt. apply Z.div_le_lower_bound; [lia |].
    rewrite <- Z.pow_add_r by lia.
    replace (e' - ex + 52) with (d - 1) by lia. exact Hxlo. }
  destruct (bra_cases false mx ex lx Hmx Hk) as [[_ Hz] | [-> | (mr & er & -> & _ & Hr)]].
  - fold d e' t in Hz. exfalso.
    destruct (Z.eq_dec e' ey) as [Heq | Hne]; [specialize (Hsame Heq) | specialize (Hup ltac:(lia))]; lia.
  - reflexivity.
  - fold d e' t in Hr. unfold SFleb. cbn [SFcompare].
    destruct Hr as [[-> Ht] | [-> Ht]].
    + destruct (Z.compare_spec ey e') as [Heq | Hlt | Hgt]; [| reflexivity | lia].
      symmetry in Heq. specialize (Hsame Heq).
      change (Pos.compare_cont Eq my mr) with (Zpos my ?= Zpos mr).
      destruct (Z.compare_spec (Zpos my) (Zpos mr)); [reflexivity | reflexivity | lia].
    + destruct (Z.compare_spec ey (e' + 1)) as [Heq | Hlt | Hgt]; [lia | reflexivity | lia].
Qed.

Lemma digits2_mul_ge (a b : positive) :
  Zpos (digits2_pos a) + Zpos (digits2_pos b) - 1 <= Zpos (digits2_pos (a * b)).
Proof.
  pose proof (digits2_pos_bounds a) as [Ha _].
  pose proof (digits2_pos_bounds b) as [Hb _].
  assert (H : 2 ^ (Zpos (digits2_pos a) - 1 + (Zpos (digits2_pos b) - 1)) <= Zpos (a * b)).
  { rewrite Z.pow_add_r, Pos2Z.inj_mul by lia. apply Z.mul_le_mono_nonneg; lia. }
  apply Zdigits2_gt in H; cbn [Zdigits2] in *; lia.
Qed.

(** [1 <= m] for a valid positive finite [m], on mantissa and exponent. *)
Lemma ge_one_inv (mm : positive) (em : Z) :
  bounded prec emax mm em = true ->
  2 ^ 1074 <= Zpos mm * 2 ^ (em + 1074) ->
  2 ^ 52 <= Zpos mm /\ -52 <= em /\ (em < 0 -> 2 ^ (- em) <= Zpos mm).
Proof.
  intros Hb Hge.
  pose proof (bounded_inv _ _ Hb) as [Hcan _].
  pose proof (bounded_rank _ _ Hb) as (_ & Hhi & Hnorm).
  assert (Hem : -53 < em).
  { destruct (Z_lt_le_dec (-53) em) as [|Hle]; [assumption | exfalso].
    assert (0 < 2 ^ (em + 1074)) by (apply pow2_gt0; lia).
    assert (2 ^ (em + 1074) <= 2 ^ 1021) by (apply Z.pow_le_mono_r; lia).
    assert (Zpos mm * 2 ^ (em + 1074) < 2 ^ 53 * 2 ^ 1021).
    { apply Z.lt_le_trans with (2 ^ 53 * 2 ^ (em + 1074)).
      - apply Z.mul_lt_mono_pos_r; lia.
      - apply Z.mul_le_mono_nonneg_l; lia. }
    rewrite <- Z.pow_add_r in H1 by lia. change (53 + 1021) with 1074 in H1. lia. }
  split; [apply Hnorm; lia |]. split; [lia |].
  intros Hneg. specialize (Hnorm ltac:(lia)).
  apply Z.le_trans with (2 ^ 52); [apply Z.pow_le_mono_r; lia | assumption].
Qed.

Lemma SFmul_ge (ms mm : positive) (es em : Z) :
  bounded prec emax ms es = true -> bounded prec emax mm em = true ->
  2 ^ 1074 <= Zpos mm * 2 ^ (em + 1074) ->
  SFleb (S754_finite false ms es)
        (SF64mul (S754_finite false ms es) (S754_finite false mm em)) = true.
Proof.
  intros Hs Hm Hge.
  destruct (ge_one_inv _ _ Hm Hge) as (Hn & Hem & Hpow).
  unfold SF64mul, SFmul. cbn [xorb].
  pose proof (digits2_mul_ge ms mm) as Hdig.
  assert (Hdm : 53 <= Zpos (digits2_pos mm)).
  { assert (52 < Zdigits2 (Zpos mm)) by (apply Zdigits2_gt; lia). cbn [Zdigits2] in *. lia. }
  assert (Hk : es + em <= fexp64 (Zdigits2 (Zpos (ms * mm)) + (es + em))).
  { rewrite fexp64_eq. cbn [Zdigits2]. lia. }
  destruct (Z_lt_le_dec em 0) as [Hneg | Hpos].
  - apply bra_ge with (E := es + em); try lia; try assumption.
    replace (es - (es + em)) with (- em) by lia.
    replace (es + em - (es + em)) with 0 by lia.
    rewrite Z.pow_0_r, Z.mul_1_r, Pos2Z.inj_mul.
    apply Z.mul_le_mono_nonneg_l; [lia | auto].
  - apply bra_ge with (E := es); try lia; try assumption.
    replace (es - es) with 0 by lia. replace (es + em - es) with em by lia.
    rewrite Z.pow_0_r, Z.mul_1_r, Pos2Z.inj_mul.
    assert (0 < 2 ^ em) by (apply pow2_gt0; lia).
    rewrite <- Z.mul_assoc. rewrite <- (Z.mul_1_r (Zpos ms)) at 1.
    apply Z.mul_le_mono_nonneg_l; [lia |]. nia.
Qed.

(** ** Alignment, conversion of integers, subtraction *)

Lemma iter_xO_Z (m d : positive) : Zpos (Pos.iter xO m d) = Zpos m * 2 ^ Zpos d.
Proof.
  change (Pos.iter xO m d) with (shift_pos d m).
  rewrite shift_pos_correct. change (Zpower_pos 2 d) with (2 ^ Zpos d). lia.
Qed.

Lemma digits2_shift (m d : positive) :
  Zpos (digits2_pos (Pos.iter xO m d)) = Zpos (digits2_pos m) + Zpos d.
Proof.
  pose proof (digits2_pos_bounds m) as [Hlo Hhi].
  pose proof (iter_xO_Z m d) as Hv.
  assert (Hp : 0 < 2 ^ Zpos d) by (apply pow2_gt0; lia).
  assert (H1 : Zdigits2 (Zpos (Pos.iter xO m d)) <= Zpos (digits2_pos m) + Zpos d).
  { apply Zdigits2_le; try lia. rewrite Hv, Z.pow_add_r by lia.
    apply Z.mul_lt_mono_pos_r; lia. }
  assert (H2 : Zpos (digits2_pos m) + Zpos d - 1 < Zdigits2 (Zpos (Pos.iter xO m d))).
  { apply Zdigits2_gt; try lia. rewrite Hv.
    replace (Zpos (digits2_pos m) + Zpos d - 1) with (Zpos (digits2_pos m) - 1 + Zpos d) by lia.
    rewrite Z.pow_add_r by lia. apply Z.mul_le_mono_nonneg_r; lia. }
  cbn [Zdigits2] in *. lia.
Qed.

(** [shl_align] keeps the value and never raises the exponent. *)
Lemma shl_align_value (m : positive) (e e' : Z) :
  let '(mz, ez) := shl_align m e e' in
  ez = Z.min e e' /\ Zpos mz = Zpos m * 2 ^ (e - ez) /\
  Zpos (digits2_pos mz) + ez = Zpos (digits2_pos m) + e.
Proof.
  unfold shl_align. destruct (e' - e) as [| d | d] eqn:Hd.
  - replace (Z.min e e') with e by lia. rewrite Z.sub_diag. cbn. lia.
  - replace (Z.min e e') with e by lia. rewrite Z.sub_diag. cbn. lia.
  - replace (Z.min e e') with e' by lia.
    replace (e - e') with (Zpos d) by lia.
    rewrite iter_xO_Z, digits2_shift. lia.
Qed.

Lemma binary_round_cases (s : bool) (m : positive) (e : Z) :
  exists (mz : positive) (ez : Z),
    binary_round prec emax s m e = bra s (Zpos mz) ez loc_Exact /\
    ez <= e /\ Zpos mz = Zpos m * 2 ^ (e - ez) /\
    ez <= fexp64 (Zdigits2 (Zpos mz) + ez).
Proof.
  unfold binary_round.
  pose proof (shl_align_value m e (fexp64 (Zpos (digits2_pos m) + e))) as H.
  destruct (shl_align m e _) as [mz ez].
  destruct H as (Hez & Hv & Hd).
  exists mz, ez. split; [reflexivity |]. split; [lia |]. split; [exact Hv |].
  cbn [Zdigits2]. rewrite Hd. lia.
Qed.

Lemma binary_round_valid (s : bool) (m : positive) (e : Z) :
  valid_binary (binary_round prec emax s m e) = true.
Proof.
  destruct (binary_round_cases s m e) as (mz & ez & -> & _ & _ & Hk).
  apply bra_valid; [lia | exact Hk].
Qed.

Lemma binary_normalize_valid (n e : Z) (sz : bool) :
  valid_binary (binary_normalize prec emax n e sz) = true.
Proof.
  destruct n; cbn [binary_normalize]; [reflexivity | |]; apply binary_round_valid.
Qed.

Lemma scale_le (a b ea eb E E' : Z) :
  E' <= E -> E <= ea -> E <= eb -> 0 <= a -> 0 <= b ->
  (a * 2 ^ (ea - E) <= b * 2 ^ (eb - E) <-> a * 2 ^ (ea - E') <= b * 2 ^ (eb - E')).
Proof.
  intros H1 H2 H3 Ha Hb.
  assert (Hp : 0 < 2 ^ (E - E')) by (apply pow2_gt0; lia).
  replace (ea - E') with (ea - E + (E - E')) by lia.
  replace (eb - E') with (eb - E + (E - E')) by lia.
  rewrite !Z.pow_add_r, !Z.mul_assoc by lia.
  split; intros H.
  - apply Z.mul_le_mono_pos_r; assumption.
  - apply Z.mul_le_mono_pos_r in H; assumption.
Qed.

Lemma binary_round_ge (my mx : positive) (ey ex E : Z) :
  bounded prec emax my ey = true ->
  E <= ey -> E <= ex ->
  Zpos my * 2 ^ (ey - E) <= Zpos mx * 2 ^ (ex - E) ->
  SFleb (S754_finite false my ey) (binary_round prec emax false mx ex) = true.
Proof.
  intros Hb HEy HEx Hle.
  destruct (binary_round_cases false mx ex) as (mz & ez & -> & Hez & Hv & Hk).
  apply bra_ge with (E := Z.min E ez); try lia; try assumption.
  rewrite Hv, <- Z.mul_assoc, <- Z.pow_add_r by lia.
  replace (ex - ez + (ez - Z.min E ez)) with (ex - Z.min E ez) by lia.
  apply (scale_le (Zpos my) (Zpos mx) ey ex E (Z.min E ez)); lia.
Qed.

(** ** [Math.floor] *)

Lemma SFfloor_valid (x : spec_float) :
  valid_binary x = true -> valid_binary (SFfloor x) = true.
Proof.
  intros Hx. destruct x as [| | | s m e]; try exact Hx.
  cbn [SFfloor]. destruct (0 <=? e); [exact Hx |].
  destruct (_ / _); [reflexivity | |]; apply binary_normalize_valid.
Qed.

Lemma js_floor_spec (x : float) : Prim2SF (js_floor x) = SFfloor (Prim2SF x).
Proof. apply Prim2SF_SF2Prim, SFfloor_valid, Prim2SF_valid. Qed.

Lemma SFfloor_ge (ms mp : positive) (es ep : Z) :
  bounded prec emax ms es = true -> bounded prec emax mp ep = true ->
  SFis_integer (S754_finite false ms es) = true ->
  Zpos ms * 2 ^ (es + 1074) <= Zpos mp * 2 ^ (ep + 1074) ->
  SFleb (S754_finite false ms es) (SFfloor (S754_finite false mp ep)) = true.
Proof.
  intros Hs Hp Hint Hle.
  pose proof (bounded_inv _ _ Hs) as [Hcs _].
  pose proof (bounded_inv _ _ Hp) as [Hcp _].
  cbn [SFfloor cond_Zopp]. destruct (Z.leb_spec 0 ep) as [Hep | Hep].
  - (* no fractional bits *)
    unfold SFleb. rewrite SFcompare_rank by auto. cbn [SFrank cond_Zopp].
    destruct (Z.compare_spec (Zpos ms * 2 ^ (es + 1074)) (Zpos mp * 2 ^ (ep + 1074)));
      [reflexivity | reflexivity | lia].
  - set (n := Zpos mp / 2 ^ (- ep)).
    assert (Hpp : 0 < 2 ^ (- ep)) by (apply pow2_gt0; lia).
    assert (Hq : 0 < 2 ^ (ep + 1074)) by (apply pow2_gt0; lia).
    assert (Hn : Zpos ms * 2 ^ (es - Z.min es 0) <= n * 2 ^ (0 - Z.min es 0)).
    { cbn [SFis_integer] in Hint. apply orb_true_iff in Hint as [Hes | Hdiv].
      - apply Z.leb_le in Hes. replace (Z.min es 0) with 0 by lia.
        rewrite Z.sub_0_r, Z.sub_diag, Z.pow_0_r, Z.mul_1_r.
        apply Z.div_le_lower_bound; [lia |].
        replace (es + 1074) with (es + (- ep) + (ep + 1074)) in Hle by lia.
        rewrite !Z.pow_add_r, !Z.mul_assoc in Hle by lia.
        apply Z.mul_le_mono_pos_r in Hle; lia.
      - destruct (Z.leb_spec 0 es) as [Hes | Hes].
        + replace (Z.min es 0) with 0 by lia.
          rewrite Z.sub_0_r, Z.sub_diag, Z.pow_0_r, Z.mul_1_r.
          apply Z.div_le_lower_bound; [lia |].
          replace (es + 1074) with (es + (- ep) + (ep + 1074)) in Hle by lia.
          rewrite !Z.pow_add_r, !Z.mul_assoc in Hle by lia.
          apply Z.mul_le_mono_pos_r in Hle; lia.
        + apply Z.eqb_eq in Hdiv.
          assert (Hps : 0 < 2 ^ (- es)) by (apply pow2_gt0; lia).
          apply Z.div_exact in Hdiv; [| lia].
          set (q := Zpos ms / 2 ^ (- es)) in *.
          replace (Z.min es 0) with es by lia.
          rewrite Z.sub_diag, Z.pow_0_r, Z.mul_1_r, Z.sub_0_l, Hdiv, Z.mul_comm.
          apply Z.mul_le_mono_nonneg_r; [lia |].
          apply Z.div_le_lower_bound; [lia |].
          rewrite Hdiv in Hle.
          replace (2 ^ (- es) * q * 2 ^ (es + 1074)) with (q * (2 ^ (- es) * 2 ^ (es + 1074))) in Hle by lia.
          rewrite <- Z.pow_add_r in Hle by lia.
          replace (- es + (es + 1074)) with (- ep + (ep + 1074)) in Hle by lia.
          rewrite Z.pow_add_r, Z.mul_assoc in Hle by lia.
          apply Z.mul_le_mono_pos_r in Hle; lia. }
    assert (Hn0 : 0 < n).
    { assert (0 < 2 ^ (es - Z.min es 0)) by (apply pow2_gt0; lia).
      assert (0 < 2 ^ (0 - Z.min es 0)) by (apply pow2_gt0; lia).
      assert (0 < n * 2 ^ (0 - Z.min es 0)) by lia.
      apply Z.mul_pos_cancel_r with (2 ^ (0 - Z.min es 0)); assumption. }
    destruct n as [| pn |] eqn:En; try lia.
    cbn [binary_normalize].
    apply binary_round_ge with (E := Z.min es 0); try lia; assumption.
Qed.

(** ** Signs and NaN-freeness of the arithmetic the server uses *)

Lemma binary_round_not_nan (s : bool) (m : positive) (e : Z) :
  SFis_nan (binary_round prec emax s m e) = false.
Proof.
  destruct (binary_round_cases s m e) as (mz & ez & -> & _).
  pose proof (bra_not_nan s (Zpos mz) ez loc_Exact ltac:(lia)) as H.
  destruct (bra _ _ _ _); cbn [SFis_nan]; congruence.
Qed.

Lemma binary_normalize_not_nan (n e : Z) (sz : bool) :
  SFis_nan (binary_normalize prec emax n e sz) = false.
Proof.
  destruct n; cbn [binary_normalize]; [reflexivity | |]; apply binary_round_not_nan.
Qed.

Lemma SFsub_not_nan (sx : bool) (mx : positive) (ex : Z) (y : spec_float) :
  SFis_nan y = false -> SFis_nan (SF64sub (S754_finite sx mx ex) y) = false.
Proof.
  intros Hy. destruct y as [sy | sy | | sy my ey]; try discriminate;
    cbn [SF64sub SFsub SFis_nan]; try reflexivity.
  apply binary_normalize_not_nan.
Qed.

Lemma SFdiv_not_nan (sx : bool) (mx : positive) (ex : Z) (y : spec_float) :
  SFis_nan y = false -> SFis_nan (SF64div (S754_finite sx mx ex) y) = false.
Proof.
  intros Hy. destruct y as [sy | sy | | sy my ey]; try discriminate;
    cbn [SF64div SFdiv SFis_nan]; try reflexivity.
  unfold SFdiv_core_binary.
  set (m' := match _ - _ with Z0 => Zpos mx | Zpos _ => Z.shiftl (Zpos mx) _ | Zneg _ => 0 end).
  assert (Hm' : 0 <= m').
  { unfold m'. destruct (_ - _); try lia. apply Z.shiftl_nonneg. lia. }
  pose proof (Z_div_mod m' (Zpos my) ltac:(lia)) as Hdm.
  pose proof (Z.div_pos m' (Zpos my) Hm' ltac:(lia)) as Hq.
  unfold Z.div in Hq.
  destruct (Z.div_eucl m' (Zpos my)) as [q r]. 
  pose proof (bra_not_nan (xorb sx sy) q
    (Z.min (fexp64 (Zdigits2 (Zpos mx) + ex - (Zdigits2 (Zpos my) + ey))) (ex - ey))
    (new_location (Zpos my) r) Hq) as H.
  destruct (bra _ _ _ _); cbn [SFis_nan]; congruence.
Qed.

(** A difference of two positive finite values in the right order is never
    negative. *)
Lemma SFsub_nonneg (mw ms : positive) (ew es : Z) :
  bounded prec emax mw ew = true -> bounded prec emax ms es = true ->
  Zpos ms * 2 ^ (es + 1074) <= Zpos mw * 2 ^ (ew + 1074) ->
  SFleb (S754_zero false)
        (SF64sub (S754_finite false mw ew) (S754_finite false ms es)) = true.
Proof.
  intros Hw Hs Hle.
  pose proof (bounded_inv _ _ Hw) as [Hcw _].
  pose proof (bounded_inv _ _ Hs) as [Hcs _].
  cbn [SF64sub SFsub cond_Zopp].
  set (ez := Z.min ew es).
  pose proof (shl_align_value mw ew ez) as Hvw.
  pose proof (shl_align_value ms es ez) as Hvs.
  destruct (shl_align mw ew ez) as [aw ezw], (shl_align ms es ez) as [az ezs].
  cbn [fst]. destruct Hvw as (Hezw & Hvw & _), Hvs as (Hezs & Hvs & _).
  replace ezw with ez in Hvw by (unfold ez in *; lia).
  replace ezs with ez in Hvs by (unfold ez in *; lia).
  assert (Hd : 0 <= Zpos aw - Zpos az).
  { rewrite Hvw, Hvs.
    apply Z.le_0_sub.
    apply (scale_le (Zpos ms) (Zpos mw) es ew ez (-1074)); unfold ez in *; try lia.
    replace (es - -1074) with (es + 1074) by lia.
    replace (ew - -1074) with (ew + 1074) by lia. exact Hle. }
  destruct (Zpos aw - Zpos az) as [| p | p] eqn:Ep; try lia; cbn [binary_normalize].
  - reflexivity.
  - destruct (binary_round_cases false p ez) as (mz & ez' & -> & _ & _ & Hk).
    destruct (bra_cases false (Zpos mz) ez' loc_Exact ltac:(lia) Hk)
      as [[-> _] | [-> | (mr & er & -> & _)]]; reflexivity.
Qed.

(** ** Facts about primitive floats *)

(** The shapes a value above zero can take. *)
Lemma SFrank_pos_cases (x : spec_float) :
  valid_binary x = true -> SFis_nan x = false -> 0 < SFrank x ->
  (exists m e, x = S754_finite false m e /\ bounded prec emax m e = true) \/
  x = S754_infinity false.
Proof.
  intros Hv Hn Hr.
  assert (Hinf : 0 < 2 ^ 2100) by (apply pow2_gt0; lia).
  destruct x as [s | s | | s m e]; cbn [SFrank SFis_nan valid_binary] in *.
  - lia.
  - destruct s; cbn [cond_Zopp] in Hr; [lia | now right].
  - discriminate.
  - pose proof (bounded_rank _ _ Hv) as (Hb & _).
    destruct s; cbn [cond_Zopp] in Hr; [lia |].
    left. exists m, e. auto.
Qed.

Lemma pos_float_cases (x : float) :
  (0 <? x)%float = true ->
  (exists m e, Prim2SF x = S754_finite false m e /\ bounded prec emax m e = true) \/
  Prim2SF x = S754_infinity false.
Proof.
  intros H. apply ltb_true in H as (_ & Hn & Hr).
  rewrite is_nan_spec in Hn. unfold rank in Hr.
  change (SFrank (Prim2SF 0)) with 0 in Hr.
  apply SFrank_pos_cases; auto using Prim2SF_valid.
Qed.

Lemma ge_float_cases (c x : float) :
  (c <=? x)%float = true -> 0 < rank c ->
  (exists m e, Prim2SF x = S754_finite false m e /\ bounded prec emax m e = true /\
               rank c <= Zpos m * 2 ^ (e + 1074)) \/
  Prim2SF x = S754_infinity false.
Proof.
  intros H Hc. apply leb_true in H as (_ & Hn & Hr).
  rewrite is_nan_spec in Hn. unfold rank in Hr.
  destruct (SFrank_pos_cases (Prim2SF x)) as [(m & e & Heq & Hb) | Heq];
    auto using Prim2SF_valid; [unfold rank in Hc; lia |].
  left. exists m, e. rewrite Heq in Hr. cbn [SFrank cond_Zopp] in Hr. auto.
Qed.

Lemma one_sub_not_nan (r : float) : is_nan r = false -> is_nan (1 - r) = false.
Proof.
  rewrite !is_nan_spec, FloatAxioms.sub_spec. apply SFsub_not_nan.
Qed.

Lemma div_not_nan (c y : float) :
  (0 <? c)%float = true -> (c <? infinity)%float = true ->
  is_nan y = false -> is_nan (c / y) = false.
Proof.
  intros Hc Hfin. rewrite !is_nan_spec, FloatAxioms.div_spec.
  destruct (pos_float_cases c Hc) as [(m & e & -> & _) | Hinf].
  - apply SFdiv_not_nan.
  - apply ltb_true in Hfin as (_ & _ & Hr). unfold rank in Hr. rewrite Hinf in Hr.
    change (Prim2SF infinity) with (S754_infinity false) in Hr. lia.
Qed.

Lemma rank_one : rank 1 = 2 ^ 1074.
Proof. reflexivity. Qed.

Lemma mul_ge_left (S m : float) :
  (0 <? S)%float = true -> (1 <=? m)%float = true -> (S <=? S * m)%float = true.
Proof.
  intros HS Hm. rewrite FloatAxioms.leb_spec, FloatAxioms.mul_spec.
  assert (Hp : 0 < 2 ^ 1074) by (apply pow2_gt0; lia).
  apply ge_float_cases in Hm; [| rewrite rank_one; lia]. rewrite rank_one in Hm.
  destruct (pos_float_cases S HS) as [(ms & es & -> & Hbs) | ->];
    destruct Hm as [(mm & em & -> & Hbm & Hge) | ->]; try reflexivity.
  now apply SFmul_ge.
Qed.

Lemma floor_ge (S p : float) :
  js_isInteger S = true -> (0 <? S)%float = true ->
  (S <=? p)%float = true -> (S <=? js_floor p)%float = true.
Proof.
  intros Hint HS Hle. rewrite FloatAxioms.leb_spec, js_floor_spec.
  unfold js_isInteger in Hint.
  destruct (pos_float_cases S HS) as [(ms & es & HeqS & Hbs) | HeqS];
    [| rewrite HeqS in Hint; discriminate].
  pose proof (bounded_rank _ _ Hbs) as (HrS & _).
  apply ge_float_cases in Hle; [| unfold rank; rewrite HeqS; cbn [SFrank cond_Zopp]; lia].
  unfold rank in Hle. rewrite HeqS in *. cbn [SFrank cond_Zopp] in Hle.
  destruct Hle as [(mp & ep & -> & Hbp & Hge) | ->]; [| reflexivity].
  now apply SFfloor_ge.
Qed.

Lemma sub_nonneg (w S : float) :
  (0 <? S)%float = true -> (S <? infinity)%float = true ->
  (S <=? w)%float = true -> (0 <=? w - S)%float = true.
Proof.
  intros HS Hfin Hle. rewrite FloatAxioms.leb_spec, FloatAxioms.sub_spec.
  change (Prim2SF 0) with (S754_zero false).
  apply ltb_true in Hfin as (_ & _ & HrS). unfold rank in HrS.
  change (Prim2SF infinity) with (S754_infinity false) in HrS.
  destruct (pos_float_cases S HS) as [(ms & es & HeqS & Hbs) | HeqS];
    [| rewrite HeqS in HrS; cbn in HrS; lia].
  pose proof (bounded_rank _ _ Hbs) as (HrS' & _).
  apply ge_float_cases in Hle; [| unfold rank; rewrite HeqS; cbn [SFrank cond_Zopp]; lia].
  unfold rank in Hle. rewrite HeqS in *. cbn [SFrank cond_Zopp] in Hle.
  destruct Hle as [(mw & ew & -> & Hbw & Hge) | ->]; [| reflexivity].
  now apply SFsub_nonneg.
Qed.

(** * The growth table and the crash point *)

Lemma growth_table : growth_table_ok max_ticks 1 = true.
Proof. vm_compute. reflexivity. Qed.

Lemma growth_table_spec (n : nat) : forall k : nat,
  growth_table_ok n (mult_seq k) = true ->
  (forall j : nat, (j < n)%nat ->
     (1 <=? mult_seq (k + j))%float = true /\
     (mult_seq (k + j) <=? mult_seq (S (k + j)))%float = true) /\
  (1000 <=? mult_seq (k + n))%float = true.
Proof.
  induction n as [| n IH]; intros k H; cbn [growth_table_ok] in H.
  - split; [intros j Hj; lia |]. now rewrite Nat.add_0_r.
  - apply andb_true_iff in H as [H Hrest]. apply andb_true_iff in H as [H1 H2].
    destruct (IH (S k) Hrest) as [Hall Hcap]. split.
    + intros [| j] Hj.
      * rewrite Nat.add_0_r. auto.
      * replace (k + S j)%nat with (S k + j)%nat by lia. apply Hall. lia.
    + replace (k + S n)%nat with (S k + n)%nat by lia. exact Hcap.
Qed.

Lemma mult_seq_mono (k : nat) :
  (k < max_ticks)%nat -> (mult_seq k <=? mult_seq (S k))%float = true.
Proof. intros H. apply (proj1 (growth_table_spec max_ticks 0 growth_table) k H). Qed.

Lemma mult_seq_cap : (1000 <=? mult_seq max_ticks)%float = true.
Proof. apply (proj2 (growth_table_spec max_ticks 0 growth_table)). Qed.

Lemma mult_seq_ge_one (k : nat) :
  (k <= max_ticks)%nat -> (1 <=? mult_seq k)%float = true.
Proof.
  intros H. destruct (Nat.eq_dec k max_ticks) as [-> | Hne].
  - apply leb_trans with 1000%float; [reflexivity | apply mult_seq_cap].
  - apply (proj1 (growth_table_spec max_ticks 0 growth_table) k). lia.
Qed.

Lemma mult_seq_not_nan (k : nat) : (k <= max_ticks)%nat -> is_nan (mult_seq k) = false.
Proof. intros H. apply mult_seq_ge_one in H. apply leb_true in H. tauto. Qed.

(** A round whose target is at most the cap has crashed before the table ends:
    while the target has not been reached, fewer than [max_ticks] steps were
    taken. *)
Lemma below_target_bound (k : nat) (target : float) :
  (k <= max_ticks)%nat -> (target <=? 1000)%float = true ->
  js_ge (mult_seq k) target = false -> (k < max_ticks)%nat.
Proof.
  intros Hk Hcap Hlt. destruct (Nat.eq_dec k max_ticks) as [-> | Hne]; [| lia].
  pose proof (leb_trans target 1000 (mult_seq max_ticks) Hcap mult_seq_cap) as H.
  unfold js_ge in Hlt. congruence.
Qed.

Lemma draw_ok_not_nan (r : float) :
  (0 <=? r)%float && (r <? 1)%float = true -> is_nan r = false.
Proof. intros H. apply andb_true_iff in H as [H _]. apply leb_true in H. tauto. Qed.

Lemma js_min_cases (a b : float) :
  is_nan a = false -> is_nan b = false ->
  (js_min a b = a /\ rank a <= rank b) \/ (js_min a b = b /\ rank b <= rank a).
Proof.
  intros Ha Hb. unfold js_min. rewrite Ha, Hb. cbn [orb].
  destruct (a <? b)%float eqn:Hab.
  { apply ltb_true in Hab. left. split; [reflexivity | lia]. }
  destruct (b <? a)%float eqn:Hba.
  { apply ltb_true in Hba. right. split; [reflexivity | lia]. }
  apply ltb_false in Hab; try assumption. apply ltb_false in Hba; try assumption.
  destruct (get_sign a); [left | right]; split; auto; lia.
Qed.

(** The target is never below [1.00] and never above the cap, whatever number
    is drawn. *)
Lemma drawCrashPoint_bounds (r : float) :
  is_nan r = false ->
  (1 <=? drawCrashPoint r)%float = true /\ (drawCrashPoint r <=? 1000)%float = true.
Proof.
  intros Hr. unfold drawCrashPoint.
  set (x := (0.99 / (1 - r))%float).
  assert (Hx : is_nan x = false).
  { apply div_not_nan; [reflexivity | reflexivity |]. now apply one_sub_not_nan. }
  set (c := if (x <? 1)%float then 1%float else x).
  assert (Hc : is_nan c = false /\ rank 1 <= rank c).
  { unfold c. destruct (x <? 1)%float eqn:Hlt.
    - split; [reflexivity | lia].
    - split; [assumption |]. apply ltb_false in Hlt; auto. }
  destruct Hc as [Hcn Hc1].
  assert (H1k : rank 1 <= rank 1000).
  { assert (H : (1 <=? 1000)%float = true) by reflexivity. apply leb_true in H. tauto. }
  destruct (js_min_cases c 1000 Hcn eq_refl) as [[-> Hle] | [-> Hle]];
    rewrite !leb_true; repeat split; auto; lia.
Qed.

(** * The history array *)

Section History.
Context {A : Type}.

(** [unshift] then [pop] when longer than 50 keeps the 50 newest entries. *)
Lemma unshift_pop_take (h : list A) (e : A) :
  (length h <= 50)%nat ->
  (let h1 := js_unshift h e in if (50 <? length h1)%nat then js_pop h1 else h1)
  = take 50 (e :: h).
Proof.
  intros Hlen. cbv zeta. unfold js_unshift, js_pop.
  destruct (Nat.ltb_spec 50 (length (e :: h))) as [Hlt | Hle].
  - cbn [length] in Hlt. assert (Hl : length h = 50%nat) by lia.
    rewrite removelast_firstn_len. cbn [length Nat.pred]. rewrite Hl. reflexivity.
  - symmetry. apply take_ge. exact Hle.
Qed.

Lemma take_cons_take (e : A) (l : list A) (n : nat) :
  take (S n) (e :: take (S n) l) = take (S n) (e :: l).
Proof. cbn [take]. f_equal. rewrite take_take. f_equal. lia. Qed.



End History.

(** * The payout of a cash-out *)

Lemma isInteger_finite (S : float) :
  js_isInteger S = true -> is_nan S = false /\ (S <? infinity)%float = true.
Proof.
  unfold js_isInteger. intros H. rewrite ltb_true, !is_nan_spec. unfold rank.
  change (Prim2SF infinity) with (S754_infinity false).
  pose proof (Prim2SF_valid S) as Hv.
  assert (Hinf : 0 < 2 ^ 2100) by (apply pow2_gt0; lia).
  destruct (Prim2SF S) as [s | s | | s m e]; try discriminate; cbn [SFrank SFis_nan cond_Zopp].
  - auto.
  - apply bounded_rank in Hv as (Hv & _).
    repeat split; auto. destruct s; cbn [cond_Zopp]; lia.
Qed.

Lemma stake_positive (S : float) :
  is_nan S = false -> (S <? 10)%float = false -> (0 <? S)%float = true.
Proof.
  intros Hn Hlt. apply ltb_false in Hlt; [| assumption | reflexivity].
  apply ltb_true. repeat split; auto.
  assert (H : (0 <? 10)%float = true) by reflexivity.
  apply ltb_true in H. lia.
Qed.

(** With a whole stake that passed the minimum and a multiplier of at least
    [1.00], the floored product is not below the stake and the profit is not
    negative. *)
Lemma cashout_no_loss (S m : float) :
  js_isInteger S = true -> (S <? 10)%float = false -> (1 <=? m)%float = true ->
  (S <=? js_floor (S * m))%float = true /\
  (0 <=? js_floor (S * m) - S)%float = true.
Proof.
  intros Hint Hmin Hm.
  destruct (isInteger_finite S Hint) as [Hn Hfin].
  pose proof (stake_positive S Hn Hmin) as Hpos.
  assert (Hw : (S <=? js_floor (S * m))%float = true).
  { apply floor_ge; auto. now apply mul_ge_left. }
  split; [exact Hw |]. now apply sub_nonneg.
Qed.

(** * Facts about [server.js] *)

Module ServerFacts.
Import Server.

Lemma addToHistory_take (h : list HistoryEntry) (cp : float) (now : Z) :
  (length h <= 50)%nat ->
  addToHistory h cp now = take 50 ({| h_crashPoint := cp; timestamp := now |} :: h).
Proof. intros H. unfold addToHistory. now apply unshift_pop_take. Qed.

Lemma addToHistory_length (h : list HistoryEntry) (cp : float) (now : Z) :
  (length h <= 50)%nat -> (length (addToHistory h cp now) <= 50)%nat.
Proof. intros H. rewrite addToHistory_take, length_take by exact H. lia. Qed.

Lemma tick_idle (st : State) (now : Z) :
  running (gameState st) = false -> tick st now = (st, []).
Proof. intros H. unfold tick. now rewrite H. Qed.

(** The two ways a tick of a running round ends. *)
Lemma tick_cases (st : State) (now : Z) :
  running (gameState st) = true ->
  let g := gameState st in
  let m := grow 0.15 30 (multiplier g) in
  (js_ge m (crashPoint g) = true /\
   tick st now =
     ({| gameState := {| running := false; crashed := true; multiplier := m;
                         crashPoint := crashPoint g; startTime := startTime g;
                         gameId := gameId g;
                         history := addToHistory (history g) (crashPoint g) now |};
         activeBets := activeBets st |},
      [ClearInterval;
       IoEmit (GAME_CRASHED (crashPoint g)
                 ((fun kv => settle (fst kv) (snd kv)) <$> map_to_list (activeBets st)));
       SetTimeout 5000])) \/
  (js_ge m (crashPoint g) = false /\
   tick st now =
     ({| gameState := {| running := true; crashed := crashed g; multiplier := m;
                         crashPoint := crashPoint g; startTime := startTime g;
                         gameId := gameId g; history := history g |};
         activeBets := activeBets st |},
      [IoEmit (TICK m (float_of_Z (now - startTime g) / 1000)%float)])).
Proof.
  intros Hrun. cbv zeta. unfold tick. rewrite Hrun. cbn [negb].
  change (grow CONFIG.growthRate CONFIG.tickRate) with (grow 0.15 30).
  destruct (js_ge _ _); [left | right]; split; reflexivity.
Qed.

Lemma startGame_invariant (st : State) (now : Z) (r : float) :
  invariant st -> draw_ok r = true -> invariant (fst (startGame st now r)).
Proof.
  intros (_ & _ & Hh) Hr. unfold invariant, startGame. cbn.
  split; [| split; [| exact Hh]].
  - intros _. split; [reflexivity |]. split.
    + apply drawCrashPoint_bounds. now apply draw_ok_not_nan.
    + exists 0%nat. split; [unfold max_ticks; lia | reflexivity].
  - intros sid bet H. rewrite lookup_empty in H. discriminate.
Qed.

Lemma tick_invariant (st : State) (now : Z) :
  invariant st -> invariant (fst (tick st now)).
Proof.
  intros Hinv. destruct (running (gameState st)) eqn:Hrun.
  - destruct Hinv as (Hr & Hb & Hh). destruct (Hr Hrun) as (Hc & Hcap & k & Hk & Hm).
    destruct (tick_cases st now Hrun) as [[Hge ->] | [Hlt ->]]; unfold invariant; cbn.
    + split; [discriminate |]. split; [exact Hb |]. now apply addToHistory_length.
    + split; [| split; assumption]. intros _. split; [exact Hc |]. split; [exact Hcap |].
      exists (S k). rewrite Hm in *. split; [| reflexivity].
      apply below_target_bound with (target := crashPoint (gameState st)); auto; lia.
  - now rewrite tick_idle.
Qed.

Lemma step_invariant (st : State) (ev : Event) :
  invariant st -> event_ok ev = true -> invariant (fst (step st ev)).
Proof.
  intros Hinv Hok. destruct ev as [sid | now r | sid a u | sid | sid | now | now r];
    cbn [step event_ok] in *.
  - exact Hinv.
  - unfold on_START_GAME. destruct (negb _); [now apply startGame_invariant | exact Hinv].
  - unfold on_PLACE_BET.
    destruct (negb _ || _); [exact Hinv |].
    destruct (activeBets st !! sid) eqn:Hl; [exact Hinv |].
    destruct a as [a |]; [| exact Hinv].
    destruct (js_falsy a || (a <? 10)%float) eqn:Hchk; [exact Hinv |].
    apply orb_false_iff in Hchk as [_ Hmin].
    destruct Hinv as (Hr & Hb & Hh). unfold invariant; cbn.
    split; [exact Hr |]. split; [| exact Hh].
    intros sid' bet Hin. apply lookup_insert_Some in Hin as [[_ <-] | [_ Hin]];
      [exact Hmin | eauto].
  - unfold on_CASH_OUT.
    destruct (negb _ || _); [exact Hinv |].
    destruct (activeBets st !! sid) as [bet |] eqn:Hl; [| exact Hinv].
    destruct (cashedOut bet); [exact Hinv |].
    destruct Hinv as (Hr & Hb & Hh). unfold invariant; cbn.
    split; [exact Hr |]. split; [| exact Hh].
    intros sid' bet' Hin. apply lookup_insert_Some in Hin as [[_ <-] | [_ Hin]];
      [exact (Hb sid bet Hl) | eauto].
  - destruct Hinv as (Hr & Hb & Hh). unfold invariant; cbn.
    split; [exact Hr |]. split; [| exact Hh].
    intros sid' bet' Hin. apply lookup_delete_Some in Hin as [_ Hin]. eauto.
  - now apply tick_invariant.
  - now apply startGame_invariant.
Qed.

Lemma initial_invariant : invariant initial.
Proof.
  unfold invariant, initial; cbn. split; [discriminate |]. split; [| lia].
  intros sid bet H. rewrite lookup_empty in H. discriminate.
Qed.

Lemma reachable_invariant (st : State) : reachable st -> invariant st.
Proof.
  induction 1 as [| st ev _ IH Hok]; [apply initial_invariant | now apply step_invariant].
Qed.

(** ** One settlement per round *)





(** ** The multiplier of a round, tick by tick *)

Lemma startGame_ticked (st : State) (now : Z) (r : float) :
  ticked (drawCrashPoint r) 0 (fst (startGame st now r)).
Proof.
  unfold ticked, startGame; cbn. split; [reflexivity |]. left.
  repeat split. unfold max_ticks; lia.
Qed.

Lemma tick_ticked (target : float) (n : nat) (st : State) (now : Z) :
  (target <=? 1000)%float = true ->
  ticked target n st -> ticked target (S n) (fst (tick st now)).
Proof.
  intros Hcap [Hcp [(Hrun & Hc & Hn & Hm) | (Hrun & Hc & k & Hk & Hkm & Hm & Hge)]].
  - destruct (tick_cases st now Hrun) as [[Hge ->] | [Hlt ->]];
      unfold ticked; cbn; rewrite Hcp, Hm in *; (split; [reflexivity |]).
    + right. repeat split. exists (S n). repeat split; auto; lia.
    + left. repeat split; auto.
      apply below_target_bound with (target := target); auto; lia.
  - rewrite tick_idle by exact Hrun. split; [exact Hcp |]. right.
    repeat split; auto. exists k. repeat split; auto; lia.
Qed.

Lemma ticks_snoc (st : State) (nows : list Z) (now : Z) :
  ticks st (nows ++ [now]) = fst (tick (ticks st nows) now).
Proof. unfold ticks. now rewrite fold_left_app. Qed.

Lemma ticks_ticked (target : float) (nows : list Z) (st : State) :
  (target <=? 1000)%float = true ->
  ticked target 0 st -> ticked target (length nows) (ticks st nows).
Proof.
  intros Hcap H0. induction nows as [| now nows IH] using rev_ind.
  - exact H0.
  - rewrite ticks_snoc, length_app, Nat.add_1_r. now apply tick_ticked.
Qed.

Lemma tick_view (st st' : State) (now now' : Z) :
  round_view st = round_view st' ->
  round_view (fst (tick st now)) = round_view (fst (tick st' now')).
Proof.
  unfold round_view. intros H. injection H as Hr Hm Hc Hd.
  unfold tick. rewrite <- Hr, <- Hm, <- Hc, <- Hd.
  destruct (negb (running (gameState st))); [cbn; congruence |].
  match goal with |- context [if ?b then _ else _] => destruct b end; cbn; congruence.
Qed.

Lemma ticks_view (nows nows' : list Z) : forall st st' : State,
  length nows = length nows' -> round_view st = round_view st' ->
  round_view (ticks st nows) = round_view (ticks st' nows').
Proof.
  revert nows'. induction nows as [| now nows IH]; intros [| now' nows'] st st' Hlen Hv;
    try discriminate; [exact Hv |].
  cbn [ticks fold_left]. apply IH; [now injection Hlen |]. now apply tick_view.
Qed.

(** ** Runs *)

Lemma run_reachable (evs : list Event) : forall st : State,
  reachable st -> forallb event_ok evs = true -> reachable (fst (run st evs)).
Proof.
  induction evs as [| ev evs IH]; intros st Hst Hok; cbn [run forallb] in *.
  - exact Hst.
  - apply andb_true_iff in Hok as [Hev Hok].
    pose proof (reachable_step st ev Hst Hev) as H1.
    destruct (step st ev) as [st1 out1]. specialize (IH st1 H1 Hok).
    destruct (run st1 evs) as [st2 out2]. exact IH.
Qed.

(** Until a round is started, a stopped round stays as it is: same flags,
    same round id, same target. *)
Lemma step_stopped (st : State) (ev : Event) :
  starts_round ev = false -> running (gameState st) = false ->
  gameState (fst (step st ev)) = gameState st.
Proof.
  intros Hns Hstop. destruct ev as [sid | now r | sid a u | sid | sid | now | now r];
    try discriminate; cbn [step].
  - reflexivity.
  - unfold on_PLACE_BET. now rewrite Hstop.
  - unfold on_CASH_OUT. now rewrite Hstop.
  - reflexivity.
  - now rewrite tick_idle.
Qed.

Lemma run_stopped_state (evs : list Event) : forall st : State,
  (forall ev, In ev evs -> starts_round ev = false) ->
  running (gameState st) = false ->
  gameState (fst (run st evs)) = gameState st.
Proof.
  induction evs as [| ev evs IH]; intros st Hns Hstop; cbn [run].
  - reflexivity.
  - pose proof (step_stopped st ev (Hns ev (or_introl eq_refl)) Hstop) as H1.
    destruct (step st ev) as [st1 out1]. cbn [fst] in H1.
    specialize (IH st1 (fun e He => Hns e (or_intror He))).
    destruct (run st1 evs) as [st2 out2]. cbn [fst] in *.
    rewrite IH; congruence.
Qed.

(** Only the start of a round changes the target. *)
Lemma step_crashPoint (st : State) (ev : Event) :
  starts_round ev = false ->
  crashPoint (gameState (fst (step st ev))) = crashPoint (gameState st).
Proof.
  intros Hns. destruct ev as [sid | now r | sid a u | sid | sid | now | now r];
    try discriminate; cbn [step].
  - reflexivity.
  - unfold on_PLACE_BET. destruct (negb _ || _); [reflexivity |].
    destruct (activeBets st !! sid); [reflexivity |].
    destruct a as [a |]; [| reflexivity]. now destruct (js_falsy a || _).
  - unfold on_CASH_OUT. destruct (negb _ || _); [reflexivity |].
    destruct (activeBets st !! sid) as [bet |]; [| reflexivity]. now destruct (cashedOut bet).
  - reflexivity.
  - destruct (running (gameState st)) eqn:Hrun.
    + destruct (tick_cases st now Hrun) as [[_ ->] | [_ ->]]; reflexivity.
    + now rewrite tick_idle.
Qed.


Lemma addToHistory_head (h : list HistoryEntry) (cp : float) (now : Z) :
  head (addToHistory h cp now) = Some {| h_crashPoint := cp; timestamp := now |}.
Proof.
  unfold addToHistory, js_unshift, js_pop. destruct h as [| e h]; [reflexivity |].
  destruct (50 <? _)%nat; reflexivity.
Qed.

(** ** Cash-out and settlement *)

(** The only way [CASH_OUT] answers with [CASHOUT_SUCCESS]. *)
Lemma on_CASH_OUT_success (st st' : State) (sid : string) (out : list Effect)
    (m w p : float) :
  on_CASH_OUT st sid = (st', out) ->
  In (SocketEmit sid (CASHOUT_SUCCESS m w p)) out ->
  exists bet,
    activeBets st !! sid = Some bet /\ cashedOut bet = false /\
    running (gameState st) = true /\ crashed (gameState st) = false /\
    m = multiplier (gameState st) /\
    w = js_floor (amount bet * m)%float /\
    p = (w - amount bet)%float /\
    st' = {| gameState := gameState st;
             activeBets := <[sid := {| amount := amount bet; cashedOut := true;
                                       profit := p; username := username bet |}]>
                             (activeBets st) |} /\
    out = [SocketEmit sid (CASHOUT_SUCCESS m w p)].
Proof.
  unfold on_CASH_OUT. intros Heq Hin.
  destruct (running (gameState st)) eqn:Hrun, (crashed (gameState st)) eqn:Hcr;
    cbn [negb orb] in Heq;
    try (injection Heq as <- <-; destruct Hin as [Hin | []]; discriminate).
  destruct (activeBets st !! sid) as [bet |] eqn:Hl;
    [| injection Heq as <- <-; destruct Hin as [Hin | []]; discriminate].
  destruct (cashedOut bet) eqn:Hco;
    [injection Heq as <- <-; destruct Hin as [Hin | []]; discriminate |].
  injection Heq as <- <-. destruct Hin as [Hin | []].
  injection Hin as <- <- <-. exists bet. repeat split; auto.
Qed.

Lemma on_CASH_OUT_stopped (st : State) (sid : string) :
  running (gameState st) = false \/ crashed (gameState st) = true ->
  on_CASH_OUT st sid = (st, [SocketEmit sid (ERROR "Game not active")]).
Proof.
  intros H. unfold on_CASH_OUT.
  destruct H as [-> | ->]; [reflexivity |]. now rewrite orb_true_r.
Qed.



(** The [results] of a crash: one element per socket with a bet, and a loss
    of the stake for each bet that was not cashed out. *)
Lemma settle_results (bets : gmap string Bet) :
  let results := (fun kv => settle (fst kv) (snd kv)) <$> map_to_list bets in
  NoDup (socketId <$> results) /\
  (forall sid bet, bets !! sid = Some bet -> In (settle sid bet) results) /\
  (forall res, In res results ->
     exists bet, bets !! socketId res = Some bet /\ res = settle (socketId res) bet).
Proof.
  cbv zeta.
  assert (Hsid : forall kv : string * Bet, socketId (settle kv.1 kv.2) = kv.1).
  { intros [sid bet]. unfold settle. now destruct (negb _). }
  split; [| split].
  - rewrite <- list_fmap_compose.
    assert (Heq : (socketId ∘ (fun kv => settle kv.1 kv.2)) <$> map_to_list bets
                  = fst <$> map_to_list bets)
      by (apply list_fmap_ext; intros i kv _; apply Hsid).
    rewrite Heq. apply NoDup_fst_map_to_list.
  - intros sid bet Hl. apply list_elem_of_In.
    apply (list_elem_of_fmap_2 (fun kv => settle kv.1 kv.2) _ (sid, bet)).
    now apply elem_of_map_to_list.
  - intros res Hin. apply list_elem_of_In, list_elem_of_fmap in Hin as ([sid bet] & -> & Hin).
    apply elem_of_map_to_list in Hin. rewrite (Hsid (sid, bet)). cbn [fst snd]. eauto.
Qed.

(** A tick never lowers the multiplier of a round. *)
Lemma ticked_tick_mono (target : float) (n : nat) (st : State) (now : Z) :
  ticked target n st ->
  (multiplier (gameState st) <=? multiplier (gameState (fst (tick st now))))%float = true.
Proof.
  intros [_ [(Hrun & _ & Hn & Hm) | (Hrun & _ & k & _ & Hk & Hm & _)]].
  - destruct (tick_cases st now Hrun) as [[_ ->] | [_ ->]]; cbn; rewrite Hm;
      now apply mult_seq_mono.
  - rewrite tick_idle by exact Hrun. cbn [fst]. rewrite Hm.
    apply leb_refl. now apply mult_seq_not_nan.
Qed.

End ServerFacts.

(** * Facts about the mock [GameServer] *)

Module MockFacts.
Import Mock.

Lemma _addToHistory_take (h : list HistoryEntry) (m p : float) (s : Status) :
  (length h <= 50)%nat ->
  _addToHistory h m p s = take 50 ({| mult := m; h_profit := p; status := s |} :: h).
Proof. intros H. unfold _addToHistory. now apply unshift_pop_take. Qed.

Lemma _addToHistory_length (h : list HistoryEntry) (m p : float) (s : Status) :
  (length h <= 50)%nat -> (length (_addToHistory h m p s) <= 50)%nat.
Proof. intros H. rewrite _addToHistory_take, length_take by exact H. lia. Qed.

(** What [_crash] does to the round, whichever branch it takes: the round is
    stopped, multiplier, target and ledger are as before, and the history is
    untouched (when the method throws) or one entry longer at the front. *)
Lemma _crash_round (st : State) :
  let st' := fst (fst (_crash st)) in
  running (game st') = false /\ crashed (game st') = true /\
  multiplier (game st') = multiplier (game st) /\
  crashPoint (game st') = crashPoint (game st) /\
  id (game st') = id (game st) /\
  bets st' = bets st /\
  (history (game st') = history (game st) \/
   exists p s, history (game st')
               = _addToHistory (history (game st)) (crashPoint (game st)) p s).
Proof.
  cbv zeta. unfold _crash.
  destruct (bets st !! id (game st)) as [bet |].
  - destruct (negb (cashedOut bet)).
    + destruct (user st); cbn; repeat split; eauto.
    + cbn; repeat split; eauto.
  - cbn; repeat split; eauto.
Qed.

Lemma _gameLoop_idle (st : State) (now : Z) :
  running (game st) = false -> _gameLoop st now = (st, [], Undefined).
Proof. intros H. unfold _gameLoop. now rewrite H. Qed.

(** The state a tick of a running round hands to the crash check. *)
Lemma _gameLoop_cases (st : State) (now : Z) :
  running (game st) = true ->
  let g := game st in
  let m := grow 0.15 30 (multiplier g) in
  let st1 := set_game st {| running := true; multiplier := m; id := id g;
                            crashPoint := crashPoint g; startTime := startTime g;
                            crashed := crashed g; history := history g |} in
  (js_ge m (crashPoint g) = true /\ _gameLoop st now = _crash st1) \/
  (js_ge m (crashPoint g) = false /\
   _gameLoop st now
   = (st1, [Emit (TICK m (float_of_Z (now - startTime g) / 1000)%float)], Undefined)).
Proof.
  intros Hrun. cbv zeta. unfold _gameLoop. rewrite Hrun. cbn [negb].
  change (grow growthRate _config.tickRate) with (grow 0.15 30).
  destruct (js_ge _ _); [left | right]; split; reflexivity.
Qed.

Lemma mock_startGame_invariant (st : State) (modeId : string) (now : Z) (r : float) :
  invariant st -> draw_ok r = true -> invariant (fst (fst (startGame st modeId now r))).
Proof.
  intros Hinv Hr. unfold startGame. destruct (running (game st)) eqn:Hrun; [exact Hinv |].
  destruct Hinv as (_ & Hb & Hh). unfold invariant; cbn.
  split; [| split; assumption]. intros _. split.
  - apply drawCrashPoint_bounds. now apply draw_ok_not_nan.
  - exists 0%nat. split; [unfold max_ticks; lia | reflexivity].
Qed.

Lemma _gameLoop_invariant (st : State) (now : Z) :
  invariant st -> invariant (fst (fst (_gameLoop st now))).
Proof.
  intros Hinv. destruct (running (game st)) eqn:Hrun.
  - destruct Hinv as (Hr & Hb & Hh). destruct (Hr Hrun) as (Hcap & k & Hk & Hm).
    destruct (_gameLoop_cases st now Hrun) as [[Hge ->] | [Hlt ->]].
    + match goal with |- invariant (fst (fst (_crash ?s))) =>
        destruct (_crash_round s) as (Hs & _ & _ & _ & _ & Hbets & Hhist) end.
      unfold invariant. rewrite Hs, Hbets. cbn [set_game bets game history] in *.
      split; [discriminate |]. split; [exact Hb |].
      destruct Hhist as [-> | (p & s & ->)]; [exact Hh | now apply _addToHistory_length].
    + unfold invariant; cbn. split; [| split; assumption]. intros _. split; [exact Hcap |].
      exists (S k). rewrite Hm in *. split; [| reflexivity].
      apply below_target_bound with (target := crashPoint (game st)); auto; lia.
  - now rewrite _gameLoop_idle.
Qed.

Lemma mock_step_invariant (st : State) (ev : Event) :
  invariant st -> event_ok ev = true -> invariant (fst (fst (step st ev))).
Proof.
  intros Hinv Hok. destruct ev as [| u r | | a | modeId now r | a | | now];
    cbn [step event_ok] in *.
  - exact Hinv.
  - unfold login. destruct u; exact Hinv.
  - exact Hinv.
  - unfold redeem. destruct (user st) as [u |]; [| exact Hinv].
    destruct (js_gt _ _); exact Hinv.
  - now apply mock_startGame_invariant.
  - unfold placeBet. destruct (user st) as [u |]; [| exact Hinv].
    destruct (js_gt _ _); [exact Hinv |].
    destruct (a <? 10)%float eqn:Hmin; [exact Hinv |].
    destruct Hinv as (Hr & Hb & Hh). unfold invariant; cbn.
    split; [exact Hr |]. split; [| exact Hh].
    intros k bet Hin. apply lookup_insert_Some in Hin as [[_ <-] | [_ Hin]];
      [exact Hmin | eauto].
  - unfold cashOut. destruct (negb _); [exact Hinv |].
    destruct (bets st !! id (game st)) as [bet |] eqn:Hl; [| exact Hinv].
    destruct (cashedOut bet); [exact Hinv |].
    destruct Hinv as (Hr & Hb & Hh).
    destruct (user st); unfold invariant; cbn;
      (split; [exact Hr |]; split; [| exact Hh]);
      intros k bet' Hin; apply lookup_insert_Some in Hin as [[_ <-] | [_ Hin]];
      first [exact (Hb _ bet Hl) | eauto].
  - now apply _gameLoop_invariant.
Qed.

Lemma mock_initial_invariant (saved : option User) : invariant (initial saved).
Proof.
  unfold invariant, initial; cbn. split; [discriminate |]. split; [| lia].
  intros k bet H. rewrite lookup_empty in H. discriminate.
Qed.

Lemma mock_reachable_invariant (saved : option User) (st : State) :
  reachable saved st -> invariant st.
Proof.
  induction 1 as [| st ev _ IH Hok]; [apply mock_initial_invariant | now apply mock_step_invariant].
Qed.

(** ** The multiplier of a round, tick by tick *)

Lemma mock_startGame_ticked (st : State) (modeId : string) (now : Z) (r : float) :
  running (game st) = false ->
  ticked (drawCrashPoint r) 0 (fst (fst (startGame st modeId now r))).
Proof.
  intros Hrun. unfold ticked, startGame. rewrite Hrun; cbn. split; [reflexivity |]. left.
  repeat split. unfold max_ticks; lia.
Qed.

Lemma _gameLoop_ticked (target : float) (n : nat) (st : State) (now : Z) :
  (target <=? 1000)%float = true ->
  ticked target n st -> ticked target (S n) (fst (fst (_gameLoop st now))).
Proof.
  intros Hcap [Hcp [(Hrun & Hn & Hm) | (Hrun & k & Hk & Hkm & Hm & Hge)]].
  - destruct (_gameLoop_cases st now Hrun) as [[Hge ->] | [Hlt ->]].
    + match goal with |- ticked _ _ (fst (fst (_crash ?s))) =>
        destruct (_crash_round s) as (Hs & _ & Hmul & Hc & _) end.
      unfold ticked. rewrite Hs, Hmul, Hc. cbn [set_game game multiplier crashPoint].
      rewrite Hcp, Hm in *. split; [reflexivity |]. right. split; [reflexivity |].
      exists (S n). repeat split; auto; lia.
    + unfold ticked; cbn. rewrite Hcp, Hm in *. split; [reflexivity |]. left.
      repeat split; auto.
      apply below_target_bound with (target := target); auto; lia.
  - rewrite _gameLoop_idle by exact Hrun. split; [exact Hcp |]. right.
    split; [exact Hrun |]. exists k. repeat split; auto; lia.
Qed.

Lemma mock_ticks_snoc (st : State) (nows : list Z) (now : Z) :
  ticks st (nows ++ [now]) = fst (fst (_gameLoop (ticks st nows) now)).
Proof. unfold ticks. now rewrite fold_left_app. Qed.

Lemma mock_ticks_ticked (target : float) (nows : list Z) (st : State) :
  (target <=? 1000)%float = true ->
  ticked target 0 st -> ticked target (length nows) (ticks st nows).
Proof.
  intros Hcap H0. induction nows as [| now nows IH] using rev_ind.
  - exact H0.
  - rewrite mock_ticks_snoc, length_app, Nat.add_1_r. now apply _gameLoop_ticked.
Qed.

Lemma _gameLoop_view (st st' : State) (now now' : Z) :
  round_view st = round_view st' ->
  round_view (fst (fst (_gameLoop st now))) = round_view (fst (fst (_gameLoop st' now'))).
Proof.
  intros H. destruct (running (game st)) eqn:Hrun.
  - assert (Hrun' : running (game st') = true)
      by (unfold round_view in H; congruence).
    unfold round_view in H. injection H as Hr Hm Hc Hd.
    destruct (_gameLoop_cases st now Hrun) as [[Hge ->] | [Hlt ->]];
      destruct (_gameLoop_cases st' now' Hrun') as [[Hge' ->] | [Hlt' ->]];
      try (rewrite Hm, Hc in *; congruence).
    + repeat match goal with |- context [_crash ?s] =>
        let H := fresh in
        pose proof (_crash_round s) as H; cbv zeta in H;
        destruct H as (? & ? & ? & ? & _);
        generalize dependent (fst (fst (_crash s))); intros end.
      unfold round_view. cbn [set_game game multiplier crashPoint] in *. congruence.
    + unfold round_view; cbn. congruence.
  - assert (Hrun' : running (game st') = false)
      by (unfold round_view in H; congruence).
    now rewrite !_gameLoop_idle.
Qed.

Lemma mock_ticks_view (nows nows' : list Z) : forall st st' : State,
  length nows = length nows' -> round_view st = round_view st' ->
  round_view (ticks st nows) = round_view (ticks st' nows').
Proof.
  revert nows'. induction nows as [| now nows IH]; intros [| now' nows'] st st' Hlen Hv;
    try discriminate; [exact Hv |].
  cbn [ticks fold_left]. apply IH; [now injection Hlen |]. now apply _gameLoop_view.
Qed.

(** ** Runs *)

Lemma mock_run_reachable (saved : option User) (evs : list Event) : forall st : State,
  reachable saved st -> forallb event_ok evs = true ->
  reachable saved (fst (run st evs)).
Proof.
  induction evs as [| ev evs IH]; intros st Hst Hok; cbn [run forallb] in *.
  - exact Hst.
  - apply andb_true_iff in Hok as [Hev Hok].
    pose proof (reachable_step saved st ev Hst Hev) as H1.
    destruct (step st ev) as [[st1 out1] ret1]. specialize (IH st1 H1 Hok).
    destruct (run st1 evs) as [st2 out2]. exact IH.
Qed.

(** Until a round is started, a stopped round stays as it is. *)
Lemma mock_step_stopped (st : State) (ev : Event) :
  starts_round ev = false -> running (game st) = false ->
  game (fst (fst (step st ev))) = game st.
Proof.
  intros Hns Hstop. destruct ev as [| u r | | a | modeId now r | a | | now];
    try discriminate; cbn [step].
  - reflexivity.
  - unfold login. now destruct u.
  - reflexivity.
  - unfold redeem. destruct (user st); [| reflexivity]. now destruct (js_gt _ _).
  - unfold placeBet. destruct (user st); [| reflexivity].
    destruct (js_gt _ _); [reflexivity |]. now destruct (a <? 10)%float.
  - unfold cashOut. now rewrite Hstop.
  - now rewrite _gameLoop_idle.
Qed.

Lemma mock_run_stopped_state (evs : list Event) : forall st : State,
  (forall ev, In ev evs -> starts_round ev = false) ->
  running (game st) = false ->
  game (fst (run st evs)) = game st.
Proof.
  induction evs as [| ev evs IH]; intros st Hns Hstop; cbn [run].
  - reflexivity.
  - pose proof (mock_step_stopped st ev (Hns ev (or_introl eq_refl)) Hstop) as H1.
    destruct (step st ev) as [[st1 out1] ret1]. cbn [fst] in H1.
    specialize (IH st1 (fun e He => Hns e (or_intror He))).
    destruct (run st1 evs) as [st2 out2]. cbn [fst] in *.
    rewrite IH; congruence.
Qed.

(** Only the start of a round changes the target. *)
Lemma mock_step_crashPoint (st : State) (ev : Event) :
  starts_round ev = false ->
  crashPoint (game (fst (fst (step st ev)))) = crashPoint (game st).
Proof.
  intros Hns. destruct ev as [| u r | | a | modeId now r | a | | now];
    try discriminate; cbn [step].
  - reflexivity.
  - unfold login. now destruct u.
  - reflexivity.
  - unfold redeem. destruct (user st); [| reflexivity]. now destruct (js_gt _ _).
  - unfold placeBet. destruct (user st); [| reflexivity].
    destruct (js_gt _ _); [reflexivity |]. now destruct (a <? 10)%float.
  - unfold cashOut. destruct (negb _); [reflexivity |].
    destruct (bets st !! id (game st)) as [bet |]; [| reflexivity].
    destruct (cashedOut bet); [reflexivity |]. now destruct (user st).
  - destruct (running (game st)) eqn:Hrun.
    + destruct (_gameLoop_cases st now Hrun) as [[_ ->] | [_ ->]]; [| reflexivity].
      match goal with |- context [_crash ?s] =>
        destruct (_crash_round s) as (_ & _ & _ & -> & _) end. reflexivity.
    + now rewrite _gameLoop_idle.
Qed.


Lemma _addToHistory_head (h : list HistoryEntry) (m p : float) (s : Status) :
  head (_addToHistory h m p s) = Some {| mult := m; h_profit := p; status := s |}.
Proof.
  unfold _addToHistory, js_unshift, js_pop. destruct h as [| e h]; [reflexivity |].
  destruct (50 <? _)%nat; reflexivity.
Qed.

(** ** Bets, cash-out and settlement *)

(** The only way [cashOut] returns [{ success: true }]. *)
Lemma cashOut_success (st st' : State) (out : list Effect) :
  cashOut st = (st', out, Success) ->
  exists bet u,
    bets st !! id (game st) = Some bet /\ cashedOut bet = false /\
    user st = Some u /\ running (game st) = true /\
    let m := multiplier (game st) in
    let w := js_floor (amount bet * m)%float in
    let p := (w - amount bet)%float in
    let u' := {| username := username u; balance := (balance u + w)%float;
                 referralCode := referralCode u;
                 totalProfit := (totalProfit u + p)%float |} in
    out = [Emit (CASHOUT_SUCCESS m w p); Emit (USER_UPDATE (Some u'))] /\
    st' = {| user := Some u'; game := game st;
             bets := <[id (game st) := {| amount := amount bet; cashedOut := true;
                                          profit := p |}]> (bets st);
             storage := Some u' |}.
Proof.
  unfold cashOut. intros Heq.
  destruct (running (game st)) eqn:Hrun; cbn [negb] in Heq; [| discriminate].
  destruct (bets st !! id (game st)) as [bet |] eqn:Hl; [| discriminate].
  destruct (cashedOut bet) eqn:Hco; [discriminate |].
  destruct (user st) as [u |] eqn:Hu; [| discriminate].
  injection Heq as <- <-. exists bet, u. repeat split; auto.
Qed.

Lemma cashOut_stopped (st : State) :
  running (game st) = false -> cashOut st = (st, [], Error "Game not running").
Proof. intros H. unfold cashOut. now rewrite H. Qed.



(** When [_crash] returns, it has broadcast the target. *)
Lemma _crash_returns (st st' : State) (out : list Effect) :
  _crash st = (st', out, Undefined) ->
  In (Emit (GAME_CRASHED (crashPoint (game st)))) out /\
  exists p s, history (game st')
              = _addToHistory (history (game st)) (crashPoint (game st)) p s.
Proof.
  unfold _crash. intros Heq.
  destruct (bets st !! id (game st)) as [bet |].
  - destruct (negb (cashedOut bet)).
    + destruct (user st); [| discriminate].
      injection Heq as <- <-. split; [cbn; tauto | cbn; eauto].
    + injection Heq as <- <-. split; [cbn; tauto | cbn; eauto].
  - injection Heq as <- <-. split; [cbn; tauto | cbn; eauto].
Qed.

(** A tick never lowers the multiplier of a round. *)
Lemma mock_ticked_tick_mono (target : float) (n : nat) (st : State) (now : Z) :
  ticked target n st ->
  (multiplier (game st) <=? multiplier (game (fst (fst (_gameLoop st now)))))%float = true.
Proof.
  intros [_ [(Hrun & Hn & Hm) | (Hrun & k & _ & Hk & Hm & _)]].
  - destruct (_gameLoop_cases st now Hrun) as [[_ ->] | [_ ->]].
    + match goal with |- context [_crash ?s] =>
        destruct (_crash_round s) as (_ & _ & -> & _) end.
      cbn. rewrite Hm. now apply mult_seq_mono.
    + cbn. rewrite Hm. now apply mult_seq_mono.
  - rewrite _gameLoop_idle by exact Hrun. cbn [fst]. rewrite Hm.
    apply leb_refl. now apply mult_seq_not_nan.
Qed.

End MockFacts.

(** * More binary64 arithmetic: values that are not below zero *)

Lemma binary_normalize_nonneg (n e : Z) (sz : bool) :
  0 <= n -> SFleb (S754_zero false) (binary_normalize prec emax n e sz) = true.
Proof.
  intros Hn. destruct n as [| p | p]; try lia; cbn [binary_normalize].
  - reflexivity.
  - destruct (binary_round_cases false p e) as (mz & ez' & -> & _ & _ & Hk).
    destruct (bra_cases false (Zpos mz) ez' loc_Exact ltac:(lia) Hk)
      as [[-> _] | [-> | (mr & er & -> & _)]]; reflexivity.
Qed.

(** The shapes of a value that is not below zero. *)
Lemma SFnonneg_cases (x : spec_float) :
  SFleb (S754_zero false) x = true ->
  (exists s, x = S754_zero s) \/ x = S754_infinity false \/
  exists m e, x = S754_finite false m e.
Proof.
  destruct x as [s | [|] | | [|] m e]; cbn; try discriminate; eauto.
Qed.

Lemma SFadd_nonneg (x y : spec_float) :
  SFleb (S754_zero false) x = true -> SFleb (S754_zero false) y = true ->
  SFleb (S754_zero false) (SF64add x y) = true.
Proof.
  intros Hx Hy.
  destruct (SFnonneg_cases x Hx) as [[sx ->] | [-> | (mx & ex & ->)]];
    destruct (SFnonneg_cases y Hy) as [[sy ->] | [-> | (my & ey & ->)]];
    try reflexivity.
  - destruct sx, sy; reflexivity.
  - cbn [SF64add SFadd cond_Zopp]. apply binary_normalize_nonneg. lia.
Qed.

Lemma SFfloor_nonneg (x : spec_float) :
  SFleb (S754_zero false) x = true -> SFleb (S754_zero false) (SFfloor x) = true.
Proof.
  intros Hx.
  destruct (SFnonneg_cases x Hx) as [[sx ->] | [-> | (mx & ex & ->)]]; try reflexivity.
  cbn [SFfloor cond_Zopp]. destruct (Z.leb_spec 0 ex) as [He | He]; [reflexivity |].
  assert (Hq : 0 <= Zpos mx / 2 ^ (- ex)).
  { apply Z.div_pos; [lia |]. apply pow2_gt0. lia. }
  destruct (Zpos mx / 2 ^ (- ex)) as [| q | q] eqn:Eq; try lia; [reflexivity |].
  now apply binary_normalize_nonneg.
Qed.

Lemma SFsub_le_nonneg (b a : spec_float) :
  valid_binary b = true -> valid_binary a = true ->
  SFleb (S754_zero false) b = true -> SFleb a b = true ->
  SFltb a (S754_infinity false) = true ->
  SFleb (S754_zero false) (SF64sub b a) = true.
Proof.
  intros Hvb Hva Hb Hle Hfin.
  destruct (SFnonneg_cases b Hb) as [[sb ->] | [-> | (mb & eb & ->)]];
    destruct a as [sa | [|] | | [|] ma ea]; try discriminate; try reflexivity.
  - destruct sb, sa; reflexivity.
  - cbn [SF64sub SFsub cond_Zopp]. apply binary_normalize_nonneg. lia.
  - cbn [valid_binary] in Hvb, Hva. apply SFsub_nonneg; try assumption.
    assert (H := SFcompare_rank (S754_finite false ma ea) (S754_finite false mb eb)
                   Hva Hvb eq_refl eq_refl).
    unfold SFleb in Hle. rewrite H in Hle. cbn [SFrank cond_Zopp] in Hle.
    destruct (Z.compare_spec (Zpos ma * 2 ^ (ea + 1074)) (Zpos mb * 2 ^ (eb + 1074)));
      try discriminate; lia.
Qed.

(** ** The same on primitive floats *)

Lemma add_nonneg (b w : float) :
  (0 <=? b)%float = true -> (0 <=? w)%float = true -> (0 <=? b + w)%float = true.
Proof.
  rewrite !FloatAxioms.leb_spec, FloatAxioms.add_spec.
  change (Prim2SF 0) with (S754_zero false). apply SFadd_nonneg.
Qed.

Lemma floor_nonneg (x : float) :
  (0 <=? x)%float = true -> (0 <=? js_floor x)%float = true.
Proof.
  rewrite !FloatAxioms.leb_spec, js_floor_spec.
  change (Prim2SF 0) with (S754_zero false). apply SFfloor_nonneg.
Qed.

Lemma sub_le_nonneg (b a : float) :
  (0 <=? b)%float = true -> (a <=? b)%float = true -> (a <? infinity)%float = true ->
  (0 <=? b - a)%float = true.
Proof.
  rewrite !FloatAxioms.leb_spec, FloatAxioms.ltb_spec, FloatAxioms.sub_spec.
  change (Prim2SF 0) with (S754_zero false).
  change (Prim2SF infinity) with (S754_infinity false).
  apply SFsub_le_nonneg; apply Prim2SF_valid.
Qed.

Lemma lt_le (x y : float) : (x <? y)%float = true -> (x <=? y)%float = true.
Proof. intros H. apply ltb_true in H as (Hx & Hy & Hr). apply leb_true. repeat split; auto; lia. Qed.

Lemma sub_nan (b : float) : is_nan (b - nan) = true.
Proof.
  rewrite is_nan_spec, FloatAxioms.sub_spec. change (Prim2SF nan) with S754_nan.
  now destruct (Prim2SF b) as [s | s | | s m e].
Qed.

Lemma ltb_nan_r (b : float) : (b <? nan)%float = false.
Proof. rewrite ltb_rank. change (is_nan nan) with true. now destruct (is_nan b). Qed.

(** * More facts about the numbers of a round *)

Lemma in_range_spec (x : float) :
  in_range x = true <-> (1 <=? x)%float = true /\ (x <=? 1000)%float = true.
Proof. unfold in_range. apply andb_true_iff. Qed.

(** * More facts about [server.js] *)

Module ServerInvariants.
Import Server.

Lemma tick_ledger (st : State) (now : Z) :
  activeBets (fst (tick st now)) = activeBets st.
Proof.
  destruct (running (gameState st)) eqn:Hrun.
  - destruct (ServerFacts.tick_cases st now Hrun) as [[_ ->] | [_ ->]]; reflexivity.
  - now rewrite ServerFacts.tick_idle.
Qed.

(** A stake that passed [!amount || amount < 10] is a number not below 10. *)
Lemma accepted_stake (a : float) :
  js_falsy a || (a <? 10)%float = false -> (10 <=? a)%float = true.
Proof.
  intros H. apply orb_false_iff in H as [Hf Hlt].
  unfold js_falsy in Hf. apply orb_false_iff in Hf as [_ Hnan].
  apply leb_true. split; [reflexivity |]. split; [exact Hnan |].
  now apply (ltb_false a 10 Hnan eq_refl).
Qed.

Lemma or_default_nonempty (s : option string) : js_or_default s "Player" <> "".
Proof. destruct s as [[| a r] |]; discriminate. Qed.

Lemma step_ledger_ok (st : State) (ev : Event) :
  ledger_ok st -> ledger_ok (fst (step st ev)).
Proof.
  intros Hl. destruct ev as [sid | now r | sid a u | sid | sid | now | now r]; cbn [step].
  - exact Hl.
  - unfold on_START_GAME. destruct (negb _); [| exact Hl].
    intros s b H. cbn in H. rewrite lookup_empty in H. discriminate.
  - unfold on_PLACE_BET.
    destruct (negb _ || _); [exact Hl |].
    destruct (activeBets st !! sid) eqn:Hs; [exact Hl |].
    destruct a as [a |]; [| exact Hl].
    destruct (js_falsy a || (a <? 10)%float) eqn:Hchk; [exact Hl |].
    intros s b H. cbn in H. apply lookup_insert_Some in H as [[_ <-] | [_ H]].
    + cbn. split; [now apply accepted_stake |]. split; [reflexivity |].
      apply or_default_nonempty.
    + exact (Hl s b H).
  - unfold on_CASH_OUT.
    destruct (negb _ || _); [exact Hl |].
    destruct (activeBets st !! sid) as [bet |] eqn:Hs; [| exact Hl].
    destruct (cashedOut bet) eqn:Hco; [exact Hl |].
    intros s b H. cbn in H. apply lookup_insert_Some in H as [[_ <-] | [_ H]].
    + destruct (Hl sid bet Hs) as (Ha & _ & Hu). cbn.
      split; [exact Ha |]. split; [discriminate | exact Hu].
    + exact (Hl s b H).
  - intros s b H. cbn in H. apply lookup_delete_Some in H as [_ H]. exact (Hl s b H).
  - intros s b H. rewrite tick_ledger in H. exact (Hl s b H).
  - intros s b H. cbn in H. rewrite lookup_empty in H. discriminate.
Qed.

Lemma step_phase_ok (st : State) (ev : Event) :
  phase_ok st -> phase_ok (fst (step st ev)).
Proof.
  intros Hp. destruct ev as [sid | now r | sid a u | sid | sid | now | now r]; cbn [step].
  - exact Hp.
  - unfold on_START_GAME. destruct (negb _); [reflexivity | exact Hp].
  - unfold on_PLACE_BET.
    destruct (negb (running (gameState st)) || _) eqn:Hg; [exact Hp |].
    destruct (activeBets st !! sid); [exact Hp |].
    destruct a as [a |]; [| exact Hp].
    destruct (js_falsy a || _); [exact Hp |].
    apply orb_false_iff in Hg as [Hrun _]. apply negb_false_iff in Hrun.
    unfold phase_ok in *. cbn. destruct (gameId (gameState st)); [exact Hp |].
    destruct Hp as (Hr & _). congruence.
  - unfold on_CASH_OUT.
    destruct (negb (running (gameState st)) || _) eqn:Hg; [exact Hp |].
    destruct (activeBets st !! sid) as [bet |]; [| exact Hp].
    destruct (cashedOut bet); [exact Hp |].
    apply orb_false_iff in Hg as [Hrun _]. apply negb_false_iff in Hrun.
    unfold phase_ok in *. cbn. destruct (gameId (gameState st)); [exact Hp |].
    destruct Hp as (Hr & _). congruence.
  - unfold phase_ok in *. cbn. destruct (gameId (gameState st)); [exact Hp |].
    destruct Hp as (Hr & Hc & He & Hh & Hm). rewrite He.
    repeat split; assumption.
  - destruct (running (gameState st)) eqn:Hrun.
    + unfold phase_ok in *.
      destruct (ServerFacts.tick_cases st now Hrun) as [[_ ->] | [_ ->]]; cbn;
        destruct (gameId (gameState st)); try reflexivity.
      * destruct Hp as (Hr & _). congruence.
      * rewrite Hrun in Hp. exact Hp.
      * destruct Hp as (Hr & _). congruence.
    + now rewrite ServerFacts.tick_idle.
  - reflexivity.
Qed.

Lemma initial_phase_ok : phase_ok initial.
Proof. unfold phase_ok, initial; cbn. repeat split. Qed.

Lemma initial_ledger_ok : ledger_ok initial.
Proof. intros s b H. cbn in H. rewrite lookup_empty in H. discriminate. Qed.

Lemma addToHistory_Forall (P : HistoryEntry -> Prop) (h : list HistoryEntry)
    (cp : float) (now : Z) :
  Forall P h -> P {| h_crashPoint := cp; timestamp := now |} ->
  Forall P (addToHistory h cp now).
Proof.
  intros Hh He. unfold addToHistory, js_unshift, js_pop.
  assert (Hall : Forall P ({| h_crashPoint := cp; timestamp := now |} :: h))
    by now constructor.
  destruct (50 <? _)%nat; [| exact Hall].
  rewrite removelast_firstn_len. now apply Forall_take.
Qed.

(** Below the target means at most the target, for numbers. *)
Lemma not_ge_le (m cp : float) :
  is_nan m = false -> is_nan cp = false ->
  js_ge m cp = false -> (m <=? cp)%float = true.
Proof.
  intros Hm Hc H. unfold js_ge in H. rewrite leb_rank, Hm, Hc in H. cbn in H.
  apply Z.leb_gt in H. apply leb_true. repeat split; try assumption. lia.
Qed.

Lemma startGame_round_bounds (st : State) (now : Z) (r : float) :
  round_bounds st -> draw_ok r = true -> round_bounds (fst (startGame st now r)).
Proof.
  intros (_ & Hh) Hr. unfold round_bounds, startGame; cbn. split; [| exact Hh].
  intros _.
  destruct (drawCrashPoint_bounds r (draw_ok_not_nan r Hr)) as (H1 & H2).
  split; [apply in_range_spec; now split |]. split; [reflexivity | exact H1].
Qed.

Lemma tick_round_bounds (st : State) (now : Z) :
  invariant st -> round_bounds st -> round_bounds (fst (tick st now)).
Proof.
  intros Hinv Hb. destruct (running (gameState st)) eqn:Hrun.
  - destruct Hinv as (Hr & _ & _). destruct (Hr Hrun) as (_ & _ & k & Hk & Hm).
    destruct Hb as (Hb & Hh). destruct (Hb Hrun) as (Hcp & _ & _).
    destruct (ServerFacts.tick_cases st now Hrun) as [[Hge ->] | [Hlt ->]];
      unfold round_bounds; cbn [fst gameState running multiplier crashPoint history].
    + split; [discriminate |]. now apply addToHistory_Forall.
    + split; [| exact Hh]. intros _. split; [exact Hcp |].
      rewrite Hm in *. change (grow 0.15 30 (mult_seq k)) with (mult_seq (S k)) in *.
      split; [apply mult_seq_ge_one; lia |].
      apply not_ge_le; [apply mult_seq_not_nan; lia | | exact Hlt].
      apply in_range_spec in Hcp as [Hcp _]. now apply leb_true in Hcp.
  - now rewrite ServerFacts.tick_idle.
Qed.

Lemma step_round_bounds (st : State) (ev : Event) :
  invariant st -> round_bounds st -> event_ok ev = true ->
  round_bounds (fst (step st ev)).
Proof.
  intros Hinv Hb Hok.
  destruct ev as [sid | now r | sid a u | sid | sid | now | now r];
    cbn [step event_ok] in *.
  - exact Hb.
  - unfold on_START_GAME. destruct (negb _); [now apply startGame_round_bounds | exact Hb].
  - unfold on_PLACE_BET.
    destruct (negb _ || _); [exact Hb |].
    destruct (activeBets st !! sid); [exact Hb |].
    destruct a as [a |]; [| exact Hb].
    destruct (js_falsy a || _); exact Hb.
  - unfold on_CASH_OUT.
    destruct (negb _ || _); [exact Hb |].
    destruct (activeBets st !! sid) as [bet |]; [| exact Hb].
    destruct (cashedOut bet); exact Hb.
  - exact Hb.
  - now apply tick_round_bounds.
  - now apply startGame_round_bounds.
Qed.

Lemma reachable_round_bounds (st : State) : reachable st -> round_bounds st.
Proof.
  induction 1 as [| st ev Hre IH Hok].
  - unfold round_bounds, initial; cbn. split; [discriminate | constructor].
  - apply step_round_bounds; auto. now apply ServerFacts.reachable_invariant.
Qed.

(** ** One payment per bet *)





(** ** What a client message can touch *)

Lemma step_client_running (st : State) (ev : Event) :
  running (gameState st) = true -> client_message ev = true ->
  gameState (fst (step st ev)) = gameState st /\
  Forall (fun e => exists s m, e = SocketEmit s m) (snd (step st ev)).
Proof.
  intros Hrun Hc.
  destruct ev as [s | now r | s a u | s | s | now | now r]; try discriminate; cbn [step].
  - split; [reflexivity |]. repeat constructor. eauto.
  - unfold on_START_GAME. rewrite Hrun. cbn. split; [reflexivity | constructor].
  - unfold on_PLACE_BET. destruct (negb _ || _); [split; [reflexivity |]; repeat constructor; eauto |].
    destruct (activeBets st !! s); [split; [reflexivity |]; repeat constructor; eauto |].
    destruct a as [a |]; [| split; [reflexivity |]; repeat constructor; eauto].
    destruct (js_falsy a || _); split; try reflexivity; repeat constructor; eauto.
  - unfold on_CASH_OUT. destruct (negb _ || _); [split; [reflexivity |]; repeat constructor; eauto |].
    destruct (activeBets st !! s) as [b |]; [| split; [reflexivity |]; repeat constructor; eauto].
    destruct (cashedOut b); split; try reflexivity; repeat constructor; eauto.
  - split; [reflexivity | constructor].
Qed.

(** The only event that broadcasts a crash is a tick of a running round; the
    broadcast carries the target and one result per ledger entry. *)
Lemma step_crash_results (st : State) (ev : Event) (c : float) (results : list Result) :
  In (IoEmit (GAME_CRASHED c results)) (snd (step st ev)) ->
  running (gameState st) = true /\ c = crashPoint (gameState st) /\
  results = (fun kv => settle (fst kv) (snd kv)) <$> map_to_list (activeBets st).
Proof.
  destruct ev as [s | now r | s a u | s | s | now | now r]; cbn [step].
  - intros [H | []]; discriminate.
  - unfold on_START_GAME. destruct (negb _); [| intros []].
    intros [H | [H | []]]; discriminate.
  - unfold on_PLACE_BET. destruct (negb _ || _); [intros [H | []]; discriminate |].
    destruct (activeBets st !! s); [intros [H | []]; discriminate |].
    destruct a as [a |]; [| intros [H | []]; discriminate].
    destruct (js_falsy a || _); intros [H | []]; discriminate.
  - unfold on_CASH_OUT. destruct (negb _ || _); [intros [H | []]; discriminate |].
    destruct (activeBets st !! s) as [b |]; [| intros [H | []]; discriminate].
    destruct (cashedOut b); intros [H | []]; discriminate.
  - intros [].
  - destruct (running (gameState st)) eqn:Hrun.
    + destruct (ServerFacts.tick_cases st now Hrun) as [[_ ->] | [_ ->]]; cbn [snd].
      * intros [H | [H | [H | []]]]; try discriminate. now inversion H.
      * intros [H | []]; discriminate.
    + rewrite ServerFacts.tick_idle by exact Hrun. intros [].
  - intros [H | [H | []]]; discriminate.
Qed.

(** The only event that sends [CASHOUT_SUCCESS] is a [CASH_OUT] of the same
    socket, in a running round, on an open bet. *)
Lemma step_cashout_msg (st : State) (ev : Event) (sid : string) (m w p : float) :
  In (SocketEmit sid (CASHOUT_SUCCESS m w p)) (snd (step st ev)) ->
  ev = CASH_OUT sid /\
  exists bet,
    activeBets st !! sid = Some bet /\ cashedOut bet = false /\
    running (gameState st) = true /\
    m = multiplier (gameState st) /\
    w = js_floor (amount bet * m)%float /\
    p = (w - amount bet)%float /\
    fst (step st ev)
    = {| gameState := gameState st;
         activeBets := <[sid := {| amount := amount bet; cashedOut := true;
                                   profit := p; username := username bet |}]>
                         (activeBets st) |}.
Proof.
  destruct ev as [s | now r | s a u | s | s | now | now r]; cbn [step].
  - intros [H | []]; discriminate.
  - unfold on_START_GAME. destruct (negb _); [| intros []].
    intros [H | [H | []]]; discriminate.
  - unfold on_PLACE_BET. destruct (negb _ || _); [intros [H | []]; discriminate |].
    destruct (activeBets st !! s); [intros [H | []]; discriminate |].
    destruct a as [a |]; [| intros [H | []]; discriminate].
    destruct (js_falsy a || _); intros [H | []]; discriminate.
  - unfold on_CASH_OUT.
    destruct (negb (running (gameState st)) || _) eqn:Hg; [intros [H | []]; discriminate |].
    destruct (activeBets st !! s) as [b |] eqn:Hs; [| intros [H | []]; discriminate].
    destruct (cashedOut b) eqn:Hb; intros [H | []]; try discriminate.
    inversion H; subst. split; [reflexivity |].
    apply orb_false_iff in Hg as [Hrun _]. apply negb_false_iff in Hrun.
    exists b. repeat split; assumption.
  - intros [].
  - destruct (running (gameState st)) eqn:Hrun.
    + destruct (ServerFacts.tick_cases st now Hrun) as [[_ ->] | [_ ->]]; cbn [snd].
      * intros [H | [H | [H | []]]]; discriminate.
      * intros [H | []]; discriminate.
    + rewrite ServerFacts.tick_idle by exact Hrun. intros [].
  - intros [H | [H | []]]; discriminate.
Qed.

(** The only event that broadcasts a [TICK] is a tick of a running round that
    stays below the target. *)
Lemma step_tick_msg (st : State) (ev : Event) (m elapsed : float) :
  In (IoEmit (TICK m elapsed)) (snd (step st ev)) ->
  running (gameState st) = true /\
  m = grow 0.15 30 (multiplier (gameState st)) /\
  js_ge m (crashPoint (gameState st)) = false.
Proof.
  destruct ev as [s | now r | s a u | s | s | now | now r]; cbn [step].
  - intros [H | []]; discriminate.
  - unfold on_START_GAME. destruct (negb _); [| intros []].
    intros [H | [H | []]]; discriminate.
  - unfold on_PLACE_BET. destruct (negb _ || _); [intros [H | []]; discriminate |].
    destruct (activeBets st !! s); [intros [H | []]; discriminate |].
    destruct a as [a |]; [| intros [H | []]; discriminate].
    destruct (js_falsy a || _); intros [H | []]; discriminate.
  - unfold on_CASH_OUT. destruct (negb _ || _); [intros [H | []]; discriminate |].
    destruct (activeBets st !! s) as [b |]; [| intros [H | []]; discriminate].
    destruct (cashedOut b); intros [H | []]; discriminate.
  - intros [].
  - destruct (running (gameState st)) eqn:Hrun.
    + destruct (ServerFacts.tick_cases st now Hrun) as [[_ ->] | [Hlt ->]]; cbn [snd].
      * intros [H | [H | [H | []]]]; discriminate.
      * intros [H | []]. inversion H; subst. now repeat split.
    + rewrite ServerFacts.tick_idle by exact Hrun. intros [].
  - intros [H | [H | []]]; discriminate.
Qed.

End ServerInvariants.

(** * More facts about the mock [GameServer] *)

Module MockInvariants.
Import Mock.

(** What [_crash] does to the user and what it emits, whichever branch it
    takes. *)
Lemma _crash_user (st : State) :
  let st' := fst (fst (_crash st)) in
  balance <$> user st' = balance <$> user st /\
  (storage st = user st -> storage st' = user st') /\
  (snd (_crash st) = TypeError -> user st = None) /\
  (forall e, In e (snd (fst (_crash st))) ->
     e = ClearInterval \/ e = Emit (GAME_CRASHED (crashPoint (game st))) \/
     (exists a, e = Emit (BET_LOST a)) \/ (exists h, e = Emit (HISTORY_UPDATE h)) \/
     (exists u, e = Emit (USER_UPDATE u))) /\
  fold_left timer_step (snd (fst (_crash st))) = fun s => timer_step s ClearInterval.
Proof.
  cbv zeta. unfold _crash.
  destruct (bets st !! id (game st)) as [bet |];
    [destruct (negb (cashedOut bet)); [destruct (user st) eqn:Hu |] |];
    cbn [fst snd user storage fmap option_fmap option_map balance app];
    (split; [reflexivity |]); (split; [auto |]);
    (split; [try discriminate; auto |]); (split; [| reflexivity]);
    intros e He; cbn in He; intuition eauto.
Qed.

Lemma step_throws (st : State) (ev : Event) :
  snd (step st ev) = TypeError -> user st = None.
Proof.
  destruct ev as [| u r | | a | modeId now r | a | | now]; cbn [step].
  - discriminate.
  - unfold login. destruct u; discriminate.
  - discriminate.
  - unfold redeem. destruct (user st) as [u |]; [| reflexivity].
    destruct (js_gt _ _); discriminate.
  - unfold startGame. destruct (running _); discriminate.
  - unfold placeBet. destruct (user st) as [u |]; [| reflexivity].
    destruct (js_gt _ _); [discriminate |]. destruct (a <? 10)%float; discriminate.
  - unfold cashOut. destruct (negb _); [discriminate |].
    destruct (bets st !! id (game st)) as [bet |]; [| discriminate].
    destruct (cashedOut bet); [discriminate |].
    destruct (user st); [discriminate | reflexivity].
  - unfold _gameLoop. destruct (negb _); [discriminate |].
    destruct (js_ge _ _); [| discriminate].
    intros H. now apply _crash_user in H.
Qed.

Lemma step_keeps_user (st : State) (ev : Event) :
  user st <> None -> ev <> Logout -> user (fst (fst (step st ev))) <> None.
Proof.
  intros Hu Hev.
  destruct ev as [| u r | | a | modeId now r | a | | now]; cbn [step]; try congruence.
  - exact Hu.
  - unfold login. destruct u; [exact Hu | discriminate].
  - unfold redeem. destruct (user st) as [u |] eqn:Eu; [| congruence].
    destruct (js_gt _ _); cbn; congruence.
  - unfold startGame. destruct (running _); exact Hu.
  - unfold placeBet. destruct (user st) as [u |] eqn:Eu; [| congruence].
    destruct (js_gt _ _); [cbn; congruence |]. destruct (a <? 10)%float; cbn; congruence.
  - unfold cashOut. destruct (negb _); [exact Hu |].
    destruct (bets st !! id (game st)) as [bet |]; [| exact Hu].
    destruct (cashedOut bet); [exact Hu |].
    destruct (user st); [discriminate | congruence].
  - unfold _gameLoop. destruct (negb _); [exact Hu |].
    destruct (js_ge _ _); [| exact Hu].
    match goal with |- user (fst (fst (_crash ?s))) <> None =>
      destruct (_crash_user s) as (Hb & _) end.
    cbn [set_game user] in Hb. destruct (user st); [| congruence].
    intros E. rewrite E in Hb. discriminate.
Qed.

Lemma step_storage (st : State) (ev : Event) :
  storage st = user st -> storage (fst (fst (step st ev))) = user (fst (fst (step st ev))).
Proof.
  intros Hs.
  destruct ev as [| u r | | a | modeId now r | a | | now]; cbn [step].
  - exact Hs.
  - unfold login. destruct u; [exact Hs | reflexivity].
  - reflexivity.
  - unfold redeem. destruct (user st) as [u |] eqn:Eu; [| cbn; congruence].
    destruct (js_gt _ _); [cbn; congruence | reflexivity].
  - unfold startGame. destruct (running _); exact Hs.
  - unfold placeBet. destruct (user st) as [u |] eqn:Eu; [| cbn; congruence].
    destruct (js_gt _ _); [cbn; congruence |].
    destruct (a <? 10)%float; [cbn; congruence | reflexivity].
  - unfold cashOut. destruct (negb _); [exact Hs |].
    destruct (bets st !! id (game st)) as [bet |]; [| exact Hs].
    destruct (cashedOut bet); [exact Hs |].
    destruct (user st) eqn:Eu; [reflexivity | cbn; congruence].
  - unfold _gameLoop. destruct (negb _); [exact Hs |].
    destruct (js_ge _ _); [| exact Hs].
    match goal with |- storage (fst (fst (_crash ?s))) = _ =>
      destruct (_crash_user s) as (_ & H & _) end.
    now apply H.
Qed.

(** ** The numbers of a round *)

Lemma _addToHistory_Forall (P : HistoryEntry -> Prop) (h : list HistoryEntry)
    (m p : float) (s : Status) :
  Forall P h -> P {| mult := m; h_profit := p; status := s |} ->
  Forall P (_addToHistory h m p s).
Proof.
  intros Hh He. unfold _addToHistory, js_unshift, js_pop.
  assert (Hall : Forall P ({| mult := m; h_profit := p; status := s |} :: h))
    by now constructor.
  destruct (50 <? _)%nat; [| exact Hall].
  rewrite removelast_firstn_len. now apply Forall_take.
Qed.

Lemma mock_startGame_round_bounds (st : State) (modeId : string) (now : Z) (r : float) :
  round_bounds st -> draw_ok r = true ->
  round_bounds (fst (fst (startGame st modeId now r))).
Proof.
  intros Hb Hr. unfold startGame. destruct (running (game st)) eqn:Hrun; [exact Hb |].
  destruct Hb as (_ & Hh). unfold round_bounds; cbn. split; [| exact Hh].
  intros _.
  destruct (drawCrashPoint_bounds r (draw_ok_not_nan r Hr)) as (H1 & H2).
  split; [apply in_range_spec; now split |]. split; [reflexivity | exact H1].
Qed.

Lemma _gameLoop_round_bounds (st : State) (now : Z) :
  invariant st -> round_bounds st -> round_bounds (fst (fst (_gameLoop st now))).
Proof.
  intros Hinv Hb. destruct (running (game st)) eqn:Hrun.
  - destruct Hinv as (Hr & _ & _). destruct (Hr Hrun) as (_ & k & Hk & Hm).
    destruct Hb as (Hb & Hh). destruct (Hb Hrun) as (Hcp & _ & _).
    destruct (MockFacts._gameLoop_cases st now Hrun) as [[Hge ->] | [Hlt ->]].
    + match goal with |- round_bounds (fst (fst (_crash ?s))) =>
        destruct (MockFacts._crash_round s) as (Hs & _ & _ & _ & _ & _ & Hhist) end.
      unfold round_bounds. rewrite Hs. cbn [set_game game history crashPoint] in *.
      split; [discriminate |].
      destruct Hhist as [-> | (p & s & ->)]; [exact Hh | now apply _addToHistory_Forall].
    + unfold round_bounds; cbn [fst set_game game running multiplier crashPoint history].
      split; [| exact Hh]. intros _. split; [exact Hcp |].
      rewrite Hm in *. change (grow 0.15 30 (mult_seq k)) with (mult_seq (S k)) in *.
      split; [apply mult_seq_ge_one; lia |].
      apply ServerInvariants.not_ge_le; [apply mult_seq_not_nan; lia | | exact Hlt].
      apply in_range_spec in Hcp as [Hcp _]. now apply leb_true in Hcp.
  - now rewrite MockFacts._gameLoop_idle.
Qed.

Lemma mock_step_round_bounds (st : State) (ev : Event) :
  invariant st -> round_bounds st -> event_ok ev = true ->
  round_bounds (fst (fst (step st ev))).
Proof.
  intros Hinv Hb Hok.
  destruct ev as [| u r | | a | modeId now r | a | | now]; cbn [step event_ok] in *.
  - exact Hb.
  - unfold login. destruct u; exact Hb.
  - exact Hb.
  - unfold redeem. destruct (user st) as [u |]; [| exact Hb].
    destruct (js_gt _ _); exact Hb.
  - now apply mock_startGame_round_bounds.
  - unfold placeBet. destruct (user st) as [u |]; [| exact Hb].
    destruct (js_gt _ _); [exact Hb |]. destruct (a <? 10)%float; exact Hb.
  - unfold cashOut. destruct (negb _); [exact Hb |].
    destruct (bets st !! id (game st)) as [bet |]; [| exact Hb].
    destruct (cashedOut bet); [exact Hb |].
    destruct (user st); exact Hb.
  - now apply _gameLoop_round_bounds.
Qed.

Lemma mock_reachable_round_bounds (saved : option User) (st : State) :
  reachable saved st -> round_bounds st.
Proof.
  induction 1 as [| st ev Hre IH Hok].
  - unfold round_bounds, initial; cbn. split; [discriminate | constructor].
  - apply mock_step_round_bounds; auto. now apply (MockFacts.mock_reachable_invariant saved).
Qed.

(** Where the messages that carry a multiplier come from. *)
Lemma mock_step_msgs (st : State) (ev : Event) (e : Effect) :
  In e (snd (fst (step st ev))) ->
  match e with
  | Emit (TICK m _) =>
      running (game st) = true /\ m = grow 0.15 30 (multiplier (game st)) /\
      js_ge m (crashPoint (game st)) = false
  | Emit (CASHOUT_SUCCESS m _ _) =>
      running (game st) = true /\ m = multiplier (game st)
  | Emit (GAME_CRASHED c) =>
      running (game st) = true /\ c = crashPoint (game st)
  | _ => True
  end.
Proof.
  destruct ev as [| u r | | a | modeId now r | a | | now]; cbn [step].
  - intros [<- | []]. exact I.
  - unfold login. destruct u; [intros [] | intros [<- | []]; exact I].
  - intros [<- | []]. exact I.
  - unfold redeem. destruct (user st) as [u |]; [| intros []].
    destruct (js_gt _ _); [intros [] | intros [<- | []]; exact I].
  - unfold startGame. destruct (running _); [intros [] |].
    intros [<- | [<- | []]]; exact I.
  - unfold placeBet. destruct (user st) as [u |]; [| intros []].
    destruct (js_gt _ _); [intros [] |]. destruct (a <? 10)%float; [intros [] |].
    intros [<- | [<- | []]]; exact I.
  - unfold cashOut. destruct (negb (running (game st))) eqn:Hrun; [intros [] |].
    apply negb_false_iff in Hrun.
    destruct (bets st !! id (game st)) as [bet |]; [| intros []].
    destruct (cashedOut bet); [intros [] |].
    destruct (user st); [| intros []].
    intros [<- | [<- | []]]; [now split | exact I].
  - destruct (running (game st)) eqn:Hrun.
    + destruct (MockFacts._gameLoop_cases st now Hrun) as [[_ ->] | [Hlt ->]].
      * intros He.
        match type of He with In _ (snd (fst (_crash ?s))) =>
          destruct (_crash_user s) as (_ & _ & _ & Hout & _) end.
        destruct (Hout e He) as [-> | [-> | [(a & ->) | [(h & ->) | (u & ->)]]]];
          try exact I. now split.
      * intros [<- | []]. now repeat split.
    + rewrite MockFacts._gameLoop_idle by exact Hrun. intros [].
Qed.

(** ** Balances *)

Lemma not_gt_le (a b : float) :
  is_nan a = false -> is_nan b = false -> js_gt a b = false -> (a <=? b)%float = true.
Proof.
  intros Ha Hb H. unfold js_gt in H. apply (ltb_false b a Hb Ha) in H.
  apply leb_true. auto.
Qed.

Lemma not_lt_ge (a c : float) :
  is_nan a = false -> is_nan c = false -> (a <? c)%float = false -> (c <=? a)%float = true.
Proof. intros Ha Hc H. apply (ltb_false a c Ha Hc) in H. apply leb_true. auto. Qed.

(** The payout of an accepted stake at a multiplier of at least [1.00] is not
    below zero. *)
Lemma payout_nonneg (S m : float) :
  (10 <=? S)%float = true -> (1 <=? m)%float = true ->
  (0 <=? js_floor (S * m))%float = true.
Proof.
  intros HS Hm. apply floor_nonneg.
  assert (H0 : (0 <? S)%float = true) by (apply ltb_leb_trans with (y := 10%float); auto).
  apply leb_trans with (y := S); [now apply lt_le | now apply mul_ge_left].
Qed.

Lemma mock_step_balance_ok (st : State) (ev : Event) :
  invariant st -> balance_ok st -> amounts_ok ev = true ->
  balance_ok (fst (fst (step st ev))).
Proof.
  intros Hinv Hst Hok. pose proof Hst as (Hu & Hb).
  destruct ev as [| un r | | a | modeId now r | a | | now]; cbn [step amounts_ok] in *.
  - exact Hst.
  - unfold login. destruct un; [exact Hst |]. split; [| exact Hb].
    intros u [= <-]. reflexivity.
  - split; [discriminate | exact Hb].
  - unfold redeem. destruct (user st) as [u |] eqn:Eu; [| exact Hst].
    destruct (js_gt a (balance u)) eqn:Hgt; [exact Hst |].
    split; [| exact Hb]. intros u' [= <-]. cbn.
    pose proof (Hu u eq_refl) as H0.
    apply sub_le_nonneg; [exact H0 | | exact Hok].
    apply not_gt_le; [| | exact Hgt].
    + now apply ltb_true in Hok.
    + now apply leb_true in H0.
  - unfold startGame. destruct (running _); exact Hst.
  - unfold placeBet. destruct (user st) as [u |] eqn:Eu; [| exact Hst].
    destruct (js_gt a (balance u)) eqn:Hgt; [exact Hst |].
    destruct (a <? 10)%float eqn:Hmin; [exact Hst |].
    pose proof (Hu u eq_refl) as H0.
    assert (Han : is_nan a = false) by now apply ltb_true in Hok.
    split.
    + intros u' [= <-]. cbn.
      apply sub_le_nonneg; [exact H0 | | exact Hok].
      apply not_gt_le; [exact Han | now apply leb_true in H0 | exact Hgt].
    + intros k bet H. cbn in H. apply lookup_insert_Some in H as [[_ <-] | [_ H]].
      * cbn. split; [now apply not_lt_ge | exact Hok].
      * exact (Hb k bet H).
  - unfold cashOut. destruct (negb (running (game st))) eqn:Hrun; [exact Hst |].
    apply negb_false_iff in Hrun.
    destruct (bets st !! id (game st)) as [bet |] eqn:Hl; [| exact Hst].
    destruct (cashedOut bet); [exact Hst |].
    destruct (Hb _ bet Hl) as (Hmin & Hfin).
    assert (Hbets : forall k b,
               <[id (game st) := {| amount := amount bet; cashedOut := true;
                                    profit := (js_floor (amount bet * multiplier (game st))
                                               - amount bet)%float |}]> (bets st) !! k
               = Some b ->
               (10 <=? amount b)%float = true /\ (amount b <? infinity)%float = true).
    { intros k b H. apply lookup_insert_Some in H as [[_ <-] | [_ H]];
        [now split | exact (Hb k b H)]. }
    destruct (user st) as [u |] eqn:Eu; (split; [| exact Hbets]); [| discriminate].
    intros u' [= <-]. cbn.
    destruct Hinv as (Hr & _). destruct (Hr Hrun) as (_ & k & Hk & Hm).
    apply add_nonneg; [exact (Hu u eq_refl) |].
    apply payout_nonneg; [exact Hmin |]. rewrite Hm. apply mult_seq_ge_one. lia.
  - unfold _gameLoop. destruct (negb _); [exact Hst |].
    destruct (js_ge _ _); [| exact Hst].
    match goal with |- balance_ok (fst (fst (_crash ?s))) =>
      destruct (_crash_user s) as (Hbal & _);
      destruct (MockFacts._crash_round s) as (_ & _ & _ & _ & _ & Hbets & _) end.
    cbn [set_game user bets] in Hbal, Hbets. split.
    + intros u' Hu'. rewrite Hu' in Hbal. destruct (user st) as [u |]; [| discriminate].
      injection Hbal as ->. exact (Hu u eq_refl).
    + rewrite Hbets. exact Hb.
Qed.

(** ** Timers *)

Lemma mock_step_timers (st : State) (ev : Event) :
  fold_left timer_step (snd (fst (step st ev)))
    (if running (game st) then (1%nat, true) else (0%nat, false))
  = if running (game (fst (fst (step st ev)))) then (1%nat, true) else (0%nat, false).
Proof.
  destruct ev as [| u r | | a | modeId now r | a | | now]; cbn [step].
  - reflexivity.
  - unfold login. destruct u; reflexivity.
  - reflexivity.
  - unfold redeem. destruct (user st) as [u |]; [| reflexivity].
    destruct (js_gt _ _); reflexivity.
  - unfold startGame. destruct (running (game st)) eqn:Hrun; cbn; [now rewrite Hrun | reflexivity].
  - unfold placeBet. destruct (user st) as [u |]; [| reflexivity].
    destruct (js_gt _ _); [reflexivity |]. destruct (a <? 10)%float; reflexivity.
  - unfold cashOut. destruct (negb _); [reflexivity |].
    destruct (bets st !! id (game st)) as [bet |]; [| reflexivity].
    destruct (cashedOut bet); [reflexivity |].
    destruct (user st); reflexivity.
  - destruct (running (game st)) eqn:Hrun.
    + destruct (MockFacts._gameLoop_cases st now Hrun) as [[_ ->] | [_ ->]].
      * match goal with |- context [_crash ?s] =>
          destruct (_crash_user s) as (_ & _ & _ & _ & Hfold);
          destruct (MockFacts._crash_round s) as (Hs & _) end.
        rewrite Hfold, Hs. reflexivity.
      * reflexivity.
    + rewrite MockFacts._gameLoop_idle by exact Hrun. cbn. now rewrite Hrun.
Qed.

(** ** A running round *)

(** A call on a running round either crashes it, clearing the interval, or
    leaves its id, target, start time and history as they are. *)
Lemma mock_step_running (st : State) (ev : Event) :
  running (game st) = true ->
  let st' := fst (fst (step st ev)) in
  In ClearInterval (snd (fst (step st ev))) \/
  (running (game st') = true /\ id (game st') = id (game st) /\
   crashPoint (game st') = crashPoint (game st) /\
   startTime (game st') = startTime (game st) /\
   history (game st') = history (game st)).
Proof.
  intros Hrun. cbv zeta.
  destruct ev as [| u r | | a | modeId now r | a | | now]; cbn [step].
  - right. auto.
  - right. unfold login. destruct u; cbn; auto.
  - right. cbn. auto.
  - right. unfold redeem. destruct (user st) as [u |]; [| auto].
    destruct (js_gt _ _); cbn; auto.
  - right. unfold startGame. rewrite Hrun. auto.
  - right. unfold placeBet. destruct (user st) as [u |]; [| auto].
    destruct (js_gt _ _); [auto |]. destruct (a <? 10)%float; cbn; auto.
  - right. unfold cashOut. destruct (negb _); [auto |].
    destruct (bets st !! id (game st)) as [bet |]; [| auto].
    destruct (cashedOut bet); [auto |].
    destruct (user st); cbn; auto.
  - destruct (MockFacts._gameLoop_cases st now Hrun) as [[_ ->] | [_ ->]].
    + left. unfold _crash.
      destruct (bets _ !! _) as [bet |];
        [destruct (negb (cashedOut bet)); [destruct (user _) |] |]; cbn; auto.
    + right. cbn. auto.
Qed.

End MockInvariants.

(** ** Payments of the mock *)

Module MockPayments.
Import Mock.





End MockPayments.

(** * The two engines side by side *)

(** A tick does the same to the round in [server.js] and in the mock. *)
Lemma tick_view_agree (s : Server.State) (m : Mock.State) (now now' : Z) :
  Server.round_view s = Mock.round_view m ->
  Server.round_view (fst (Server.tick s now))
  = Mock.round_view (fst (fst (Mock._gameLoop m now'))).
Proof.
  intros Hv. pose proof Hv as Hv'. unfold Server.round_view, Mock.round_view in Hv'.
  cbv zeta in Hv'. injection Hv' as Hrun Hm Hcp Hcr.
  destruct (Server.running (Server.gameState s)) eqn:Hs.
  - symmetry in Hrun.
    destruct (ServerFacts.tick_cases s now Hs) as [[Hge Hts] | [Hlt Hts]];
      destruct (MockFacts._gameLoop_cases m now' Hrun) as [[Hge' Htm] | [Hlt' Htm]];
      cbv zeta in *; rewrite Hts, Htm; clear Hts Htm.
    + match goal with |- _ = Mock.round_view (fst (fst (Mock._crash ?x))) =>
        destruct (MockFacts._crash_round x) as (H1 & H2 & H3 & H4 & _) end.
      unfold Server.round_view, Mock.round_view. cbv zeta.
      rewrite H1, H2, H3, H4. cbn. now rewrite Hm, Hcp.
    + rewrite Hm, Hcp in Hge. congruence.
    + rewrite Hm, Hcp in Hlt. congruence.
    + unfold Server.round_view, Mock.round_view. cbn. now rewrite Hm, Hcp, Hcr.
  - symmetry in Hrun.
    rewrite ServerFacts.tick_idle, MockFacts._gameLoop_idle by assumption. exact Hv.
Qed.

Lemma ticks_view_agree (nows nows' : list Z) :
  forall (s : Server.State) (m : Mock.State),
    length nows = length nows' ->
    Server.round_view s = Mock.round_view m ->
    Server.round_view (Server.ticks s nows) = Mock.round_view (Mock.ticks m nows').
Proof.
  revert nows'. induction nows as [| now nows IH]; intros [| now' nows'] s m Hlen Hv;
    try discriminate; [exact Hv |].
  cbn [Server.ticks Mock.ticks fold_left]. apply IH; [now injection Hlen |].
  now apply tick_view_agree.
Qed.

(** * Facts about the client *)

Module AppFacts.
Import App.

Lemma drawChart_returns (c : Chart) (m : float) :
  data c <> [] -> snd (drawChart c m) = Returned.
Proof. unfold drawChart. destruct (data c); [congruence | reflexivity]. Qed.

(** The array after a tick: the new point at the end, the first point dropped
    when there are more than 200. *)
Lemma onTick_data (c : Chart) (m : float) :
  data (fst (fst (onTick c m)))
  = let pushed := data c ++ [pushed_point (length (data c)) m] in
    if (maxPoints <? length pushed)%nat then tail pushed else pushed.
Proof.
  unfold onTick. cbv zeta.
  match goal with |- context [drawChart ?c1 m] => destruct (drawChart c1 m) as [d []] end;
    reflexivity.
Qed.

Lemma onTick_returns (c : Chart) (m : float) : snd (onTick c m) = Returned.
Proof.
  unfold onTick. cbv zeta.
  match goal with |- context [drawChart ?c1 m] =>
    pose proof (drawChart_returns c1 m) as H; destruct (drawChart c1 m) as [d o] end.
  cbn [snd data] in H. rewrite H; [reflexivity |].
  destruct (maxPoints <? _)%nat eqn:E.
  - apply Nat.ltb_lt in E. rewrite length_app in E. cbn in E. unfold maxPoints in E.
    destruct (data c) as [| p [| q l]]; cbn in *; try lia; discriminate.
  - now destruct (data c).
Qed.

Lemma onGameStart_returns (c : Chart) : snd (onGameStart c) = Returned.
Proof. reflexivity. Qed.

Lemma onTick_length (c : Chart) (m : float) :
  (length (data c) <= maxPoints)%nat ->
  (length (data (fst (fst (onTick c m)))) <= maxPoints)%nat.
Proof.
  intros H. rewrite onTick_data. cbv zeta.
  destruct (maxPoints <? _)%nat eqn:E.
  - rewrite length_app in *. cbn [length] in *. apply Nat.ltb_lt in E.
    destruct (data c) as [| p l]; cbn in *; [lia |]. rewrite length_app. cbn. lia.
  - now apply Nat.ltb_ge in E.
Qed.

Lemma round_points_snoc (ms : list float) (m : float) :
  round_points (ms ++ [m])
  = round_points ms ++ [pushed_point (Nat.min (S (length ms)) maxPoints) m].
Proof.
  unfold round_points. rewrite imap_app. cbn. now rewrite Nat.add_0_r.
Qed.

Lemma round_points_length (ms : list float) : length (round_points ms) = S (length ms).
Proof. unfold round_points. cbn. now rewrite length_imap. Qed.

Lemma run_ticks_snoc (c : Chart) (evs : list Event) (ev : Event) :
  fst (run c (evs ++ [ev])) = fst (fst (step (fst (run c evs)) ev)).
Proof.
  revert c. induction evs as [| e evs IH]; intros c; cbn [run app].
  - cbn [fst]. destruct (step c ev) as [[c1 out] o]. reflexivity.
  - destruct (step c e) as [[c1 out] o]. specialize (IH c1).
    destruct (run c1 (evs ++ [ev])) as [c2 os], (run c1 evs) as [c3 os']. exact IH.
Qed.

(** The array [n] ticks into a round holds the last 200 points of the
    round. *)
Lemma chart_after_ticks (ms : list float) (c : Chart) :
  data (fst (run c (GAME_START :: map TICK ms)))
  = drop (S (length ms) - maxPoints) (round_points ms).
Proof.
  induction ms as [| m ms IH] using rev_ind.
  - reflexivity.
  - rewrite map_app. cbn [map]. rewrite app_comm_cons, run_ticks_snoc.
    cbn [step]. rewrite onTick_data, IH. cbv zeta.
    rewrite round_points_snoc.
    rewrite !length_app, !length_drop, !round_points_length. cbn [length].
    unfold maxPoints in *. set (n := length ms).
    destruct (Nat.le_gt_cases (S n) 199) as [Hs | Hs].
    + replace (S n - 200)%nat with 0%nat by lia.
      replace (S (n + 1) - 200)%nat with 0%nat by lia.
      rewrite !drop_0.
      replace (S n - 0)%nat with (Nat.min (S n) 200) by lia.
      destruct (Nat.ltb_spec 200 (Nat.min (S n) 200 + 1)) as [E | E]; [lia | reflexivity].
    + replace (S n - (S n - 200))%nat with (Nat.min (S n) 200) by lia.
      destruct (Nat.ltb_spec 200 (Nat.min (S n) 200 + 1)) as [E | E]; [| lia].
      replace (S (n + 1) - 200)%nat with (S n - 200 + 1)%nat by lia.
      rewrite <- drop_app_le by (rewrite round_points_length; lia).
      rewrite <- drop_drop.
      now destruct (drop (S n - 200) (round_points ms ++ [pushed_point (Nat.min (S n) 200) m])).
Qed.

Lemma last_Forall {A : Type} (P : A -> Prop) (l : list A) (d : A) :
  Forall P l -> P d -> P (List.last l d).
Proof.
  intros Hl Hd. induction Hl as [| a l Ha Hl IH]; [exact Hd |].
  destruct l; [exact Ha | exact IH].
Qed.

(** With every point at [x = 20] the path has no width: each of its points
    is drawn at the same canvas [x]. *)
Lemma drawChart_flat (c : Chart) (m : float) :
  Forall (fun p => x p = 20%float) (data c) ->
  Forall (fun e => match e with
                   | MoveTo px _ | LineTo px _ => px = (0 * float_of_Z (width c))%float
                   | _ => True
                   end)
         (fst (drawChart c m)).
Proof.
  intros H. unfold drawChart. destruct (data c) as [| p0 l] eqn:E.
  - cbn. repeat constructor.
  - cbn [fst]. apply Forall_app. split; [repeat constructor |].
    apply Forall_app. split; [| repeat constructor].
    assert (H0 : x p0 = 20%float) by now inversion H.
    assert (Hlast : x (List.last (p0 :: l) p0) = 20%float)
      by (apply (last_Forall (fun p => x p = 20%float)); assumption).
    rewrite Hlast, H0. apply Forall_lookup. intros i e He.
    rewrite list_lookup_imap in He.
    destruct ((p0 :: l) !! i) as [p |] eqn:Hp; [| discriminate].
    injection He as <-.
    rewrite (proj1 (Forall_lookup _ _) H i p Hp).
    destruct i; reflexivity.
Qed.

(** ** The history list *)

Lemma children_length_elements (container : list Node) :
  Forall (fun n => is_element n = true) container ->
  children_length container = length container.
Proof.
  intros H. unfold children_length. induction H as [| n l Hn Hl IH]; [reflexivity |].
  cbn. rewrite Hn. cbn. now rewrite IH.
Qed.

Lemma updateHistory_take (container : list Node) (cp : float) :
  Forall (fun n => is_element n = true) container -> (length container <= 20)%nat ->
  updateHistory container cp
  = take 20 (HistoryItem (js_ge cp 2) (Fixed2x cp) :: container).
Proof.
  intros He Hlen. unfold updateHistory. cbv zeta.
  rewrite children_length_elements by (constructor; [reflexivity | exact He]).
  cbn [length]. destruct (Nat.ltb_spec 20 (S (length container))) as [H | H].
  - rewrite removelast_firstn_len. cbn [length Nat.pred]. f_equal. lia.
  - rewrite take_ge; [reflexivity | cbn; lia].
Qed.

End AppFacts.

(** * Cash-outs that pay and ticks that crash *)

Module ServerPays.
Import Server.

(** In a running round that has not crashed, [CASH_OUT] of a socket with an
    open bet pays: the bet is marked with its profit and the socket is sent
    [CASHOUT_SUCCESS]. *)
Lemma on_CASH_OUT_pays (st : State) (sid : string) (bet : Bet) :
  running (gameState st) = true -> crashed (gameState st) = false ->
  activeBets st !! sid = Some bet -> cashedOut bet = false ->
  let m := multiplier (gameState st) in
  let w := js_floor (amount bet * m)%float in
  let p := (w - amount bet)%float in
  on_CASH_OUT st sid
  = ({| gameState := gameState st;
        activeBets := <[sid := {| amount := amount bet; cashedOut := true;
                                  profit := p; username := username bet |}]>
                        (activeBets st) |},
     [SocketEmit sid (CASHOUT_SUCCESS m w p)]).
Proof.
  intros Hrun Hcr Hl Hco. cbv zeta. unfold on_CASH_OUT.
  rewrite Hrun, Hcr, Hl, Hco. reflexivity.
Qed.


End ServerPays.

Module MockPays.
Import Mock.

Lemma cashOut_pays (st : State) (bet : Bet) (u : User) :
  running (game st) = true ->
  bets st !! id (game st) = Some bet -> cashedOut bet = false ->
  user st = Some u ->
  let m := multiplier (game st) in
  let w := js_floor (amount bet * m)%float in
  let p := (w - amount bet)%float in
  let u' := {| username := username u; balance := (balance u + w)%float;
               referralCode := referralCode u;
               totalProfit := (totalProfit u + p)%float |} in
  cashOut st
  = ({| user := Some u'; game := game st;
        bets := <[id (game st) := {| amount := amount bet; cashedOut := true;
                                     profit := p |}]> (bets st);
        storage := Some u' |},
     [Emit (CASHOUT_SUCCESS m w p); Emit (USER_UPDATE (Some u'))], Success).
Proof.
  intros Hrun Hl Hco Hu. cbv zeta. unfold cashOut.
  rewrite Hrun, Hl, Hco, Hu. reflexivity.
Qed.

(** [cashOut] returns [{ success: true }] exactly in a running round with an
    open bet and a user. *)
Lemma cashOut_success_iff (st : State) :
  snd (cashOut st) = Success <->
  running (game st) = true /\
  (exists bet, bets st !! id (game st) = Some bet /\ cashedOut bet = false) /\
  user st <> None.
Proof.
  split.
  - intros H.
    destruct (MockFacts.cashOut_success st (fst (fst (cashOut st))) (snd (fst (cashOut st))))
      as (bet & u & Hl & Hco & Hu & Hrun & _).
    { rewrite <- H. now destruct (cashOut st) as [[a b] c]. }
    split; [exact Hrun |]. split; [eauto | congruence].
  - intros (Hrun & (bet & Hl & Hco) & Hu).
    destruct (user st) as [u |] eqn:Eu; [| congruence].
    now rewrite (cashOut_pays st bet u Hrun Hl Hco Eu).
Qed.


End MockPays.

(** * The claims *)

(** C1. A cash-out of a running round pays the floor of stake times
    multiplier. In [server.js], [CASH_OUT] in a running round that has not
    crashed, from a socket with an open bet, answers [CASHOUT_SUCCESS] with
    the stored multiplier, [winAmount] the floor of the stake times that same
    value and [profit] the [winAmount] minus the stake, and marks the bet with
    that profit; and this is the only way a [CASHOUT_SUCCESS] is sent. The
    mock's [cashOut] does the same with its one read [currentMult], for the
    bet of the logged-in user. A stake of 100 at 2.50 pays 250, a profit of
    150. *)
Theorem C1_cash_out_payout :
  (forall (st st' : Server.State) (sid : string) (out : list Server.Effect)
          (m w p : float),
      Server.on_CASH_OUT st sid = (st', out) ->
      In (Server.SocketEmit sid (Server.CASHOUT_SUCCESS m w p)) out ->
      exists bet,
        Server.activeBets st !! sid = Some bet /\
        Server.running (Server.gameState st) = true /\
        m = Server.multiplier (Server.gameState st) /\
        w = js_floor (Server.amount bet * m)%float /\
        p = (w - Server.amount bet)%float) /\
  (forall (st st' : Mock.State) (out : list Mock.Effect),
      Mock.cashOut st = (st', out, Mock.Success) ->
      exists bet m w p,
        Mock.bets st !! Mock.id (Mock.game st) = Some bet /\
        Mock.running (Mock.game st) = true /\
        In (Mock.Emit (Mock.CASHOUT_SUCCESS m w p)) out /\
        m = Mock.multiplier (Mock.game st) /\
        w = js_floor (Mock.amount bet * m)%float /\
        p = (w - Mock.amount bet)%float) /\
  (forall (st : Server.State) (sid : string) (bet : Server.Bet),
      Server.running (Server.gameState st) = true ->
      Server.crashed (Server.gameState st) = false ->
      Server.activeBets st !! sid = Some bet -> Server.cashedOut bet = false ->
      let m := Server.multiplier (Server.gameState st) in
      let w := js_floor (Server.amount bet * m)%float in
      let p := (w - Server.amount bet)%float in
      Server.on_CASH_OUT st sid
      = ({| Server.gameState := Server.gameState st;
            Server.activeBets :=
              <[sid := {| Server.amount := Server.amount bet; Server.cashedOut := true;
                          Server.profit := p; Server.username := Server.username bet |}]>
                (Server.activeBets st) |},
         [Server.SocketEmit sid (Server.CASHOUT_SUCCESS m w p)])) /\
  (forall (st : Mock.State) (bet : Mock.Bet) (u : Mock.User),
      Mock.running (Mock.game st) = true ->
      Mock.bets st !! Mock.id (Mock.game st) = Some bet -> Mock.cashedOut bet = false ->
      Mock.user st = Some u ->
      let m := Mock.multiplier (Mock.game st) in
      let w := js_floor (Mock.amount bet * m)%float in
      let p := (w - Mock.amount bet)%float in
      let u' := {| Mock.username := Mock.username u;
                   Mock.balance := (Mock.balance u + w)%float;
                   Mock.referralCode := Mock.referralCode u;
                   Mock.totalProfit := (Mock.totalProfit u + p)%float |} in
      Mock.cashOut st
      = ({| Mock.user := Some u'; Mock.game := Mock.game st;
            Mock.bets :=
              <[Mock.id (Mock.game st) :=
                  {| Mock.amount := Mock.amount bet; Mock.cashedOut := true;
                     Mock.profit := p |}]> (Mock.bets st);
            Mock.storage := Some u' |},
         [Mock.Emit (Mock.CASHOUT_SUCCESS m w p); Mock.Emit (Mock.USER_UPDATE (Some u'))],
         Mock.Success)) /\
  (js_floor (100 * 2.5) = 250 /\ 250 - 100 = 150)%float.
Proof.
  split; [| split; [| split; [| split]]].
  - intros st st' sid out m w p Heq Hin.
    destruct (ServerFacts.on_CASH_OUT_success _ _ _ _ _ _ _ Heq Hin)
      as (bet & Hl & _ & Hrun & _ & Hm & Hw & Hp & _).
    exists bet. auto.
  - intros st st' out Heq.
    destruct (MockFacts.cashOut_success _ _ _ Heq)
      as (bet & u & Hl & _ & _ & Hrun & Hout & _).
    exists bet, (Mock.multiplier (Mock.game st)),
      (js_floor (Mock.amount bet * Mock.multiplier (Mock.game st))%float),
      (js_floor (Mock.amount bet * Mock.multiplier (Mock.game st)) - Mock.amount bet)%float.
    rewrite Hout. repeat split; auto. now left.
  - exact ServerPays.on_CASH_OUT_pays.
  - exact MockPays.cashOut_pays.
  - split; vm_compute; reflexivity.
Qed.

Lemma C1_witness :
  (exists bet,
     Server.activeBets Examples.server_running !! "s1" = Some bet /\
     Server.running (Server.gameState Examples.server_running) = true /\
     1.0045%float = Server.multiplier (Server.gameState Examples.server_running) /\
     100%float = js_floor (Server.amount bet * 1.0045)%float /\
     0%float = (100 - Server.amount bet)%float) /\
  (exists bet m w p,
     Mock.bets Examples.mock_running !! Mock.id (Mock.game Examples.mock_running)
     = Some bet /\
     Mock.running (Mock.game Examples.mock_running) = true /\
     In (Mock.Emit (Mock.CASHOUT_SUCCESS m w p))
        (snd (fst (Mock.cashOut Examples.mock_running))) /\
     m = Mock.multiplier (Mock.game Examples.mock_running) /\
     w = js_floor (Mock.amount bet * m)%float /\
     p = (w - Mock.amount bet)%float) /\
  snd (Server.on_CASH_OUT Examples.server_at_2_50 "s1")
  = [Server.SocketEmit "s1" (Server.CASHOUT_SUCCESS 2.5 250 150)] /\
  snd (fst (Mock.cashOut Examples.mock_at_2_50))
  = [Mock.Emit (Mock.CASHOUT_SUCCESS 2.5 250 150);
     Mock.Emit (Mock.USER_UPDATE
                  (Some {| Mock.username := "ann"; Mock.balance := 5150;
                           Mock.referralCode := 5500; Mock.totalProfit := 150 |}))].
Proof.
  split; [| split; [| split]].
  - apply (proj1 C1_cash_out_payout Examples.server_running
             (fst (Server.on_CASH_OUT Examples.server_running "s1")) "s1"
             (snd (Server.on_CASH_OUT Examples.server_running "s1"))
             1.0045%float 100%float 0%float).
    + apply surjective_pairing.
    + vm_compute. left. reflexivity.
  - apply (proj1 (proj2 C1_cash_out_payout) Examples.mock_running
             (fst (fst (Mock.cashOut Examples.mock_running)))).
    vm_compute. reflexivity.
  - rewrite (proj1 (proj2 (proj2 C1_cash_out_payout)) Examples.server_at_2_50 "s1"
               {| Server.amount := 100; Server.cashedOut := false;
                  Server.profit := 0; Server.username := "ann" |}
               eq_refl eq_refl eq_refl eq_refl).
    vm_compute. reflexivity.
  - rewrite (proj1 (proj2 (proj2 (proj2 C1_cash_out_payout))) Examples.mock_at_2_50
               {| Mock.amount := 100; Mock.cashedOut := false; Mock.profit := 0 |}
               {| Mock.username := "ann"; Mock.balance := 4900;
                  Mock.referralCode := 5500; Mock.totalProfit := 0 |}
               eq_refl eq_refl eq_refl eq_refl).
    vm_compute. reflexivity.
Defined.

(** C2. For every draw [r] in [[0, 1)] the target set at the start of a round
    is [0.99 / (1 - r)], raised to [1.00] when below it and cut at the cap
    [1000] by [Math.min]; it is at least [1.00] and at most [1000]. Both
    [startGame] functions store exactly this value. *)
Theorem C2_crash_target_bounds (r : float) :
  (0 <=? r)%float = true -> (r <? 1)%float = true ->
  drawCrashPoint r
  = js_min (if (0.99 / (1 - r) <? 1)%float then 1%float else (0.99 / (1 - r))%float) 1000 /\
  (1 <=? drawCrashPoint r)%float = true /\
  (drawCrashPoint r <=? 1000)%float = true /\
  (forall (st : Server.State) (now : Z),
      Server.crashPoint (Server.gameState (fst (Server.startGame st now r)))
      = drawCrashPoint r) /\
  (forall (st : Mock.State) (modeId : string) (now : Z),
      Mock.running (Mock.game st) = false ->
      Mock.crashPoint (Mock.game (fst (fst (Mock.startGame st modeId now r))))
      = drawCrashPoint r).
Proof.
  intros H0 H1.
  assert (Hn : is_nan r = false) by (apply leb_true in H0; tauto).
  destruct (drawCrashPoint_bounds r Hn) as [Hlo Hhi].
  repeat split; auto.
  intros st modeId now Hrun. unfold Mock.startGame. now rewrite Hrun.
Qed.

Lemma C2_witness :
  drawCrashPoint 0.5
  = js_min (if (0.99 / (1 - 0.5) <? 1)%float then 1%float else (0.99 / (1 - 0.5))%float) 1000 /\
  (1 <=? drawCrashPoint 0.5)%float = true /\
  (drawCrashPoint 0.5 <=? 1000)%float = true /\
  (forall (st : Server.State) (now : Z),
      Server.crashPoint (Server.gameState (fst (Server.startGame st now 0.5)))
      = drawCrashPoint 0.5) /\
  (forall (st : Mock.State) (modeId : string) (now : Z),
      Mock.running (Mock.game st) = false ->
      Mock.crashPoint (Mock.game (fst (fst (Mock.startGame st modeId now 0.5))))
      = drawCrashPoint 0.5).
Proof. apply (C2_crash_target_bounds 0.5); reflexivity. Defined.




(** C4. Once the round has crashed, every [CASH_OUT] is refused and nothing
    changes. [crash] leaves [running = false] and [crashed = true]; from a
    stopped round, whatever events follow short of a round start, the round
    state is the same and [CASH_OUT] answers with the error and the state it
    was given; a [CASHOUT_SUCCESS] is only ever sent from a round that is
    running and has not crashed. The mock's [cashOut] behaves the same way
    on its [running] flag. Before the crash a cash-out succeeds: the server
    sends [CASHOUT_SUCCESS] exactly when the round is running, has not crashed
    and the socket has an open bet, and the mock returns [{ success: true }]
    exactly when the round is running and the logged-in user has an open
    bet. *)
Theorem C4_no_cash_out_after_crash :
  (forall (st : Server.State) (now : Z),
      Server.running (Server.gameState (fst (Server.crash st now))) = false /\
      Server.crashed (Server.gameState (fst (Server.crash st now))) = true) /\
  (forall (st : Server.State) (evs : list Server.Event) (sid : string),
      Server.running (Server.gameState st) = false ->
      (forall ev, In ev evs -> Server.starts_round ev = false) ->
      let st' := fst (Server.run st evs) in
      Server.gameState st' = Server.gameState st /\
      Server.on_CASH_OUT st' sid
      = (st', [Server.SocketEmit sid (Server.ERROR "Game not active")])) /\
  (forall (st st' : Server.State) (sid : string) (out : list Server.Effect)
          (m w p : float),
      Server.on_CASH_OUT st sid = (st', out) ->
      In (Server.SocketEmit sid (Server.CASHOUT_SUCCESS m w p)) out ->
      Server.running (Server.gameState st) = true /\
      Server.crashed (Server.gameState st) = false) /\
  (forall st : Mock.State,
      Mock.running (Mock.game (fst (fst (Mock._crash st)))) = false) /\
  (forall (st : Mock.State) (evs : list Mock.Event),
      Mock.running (Mock.game st) = false ->
      (forall ev, In ev evs -> Mock.starts_round ev = false) ->
      let st' := fst (Mock.run st evs) in
      Mock.game st' = Mock.game st /\
      Mock.cashOut st' = (st', [], Mock.Error "Game not running")) /\
  (forall (st st' : Mock.State) (out : list Mock.Effect),
      Mock.cashOut st = (st', out, Mock.Success) ->
      Mock.running (Mock.game st) = true) /\
  (forall (st : Server.State) (sid : string),
      (exists m w p,
          In (Server.SocketEmit sid (Server.CASHOUT_SUCCESS m w p))
             (snd (Server.on_CASH_OUT st sid))) <->
      (Server.running (Server.gameState st) = true /\
       Server.crashed (Server.gameState st) = false /\
       exists bet, Server.activeBets st !! sid = Some bet /\
                   Server.cashedOut bet = false)) /\
  (forall st : Mock.State,
      snd (Mock.cashOut st) = Mock.Success <->
      (Mock.running (Mock.game st) = true /\
       (exists bet, Mock.bets st !! Mock.id (Mock.game st) = Some bet /\
                    Mock.cashedOut bet = false) /\
       Mock.user st <> None)).
Proof.
  split; [| split; [| split; [| split; [| split; [| split; [| split]]]]]].
  - intros st now. split; reflexivity.
  - intros st evs sid Hstop Hns. cbv zeta.
    pose proof (ServerFacts.run_stopped_state evs st Hns Hstop) as Hg.
    split; [exact Hg |]. apply ServerFacts.on_CASH_OUT_stopped. left. now rewrite Hg.
  - intros st st' sid out m w p Heq Hin.
    destruct (ServerFacts.on_CASH_OUT_success _ _ _ _ _ _ _ Heq Hin)
      as (bet & _ & _ & Hrun & Hcr & _). auto.
  - intros st. apply (MockFacts._crash_round st).
  - intros st evs Hstop Hns. cbv zeta.
    pose proof (MockFacts.mock_run_stopped_state evs st Hns Hstop) as Hg.
    split; [exact Hg |]. apply MockFacts.cashOut_stopped. now rewrite Hg.
  - intros st st' out Heq.
    destruct (MockFacts.cashOut_success _ _ _ Heq) as (bet & u & _ & _ & _ & Hrun & _).
    exact Hrun.
  - intros st sid. split.
    + intros (m & w & p & Hin).
      destruct (ServerFacts.on_CASH_OUT_success st _ sid _ m w p
                  (surjective_pairing _) Hin) as (bet & Hl & Hco & Hrun & Hcr & _).
      eauto.
    + intros (Hrun & Hcr & bet & Hl & Hco).
      rewrite (ServerPays.on_CASH_OUT_pays st sid bet Hrun Hcr Hl Hco).
      do 3 eexists. left. reflexivity.
  - exact MockPays.cashOut_success_iff.
Qed.

Lemma C4_witness :
  (let st := fst (Server.crash Examples.server_running 2000) in
   let st' := fst (Server.run st [Server.IntervalFired 2030;
                                  Server.PLACE_BET "s2" (Some 20%float) None]) in
   Server.gameState st' = Server.gameState st /\
   Server.on_CASH_OUT st' "s1"
   = (st', [Server.SocketEmit "s1" (Server.ERROR "Game not active")])) /\
  (let st := fst (fst (Mock._crash Examples.mock_running)) in
   let st' := fst (Mock.run st [Mock.IntervalFired 2030; Mock.PlaceBet 20]) in
   Mock.game st' = Mock.game st /\
   Mock.cashOut st' = (st', [], Mock.Error "Game not running")) /\
  (exists m w p,
      In (Server.SocketEmit "s1" (Server.CASHOUT_SUCCESS m w p))
         (snd (Server.on_CASH_OUT Examples.server_running "s1"))) /\
  snd (Mock.cashOut Examples.mock_running) = Mock.Success.
Proof.
  split; [| split; [| split]].
  - apply (proj1 (proj2 C4_no_cash_out_after_crash)
             (fst (Server.crash Examples.server_running 2000))
             [Server.IntervalFired 2030; Server.PLACE_BET "s2" (Some 20%float) None] "s1").
    + reflexivity.
    + intros ev [<- | [<- | []]]; reflexivity.
  - apply (proj1 (proj2 (proj2 (proj2 (proj2 C4_no_cash_out_after_crash))))
             (fst (fst (Mock._crash Examples.mock_running)))
             [Mock.IntervalFired 2030; Mock.PlaceBet 20]).
    + vm_compute. reflexivity.
    + intros ev [<- | [<- | []]]; reflexivity.
  - apply (proj2 ((proj1 (proj2 (proj2 (proj2 (proj2 (proj2 (proj2
             C4_no_cash_out_after_crash))))))) Examples.server_running "s1")).
    split; [reflexivity |]. split; [reflexivity |].
    exists {| Server.amount := 100; Server.cashedOut := false;
              Server.profit := 0; Server.username := "ann" |}.
    split; vm_compute; reflexivity.
  - apply (proj2 ((proj2 (proj2 (proj2 (proj2 (proj2 (proj2 (proj2
             C4_no_cash_out_after_crash))))))) Examples.mock_running)).
    split; [reflexivity |]. split; [| vm_compute; discriminate].
    exists {| Mock.amount := 100; Mock.cashedOut := false; Mock.profit := 0 |}.
    split; vm_compute; reflexivity.
Defined.

(** The duplicate check of [server.js]: with a bet of the socket in the
    ledger, [PLACE_BET] in a running round answers with the error and changes
    nothing. *)
Lemma server_duplicate_bet_rejected (st : Server.State) (sid : string)
    (bet : Server.Bet) (a : option float) (u : option string) :
  Server.activeBets st !! sid = Some bet ->
  exists text,
    Server.on_PLACE_BET st sid a u = (st, [Server.SocketEmit sid (Server.ERROR text)]).
Proof.
  intros Hl. unfold Server.on_PLACE_BET. rewrite Hl.
  destruct (negb _ || _); eauto.
Qed.

(** C5. At most one live bet per participant and round: a second bet is
    refused and changes nothing. [server.js] does so (lemma above, and the
    first part below on a concrete round). The mock's [placeBet] has no such
    check: with a stake of 100 in the ledger and a balance of 4900, a second
    call with 50 succeeds, debits the balance again and replaces the bet, so
    the first stake is gone from the ledger although it was paid. *)
Theorem C5_mock_second_bet_accepted :
  Server.on_PLACE_BET Examples.server_running "s1" (Some 50%float) (Some "ann")
  = (Examples.server_running,
     [Server.SocketEmit "s1" (Server.ERROR "You already have an active bet")]) /\
  Mock.bets Examples.mock_bet_placed !! Mock.id (Mock.game Examples.mock_bet_placed)
  = Some {| Mock.amount := 100; Mock.cashedOut := false; Mock.profit := 0 |} /\
  Mock.balance <$> Mock.user Examples.mock_bet_placed = Some 4900%float /\
  snd (Mock.placeBet Examples.mock_bet_placed 50) = Mock.Success /\
  (let st' := fst (fst (Mock.placeBet Examples.mock_bet_placed 50)) in
   Mock.balance <$> Mock.user st' = Some 4850%float /\
   map_to_list (Mock.bets st')
   = [(Some 1000, {| Mock.amount := 50; Mock.cashedOut := false; Mock.profit := 0 |})]).
Proof. repeat split; vm_compute; reflexivity. Qed.




(** After the first tick of a round whose target is [1.00], the round has
    crashed and the stored multiplier is the tick's value [1.0045], not the
    target. *)
Lemma C7_stored_multiplier_not_frozen :
  let st' := fst (Server.tick Examples.server_instant 1030) in
  Server.crashed (Server.gameState st') = true /\
  Server.crashPoint (Server.gameState st') = 1%float /\
  Server.multiplier (Server.gameState st') = 1.0045%float /\
  Server.multiplier (Server.gameState st') <> Server.crashPoint (Server.gameState st').
Proof.
  cbv zeta. repeat split; try (vm_compute; reflexivity).
  intros H. apply (f_equal (fun x => (x <=? 1)%float)) in H.
  vm_compute in H. discriminate.
Qed.

(** C7, as amended. When a tick takes the multiplier to the target or past
    it, the round stops and what is broadcast and pushed to the history is the
    target drawn at the start of the round, which no event but a round start
    changes; the stored multiplier is left at the value the tick computed,
    which is at least the target. The same holds in the mock whenever [_crash]
    returns. *)
Theorem C7_crash_reports_target :
  (forall (st : Server.State) (now : Z),
      Server.running (Server.gameState st) = true ->
      let g := Server.gameState st in
      let m := grow 0.15 30 (Server.multiplier g) in
      js_ge m (Server.crashPoint g) = true ->
      let st' := fst (Server.tick st now) in
      Server.crashed (Server.gameState st') = true /\
      Server.running (Server.gameState st') = false /\
      Server.crashPoint (Server.gameState st') = Server.crashPoint g /\
      (exists results,
         snd (Server.tick st now)
         = [Server.ClearInterval;
            Server.IoEmit (Server.GAME_CRASHED (Server.crashPoint g) results);
            Server.SetTimeout 5000]) /\
      head (Server.history (Server.gameState st'))
      = Some {| Server.h_crashPoint := Server.crashPoint g; Server.timestamp := now |} /\
      Server.multiplier (Server.gameState st') = m /\
      (Server.crashPoint g <=? Server.multiplier (Server.gameState st'))%float = true) /\
  (forall (st : Server.State) (ev : Server.Event),
      Server.starts_round ev = false ->
      Server.crashPoint (Server.gameState (fst (Server.step st ev)))
      = Server.crashPoint (Server.gameState st)) /\
  (forall (st st' : Mock.State) (now : Z) (out : list Mock.Effect),
      Mock.running (Mock.game st) = true ->
      let g := Mock.game st in
      let m := grow 0.15 30 (Mock.multiplier g) in
      js_ge m (Mock.crashPoint g) = true ->
      Mock._gameLoop st now = (st', out, Mock.Undefined) ->
      In (Mock.Emit (Mock.GAME_CRASHED (Mock.crashPoint g))) out /\
      (exists p s, head (Mock.history (Mock.game st'))
                   = Some {| Mock.mult := Mock.crashPoint g; Mock.h_profit := p;
                             Mock.status := s |}) /\
      Mock.running (Mock.game st') = false /\
      Mock.crashPoint (Mock.game st') = Mock.crashPoint g /\
      Mock.multiplier (Mock.game st') = m /\
      (Mock.crashPoint g <=? Mock.multiplier (Mock.game st'))%float = true) /\
  (forall (st : Mock.State) (ev : Mock.Event),
      Mock.starts_round ev = false ->
      Mock.crashPoint (Mock.game (fst (fst (Mock.step st ev))))
      = Mock.crashPoint (Mock.game st)).
Proof.
  split; [| split; [| split]].
  - intros st now Hrun g m Hge st'. subst st'.
    destruct (ServerFacts.tick_cases st now Hrun) as [[_ Heq] | [Hlt _]];
      [| fold g m in Hlt; congruence].
    rewrite Heq. cbn [fst snd Server.gameState Server.crashed Server.running
                      Server.crashPoint Server.history Server.multiplier].
    repeat split; eauto. apply ServerFacts.addToHistory_head.
  - apply ServerFacts.step_crashPoint.
  - intros st st' now out Hrun g m Hge Heq.
    destruct (MockFacts._gameLoop_cases st now Hrun) as [[_ Hc] | [Hlt _]];
      [| fold g m in Hlt; congruence].
    rewrite Hc in Heq.
    match type of Heq with Mock._crash ?s = _ =>
      pose proof (MockFacts._crash_round s) as Hr; rewrite Heq in Hr;
      cbv zeta in Hr; cbn [fst] in Hr;
      destruct (MockFacts._crash_returns s st' out Heq) as (Hin & p & sx & Hh)
    end.
    destruct Hr as (Hstop & _ & Hm & Hcp & _).
    cbn [Mock.set_game Mock.game Mock.multiplier Mock.crashPoint Mock.history] in *.
    split; [exact Hin |]. split.
    { exists p, sx. rewrite Hh. apply MockFacts._addToHistory_head. }
    split; [exact Hstop |]. split; [exact Hcp |]. split; [exact Hm |].
    rewrite Hm. exact Hge.
  - apply MockFacts.mock_step_crashPoint.
Qed.

Lemma C7_witness :
  (let st' := fst (Server.tick Examples.server_instant 1030) in
   Server.crashed (Server.gameState st') = true /\
   Server.running (Server.gameState st') = false /\
   Server.crashPoint (Server.gameState st') = 1%float /\
   (exists results,
      snd (Server.tick Examples.server_instant 1030)
      = [Server.ClearInterval; Server.IoEmit (Server.GAME_CRASHED 1 results);
         Server.SetTimeout 5000]) /\
   head (Server.history (Server.gameState st'))
   = Some {| Server.h_crashPoint := 1; Server.timestamp := 1030 |} /\
   Server.multiplier (Server.gameState st') = grow 0.15 30 1 /\
   (1 <=? Server.multiplier (Server.gameState st'))%float = true) /\
  In (Mock.Emit (Mock.GAME_CRASHED 1)) (snd (fst (Mock._gameLoop Examples.mock_instant 1030))).
Proof.
  split.
  - apply (proj1 C7_crash_reports_target Examples.server_instant 1030); reflexivity.
  - apply (proj1 (proj2 (proj2 C7_crash_reports_target)) Examples.mock_instant
             (fst (fst (Mock._gameLoop Examples.mock_instant 1030))) 1030
             (snd (fst (Mock._gameLoop Examples.mock_instant 1030))));
      vm_compute; reflexivity.
Defined.

(** C8. From [1.00] at the start of a round, repeated ticks never lower the
    multiplier; a tick of a running round replaces the multiplier [m] by
    [m + m * growthRate * (tickRate / 1000)], with no use of the clock, so
    that while the round runs the multiplier after [n] ticks is [mult_seq n]
    and two runs of the same length end on the same multiplier whatever the
    clock read; and for every target of at most [1000] the round has crashed,
    the target reached, after at most [max_ticks = 1539] ticks. The same
    holds for the mock's [_gameLoop]. *)
Theorem C8_multiplier_growth :
  (forall st0 : Server.State,
      Server.running (Server.gameState st0) = true ->
      Server.crashed (Server.gameState st0) = false ->
      Server.multiplier (Server.gameState st0) = 1%float ->
      (Server.crashPoint (Server.gameState st0) <=? 1000)%float = true ->
      (forall nows now,
          (Server.multiplier (Server.gameState (Server.ticks st0 nows))
           <=? Server.multiplier (Server.gameState (Server.ticks st0 (nows ++ [now]))))%float
          = true) /\
      (forall nows,
          Server.running (Server.gameState (Server.ticks st0 nows)) = true ->
          Server.multiplier (Server.gameState (Server.ticks st0 nows))
          = mult_seq (length nows)) /\
      (forall nows nows',
          length nows = length nows' ->
          Server.multiplier (Server.gameState (Server.ticks st0 nows))
          = Server.multiplier (Server.gameState (Server.ticks st0 nows'))) /\
      (forall nows,
          (max_ticks <= length nows)%nat ->
          Server.running (Server.gameState (Server.ticks st0 nows)) = false /\
          Server.crashed (Server.gameState (Server.ticks st0 nows)) = true /\
          js_ge (Server.multiplier (Server.gameState (Server.ticks st0 nows)))
                (Server.crashPoint (Server.gameState st0)) = true)) /\
  (forall (st : Server.State) (now : Z),
      Server.running (Server.gameState st) = true ->
      let m := Server.multiplier (Server.gameState st) in
      Server.multiplier (Server.gameState (fst (Server.tick st now)))
      = (m + m * Server.CONFIG.growthRate * (Server.CONFIG.tickRate / 1000))%float) /\
  (forall st0 : Mock.State,
      Mock.running (Mock.game st0) = true ->
      Mock.multiplier (Mock.game st0) = 1%float ->
      (Mock.crashPoint (Mock.game st0) <=? 1000)%float = true ->
      (forall nows now,
          (Mock.multiplier (Mock.game (Mock.ticks st0 nows))
           <=? Mock.multiplier (Mock.game (Mock.ticks st0 (nows ++ [now]))))%float = true) /\
      (forall nows,
          Mock.running (Mock.game (Mock.ticks st0 nows)) = true ->
          Mock.multiplier (Mock.game (Mock.ticks st0 nows)) = mult_seq (length nows)) /\
      (forall nows nows',
          length nows = length nows' ->
          Mock.multiplier (Mock.game (Mock.ticks st0 nows))
          = Mock.multiplier (Mock.game (Mock.ticks st0 nows'))) /\
      (forall nows,
          (max_ticks <= length nows)%nat ->
          Mock.running (Mock.game (Mock.ticks st0 nows)) = false /\
          js_ge (Mock.multiplier (Mock.game (Mock.ticks st0 nows)))
                (Mock.crashPoint (Mock.game st0)) = true)) /\
  (forall n : nat,
      mult_seq (S n) = (mult_seq n + mult_seq n * 0.15 * (30 / 1000))%float) /\
  mult_seq 0 = 1%float /\ max_ticks = 1539%nat.
Proof.
  split; [| split; [| split; [| repeat split]]].
  - intros st0 Hrun Hcr Hm Hcap.
    assert (H0 : Server.ticked (Server.crashPoint (Server.gameState st0)) 0 st0).
    { split; [reflexivity |]. left. repeat split; auto. unfold max_ticks; lia. }
    pose proof (fun nows => ServerFacts.ticks_ticked _ nows st0 Hcap H0) as Hall.
    split; [| split; [| split]].
    + intros nows now. rewrite ServerFacts.ticks_snoc.
      apply (ServerFacts.ticked_tick_mono _ _ _ now (Hall nows)).
    + intros nows Hr. destruct (Hall nows) as [_ [(_ & _ & _ & Hmul) | (Hstop & _)]];
        [exact Hmul | congruence].
    + intros nows nows' Hlen.
      pose proof (ServerFacts.ticks_view nows nows' st0 st0 Hlen eq_refl) as Hv.
      unfold Server.round_view in Hv. congruence.
    + intros nows Hlen.
      destruct (Hall nows) as [Hcp [(_ & _ & Hn & _) | (Hstop & Hc & k & _ & _ & _ & Hge)]];
        [lia |]. auto.
  - intros st now Hrun. cbv zeta.
    destruct (ServerFacts.tick_cases st now Hrun) as [[_ ->] | [_ ->]]; reflexivity.
  - intros st0 Hrun Hm Hcap.
    assert (H0 : Mock.ticked (Mock.crashPoint (Mock.game st0)) 0 st0).
    { split; [reflexivity |]. left. repeat split; auto. unfold max_ticks; lia. }
    pose proof (fun nows => MockFacts.mock_ticks_ticked _ nows st0 Hcap H0) as Hall.
    split; [| split; [| split]].
    + intros nows now. rewrite MockFacts.mock_ticks_snoc.
      apply (MockFacts.mock_ticked_tick_mono _ _ _ now (Hall nows)).
    + intros nows Hr. destruct (Hall nows) as [_ [(_ & _ & Hmul) | (Hstop & _)]];
        [exact Hmul | congruence].
    + intros nows nows' Hlen.
      pose proof (MockFacts.mock_ticks_view nows nows' st0 st0 Hlen eq_refl) as Hv.
      unfold Mock.round_view in Hv. congruence.
    + intros nows Hlen.
      destruct (Hall nows) as [Hcp [(_ & Hn & _) | (Hstop & k & _ & _ & _ & Hge)]];
        [lia |]. auto.
Qed.

Lemma C8_witness :
  (forall nows now,
      (Server.multiplier (Server.gameState (Server.ticks Examples.server_open nows))
       <=? Server.multiplier
             (Server.gameState (Server.ticks Examples.server_open (nows ++ [now]))))%float
      = true) /\
  (forall nows,
      (max_ticks <= length nows)%nat ->
      Server.crashed (Server.gameState (Server.ticks Examples.server_open nows)) = true) /\
  Server.multiplier (Server.gameState (fst (Server.tick Examples.server_open 1030)))
  = (1 + 1 * 0.15 * (30 / 1000))%float /\
  (forall nows,
      (max_ticks <= length nows)%nat ->
      Mock.running (Mock.game (Mock.ticks Examples.mock_bet_placed nows)) = false).
Proof.
  destruct (proj1 C8_multiplier_growth Examples.server_open
              eq_refl eq_refl eq_refl eq_refl) as (Hmono & _ & _ & Hend).
  destruct (proj1 (proj2 (proj2 C8_multiplier_growth)) Examples.mock_bet_placed
              eq_refl eq_refl eq_refl) as (_ & _ & _ & Hmend).
  split; [exact Hmono |]. split; [intros nows H; apply (Hend nows H) |].
  split; [apply (proj1 (proj2 C8_multiplier_growth) Examples.server_open 1030 eq_refl) |].
  intros nows H; apply (Hmend nows H).
Defined.



(** A stake of [10.5] is accepted by [PLACE_BET]; cashed out at [1.00] it pays
    [floor(10.5) = 10], less than the stake, a profit of [-0.5]. *)
Lemma C10_fractional_stake_loses :
  Server.reachable Examples.server_fractional /\
  Server.amount <$> (Server.activeBets Examples.server_fractional !! "s1")
  = Some 10.5%float /\
  snd (Server.on_CASH_OUT Examples.server_fractional "s1")
  = [Server.SocketEmit "s1" (Server.CASHOUT_SUCCESS 1 10 (-0.5))] /\
  (10.5 <=? 10)%float = false /\ (0 <=? -0.5)%float = false.
Proof.
  split; [| repeat split; vm_compute; reflexivity].
  apply ServerFacts.run_reachable; [apply Server.reachable_initial | reflexivity].
Qed.

(** C10, as amended. In every reachable state, a cash-out that succeeds on a
    bet whose stake is a whole number reads a multiplier of at least [1.00],
    pays at least the stake and reports a profit of at least zero, in
    [server.js] and in the mock. *)
Theorem C10_whole_stake_no_loss :
  (forall st : Server.State,
      Server.reachable st ->
      forall (sid : string) (st' : Server.State) (out : list Server.Effect)
             (m w p : float) (bet : Server.Bet),
        Server.on_CASH_OUT st sid = (st', out) ->
        In (Server.SocketEmit sid (Server.CASHOUT_SUCCESS m w p)) out ->
        Server.activeBets st !! sid = Some bet ->
        js_isInteger (Server.amount bet) = true ->
        (1 <=? m)%float = true /\ (Server.amount bet <=? w)%float = true /\
        (0 <=? p)%float = true) /\
  (forall (saved : option Mock.User) (st : Mock.State),
      Mock.reachable saved st ->
      forall (st' : Mock.State) (out : list Mock.Effect) (bet : Mock.Bet),
        Mock.cashOut st = (st', out, Mock.Success) ->
        Mock.bets st !! Mock.id (Mock.game st) = Some bet ->
        js_isInteger (Mock.amount bet) = true ->
        exists m w p,
          In (Mock.Emit (Mock.CASHOUT_SUCCESS m w p)) out /\
          (1 <=? m)%float = true /\ (Mock.amount bet <=? w)%float = true /\
          (0 <=? p)%float = true).
Proof.
  split.
  - intros st Hst sid st' out m w p bet Heq Hin Hl Hint.
    destruct (ServerFacts.reachable_invariant st Hst) as (Hr & Hb & _).
    destruct (ServerFacts.on_CASH_OUT_success _ _ _ _ _ _ _ Heq Hin)
      as (bet' & Hl' & _ & Hrun & _ & -> & -> & -> & _).
    assert (bet' = bet) by congruence. subst bet'.
    destruct (Hr Hrun) as (_ & _ & k & Hk & Hm).
    assert (H1 : (1 <=? Server.multiplier (Server.gameState st))%float = true).
    { rewrite Hm. apply mult_seq_ge_one. lia. }
    split; [exact H1 |]. apply cashout_no_loss; eauto.
  - intros saved st Hst st' out bet Heq Hl Hint.
    destruct (MockFacts.mock_reachable_invariant saved st Hst) as (Hr & Hb & _).
    destruct (MockFacts.cashOut_success _ _ _ Heq)
      as (bet' & u & Hl' & _ & _ & Hrun & Hout & _).
    assert (bet' = bet) by congruence. subst bet'.
    destruct (Hr Hrun) as (_ & k & Hk & Hm).
    assert (H1 : (1 <=? Mock.multiplier (Mock.game st))%float = true).
    { rewrite Hm. apply mult_seq_ge_one. lia. }
    eexists _, _, _. split; [rewrite Hout; left; reflexivity |].
    split; [exact H1 |]. apply cashout_no_loss; eauto.
Qed.

Lemma C10_witness :
  ((1 <=? 1.0045)%float = true /\ (100 <=? 100)%float = true /\ (0 <=? 0)%float = true) /\
  (exists m w p,
     In (Mock.Emit (Mock.CASHOUT_SUCCESS m w p))
        (snd (fst (Mock.cashOut Examples.mock_running))) /\
     (1 <=? m)%float = true /\ (100 <=? w)%float = true /\ (0 <=? p)%float = true).
Proof.
  split.
  - apply (proj1 C10_whole_stake_no_loss Examples.server_running
             (ServerFacts.run_reachable Examples.server_round Server.initial
                Server.reachable_initial eq_refl)
             "s1" (fst (Server.on_CASH_OUT Examples.server_running "s1"))
             (snd (Server.on_CASH_OUT Examples.server_running "s1"))
             1.0045%float 100%float 0%float
             {| Server.amount := 100; Server.cashedOut := false; Server.profit := 0;
                Server.username := "ann" |}).
    + apply surjective_pairing.
    + vm_compute. left. reflexivity.
    + vm_compute. reflexivity.
    + vm_compute. reflexivity.
  - apply (proj2 C10_whole_stake_no_loss None Examples.mock_running
             (MockFacts.mock_run_reachable None Examples.mock_round (Mock.initial None)
                (Mock.reachable_initial None) eq_refl)
             (fst (fst (Mock.cashOut Examples.mock_running)))
             (snd (fst (Mock.cashOut Examples.mock_running)))
             {| Mock.amount := 100; Mock.cashedOut := false; Mock.profit := 0 |});
      vm_compute; reflexivity.
Defined.

(** * Further properties of [server.js] *)

(** X1. For clients that send a number, or nothing, as the [amount] of
    [PLACE_BET] (what [app.js] sends: the result of [parseInt]), in every
    state the server reaches each bet of the ledger has a stake that is not
    below 10 and is not [NaN] (the test [!amount] is what keeps [NaN] out:
    [NaN < 10] is false), an open bet has profit [0], and no bet has an
    empty user name. *)
Theorem X1_server_ledger_entries (st : Server.State) :
  Server.reachable st ->
  forall (sid : string) (bet : Server.Bet),
    Server.activeBets st !! sid = Some bet ->
    (10 <=? Server.amount bet)%float = true /\
    (Server.cashedOut bet = false -> Server.profit bet = 0%float) /\
    Server.username bet <> "".
Proof.
  intros Hre. change (Server.ledger_ok st).
  induction Hre as [| st ev _ IH _].
  - apply ServerInvariants.initial_ledger_ok.
  - now apply ServerInvariants.step_ledger_ok.
Qed.

Lemma X1_witness :
  (10 <=? 100)%float = true /\ (false = false -> 0%float = 0%float) /\ "ann" <> "".
Proof.
  apply (X1_server_ledger_entries Examples.server_running
           (ServerFacts.run_reachable Examples.server_round Server.initial
              Server.reachable_initial eq_refl)
           "s1" {| Server.amount := 100; Server.cashedOut := false;
                   Server.profit := 0; Server.username := "ann" |}).
  vm_compute. reflexivity.
Defined.

(** X2. The server is always in one of three phases. Before the first round
    ([gameId] is [null]) nothing runs, the ledger and the history are empty
    and the multiplier is [1.00]; afterwards [crashed] is the negation of
    [running]. So a running round is never marked crashed, and the guard
    [!running || crashed] of [PLACE_BET] and [CASH_OUT] refuses exactly when no
    round is running. *)
Theorem X2_server_phases (st : Server.State) :
  Server.reachable st ->
  let g := Server.gameState st in
  match Server.gameId g with
  | None => Server.running g = false /\ Server.crashed g = false /\
            Server.activeBets st = ∅ /\ Server.history g = [] /\
            Server.multiplier g = 1.00%float
  | Some _ => Server.crashed g = negb (Server.running g)
  end /\
  negb (Server.running g) || Server.crashed g = negb (Server.running g).
Proof.
  intros Hre. cbv zeta.
  assert (Hp : Server.phase_ok st).
  { induction Hre as [| st ev _ IH _].
    - apply ServerInvariants.initial_phase_ok.
    - now apply ServerInvariants.step_phase_ok. }
  split; [exact Hp |].
  unfold Server.phase_ok in Hp.
  destruct (Server.gameId (Server.gameState st)).
  - rewrite Hp. now destruct (Server.running _).
  - destruct Hp as (-> & -> & _). reflexivity.
Qed.

Lemma X2_witness :
  Server.crashed (Server.gameState Examples.server_running)
  = negb (Server.running (Server.gameState Examples.server_running)) /\
  negb (Server.running (Server.gameState Examples.server_running))
  || Server.crashed (Server.gameState Examples.server_running)
  = negb (Server.running (Server.gameState Examples.server_running)).
Proof.
  apply (X2_server_phases Examples.server_running
           (ServerFacts.run_reachable Examples.server_round Server.initial
              Server.reachable_initial eq_refl)).
Defined.

(** X3. Every multiplier the server sends while a round runs is within the
    round: a [TICK] carries a value that is at least [1.00] and strictly below
    the crash target, and a [CASHOUT_SUCCESS] a value that is at least [1.00]
    and at most the target. Nobody is paid at a multiplier above the target. *)
Theorem X3_server_multiplier_within_target (st : Server.State) (ev : Server.Event) :
  Server.reachable st ->
  let target := Server.crashPoint (Server.gameState st) in
  (forall m elapsed,
      In (Server.IoEmit (Server.TICK m elapsed)) (snd (Server.step st ev)) ->
      (1 <=? m)%float = true /\ (m <? target)%float = true) /\
  (forall sid m w p,
      In (Server.SocketEmit sid (Server.CASHOUT_SUCCESS m w p)) (snd (Server.step st ev)) ->
      (1 <=? m)%float = true /\ (m <=? target)%float = true).
Proof.
  intros Hre. cbv zeta.
  pose proof (ServerFacts.reachable_invariant st Hre) as (Hinv & _ & _).
  pose proof (ServerInvariants.reachable_round_bounds st Hre) as (Hb & _).
  split.
  - intros m elapsed Hin.
    apply ServerInvariants.step_tick_msg in Hin as (Hrun & -> & Hlt).
    destruct (Hinv Hrun) as (_ & _ & k & Hk & Hm).
    destruct (Hb Hrun) as (Hcp & _ & _).
    apply in_range_spec in Hcp as [Hcp _].
    apply leb_true in Hcp as (_ & Hcn & _).
    rewrite Hm in *. change (grow 0.15 30 (mult_seq k)) with (mult_seq (S k)) in *.
    assert (Hmn : is_nan (mult_seq (S k)) = false) by (apply mult_seq_not_nan; lia).
    split; [apply mult_seq_ge_one; lia |].
    unfold js_ge in Hlt. rewrite leb_rank, Hmn, Hcn in Hlt. cbn in Hlt.
    apply Z.leb_gt in Hlt. apply ltb_true. repeat split; assumption.
  - intros sid m w p Hin.
    apply ServerInvariants.step_cashout_msg in Hin as (_ & bet & _ & _ & Hrun & -> & _).
    destruct (Hb Hrun) as (_ & H1 & H2). now split.
Qed.

Lemma X3_witness :
  (1 <=? mult_seq 2)%float = true /\
  (mult_seq 2 <? Server.crashPoint (Server.gameState Examples.server_running))%float = true.
Proof.
  apply (proj1 (X3_server_multiplier_within_target Examples.server_running
                  (Server.IntervalFired 1060)
                  (ServerFacts.run_reachable Examples.server_round Server.initial
                     Server.reachable_initial eq_refl))
           (mult_seq 2) (float_of_Z 60 / 1000)%float).
  vm_compute. left. reflexivity.
Defined.

(** X4. Every crash point the server publishes lies between [1.00] and the cap
    of 1000: the one a [GAME_CRASHED] broadcast carries, and every entry of
    the history (which [INITIAL_STATE] hands to a new connection). *)
Theorem X4_server_published_targets (st : Server.State) :
  Server.reachable st ->
  Forall (fun e => in_range (Server.h_crashPoint e) = true)
         (Server.history (Server.gameState st)) /\
  (forall ev c results,
      In (Server.IoEmit (Server.GAME_CRASHED c results)) (snd (Server.step st ev)) ->
      in_range c = true).
Proof.
  intros Hre.
  destruct (ServerInvariants.reachable_round_bounds st Hre) as (Hb & Hh).
  split; [exact Hh |].
  intros ev c results Hin.
  apply ServerInvariants.step_crash_results in Hin as (Hrun & -> & _).
  now destruct (Hb Hrun) as (Hcp & _).
Qed.

Lemma X4_witness :
  Forall (fun e => in_range (Server.h_crashPoint e) = true)
         (Server.history
            (Server.gameState
               (fst (Server.run Server.initial
                       [Server.TimeoutFired 1000 0; Server.IntervalFired 1030])))).
Proof.
  apply (X4_server_published_targets
           (fst (Server.run Server.initial
                   [Server.TimeoutFired 1000 0; Server.IntervalFired 1030]))
           (ServerFacts.run_reachable
              [Server.TimeoutFired 1000 0; Server.IntervalFired 1030] Server.initial
              Server.reachable_initial eq_refl)).
Defined.





(** X7. The handlers of socket messages keep sockets apart. Whatever the
    state, the handler run for a socket ([connection], [PLACE_BET],
    [CASH_OUT], [disconnect]) leaves [gameState] and the bets of all other
    sockets as they are, broadcasts nothing and sends at most one message, to
    that socket. *)
Theorem X7_server_socket_isolation (st : Server.State) (ev : Server.Event)
    (sid : string) :
  Server.socket_of ev = Some sid ->
  Server.gameState (fst (Server.step st ev)) = Server.gameState st /\
  (forall s, s <> sid ->
     Server.activeBets (fst (Server.step st ev)) !! s = Server.activeBets st !! s) /\
  Forall (fun e => Server.emits_to sid e = true) (snd (Server.step st ev)) /\
  (length (snd (Server.step st ev)) <= 1)%nat.
Proof.
  intros Hs.
  assert (Hsame : forall m : Server.Msg,
             Forall (fun e => Server.emits_to sid e = true) [Server.SocketEmit sid m]).
  { intros m. constructor; [| constructor]. cbn. now apply bool_decide_eq_true. }
  assert (Hone : forall m : Server.Msg,
             Server.gameState st = Server.gameState st /\
             (forall s, s <> sid -> Server.activeBets st !! s = Server.activeBets st !! s) /\
             Forall (fun e => Server.emits_to sid e = true) [Server.SocketEmit sid m] /\
             (length [Server.SocketEmit sid m] <= 1)%nat).
  { intros m. repeat split; auto. }
  destruct ev as [s | now r | s a u | s | s | now | now r]; try discriminate;
    injection Hs as ->; cbn [Server.step].
  - apply Hone.
  - unfold Server.on_PLACE_BET.
    destruct (negb _ || _); [apply Hone |].
    destruct (Server.activeBets st !! sid); [apply Hone |].
    destruct a as [a |]; [| apply Hone].
    destruct (js_falsy a || _); [apply Hone |].
    cbn. split; [reflexivity |]. split; [| split; [apply Hsame | lia]].
    intros s Hne. now rewrite lookup_insert_ne.
  - unfold Server.on_CASH_OUT.
    destruct (negb _ || _); [apply Hone |].
    destruct (Server.activeBets st !! sid) as [b |]; [| apply Hone].
    destruct (Server.cashedOut b); [apply Hone |].
    cbn. split; [reflexivity |]. split; [| split; [apply Hsame | lia]].
    intros s Hne. now rewrite lookup_insert_ne.
  - cbn. split; [reflexivity |]. split; [| split; [constructor | lia]].
    intros s Hne. now rewrite lookup_delete_ne.
Qed.

Lemma X7_witness :
  Server.gameState (fst (Server.step Examples.server_running (Server.CASH_OUT "s2")))
  = Server.gameState Examples.server_running /\
  (forall s, s <> "s2" ->
     Server.activeBets (fst (Server.step Examples.server_running (Server.CASH_OUT "s2")))
       !! s = Server.activeBets Examples.server_running !! s) /\
  Forall (fun e => Server.emits_to "s2" e = true)
         (snd (Server.step Examples.server_running (Server.CASH_OUT "s2"))) /\
  (length (snd (Server.step Examples.server_running (Server.CASH_OUT "s2"))) <= 1)%nat.
Proof.
  apply (X7_server_socket_isolation Examples.server_running (Server.CASH_OUT "s2") "s2").
  reflexivity.
Defined.

(** X8. A socket that disconnects is left out of the settlement. The
    [results] that [crash] broadcasts after [disconnect] of a socket are
    those it would have broadcast without it, minus the element of that
    socket: the bet, cashed out or not, is neither won nor lost. *)
Theorem X8_server_disconnect_leaves_settlement (st : Server.State) (sid : string)
    (now : Z) :
  exists results results' : list Server.Result,
    snd (Server.crash st now)
    = [Server.ClearInterval;
       Server.IoEmit (Server.GAME_CRASHED (Server.crashPoint (Server.gameState st)) results);
       Server.SetTimeout 5000] /\
    snd (Server.crash (fst (Server.on_disconnect st sid)) now)
    = [Server.ClearInterval;
       Server.IoEmit (Server.GAME_CRASHED (Server.crashPoint (Server.gameState st)) results');
       Server.SetTimeout 5000] /\
    forall res, In res results' <-> In res results /\ Server.socketId res <> sid.
Proof.
  eexists. eexists. split; [reflexivity |]. split; [reflexivity |].
  cbn [Server.on_disconnect fst Server.activeBets].
  destruct (ServerFacts.settle_results (Server.activeBets st)) as (_ & Hin & Hout).
  destruct (ServerFacts.settle_results (delete sid (Server.activeBets st)))
    as (_ & Hin' & Hout').
  cbv zeta in *. intros res. split.
  - intros H. destruct (Hout' res H) as (bet & Hl & Hres).
    apply lookup_delete_Some in Hl as [Hne Hl].
    split; [| congruence]. rewrite Hres. now apply Hin.
  - intros [H Hne]. destruct (Hout res H) as (bet & Hl & Hres).
    rewrite Hres. apply Hin'. apply lookup_delete_Some. split; [congruence | exact Hl].
Qed.

(** X9. While a round is running, nothing a client sends changes the round.
    Over any sequence of client messages ([connection], [START_GAME],
    [PLACE_BET], [CASH_OUT], [disconnect]) from a running round, [gameState]
    (flags, multiplier, target, start time, id, history) stays as it is, and
    nothing is broadcast: [START_GAME] does not restart a running round. *)
Theorem X9_server_clients_cannot_touch_round (evs : list Server.Event) :
  forall st : Server.State,
    Server.running (Server.gameState st) = true ->
    forallb Server.client_message evs = true ->
    Server.gameState (fst (Server.run st evs)) = Server.gameState st /\
    Forall (fun e => exists s m, e = Server.SocketEmit s m) (snd (Server.run st evs)).
Proof.
  induction evs as [| ev evs IH]; intros st Hrun Hc; [split; [reflexivity | constructor] |].
  cbn [forallb] in Hc. apply andb_true_iff in Hc as [Hev Hc].
  cbn [Server.run]. destruct (Server.step st ev) as [st1 out1] eqn:Hstep.
  destruct (Server.run st1 evs) as [st2 out2] eqn:Hr. cbn [fst snd].
  destruct (ServerInvariants.step_client_running st ev Hrun Hev) as [Hg Hout].
  rewrite Hstep in Hg, Hout. cbn [fst snd] in Hg, Hout.
  destruct (IH st1) as [Hg2 Hout2]; [congruence | exact Hc |].
  rewrite Hr in Hg2, Hout2. cbn [fst snd] in Hg2, Hout2.
  split; [congruence |]. now apply Forall_app.
Qed.

Lemma X9_witness :
  Server.gameState
    (fst (Server.run Examples.server_running
            [Server.START_GAME 1040 0.25; Server.CASH_OUT "s1"; Server.Disconnect "s1"]))
  = Server.gameState Examples.server_running /\
  Forall (fun e => exists s m, e = Server.SocketEmit s m)
    (snd (Server.run Examples.server_running
            [Server.START_GAME 1040 0.25; Server.CASH_OUT "s1"; Server.Disconnect "s1"])).
Proof.
  apply (X9_server_clients_cannot_touch_round
           [Server.START_GAME 1040 0.25; Server.CASH_OUT "s1"; Server.Disconnect "s1"]
           Examples.server_running); reflexivity.
Defined.

(** * Further properties of the mock [GameServer] *)

(** X10. The mock throws only when nobody is logged in. From a state with a
    user, over any sequence of calls that holds no [logout], no call ends in
    the [TypeError] that [cashOut] and [_crash] raise when they read the
    balance or the profit of a [null] user. *)
Theorem X10_mock_no_exception_while_logged_in (evs : list Mock.Event) :
  forall st : Mock.State,
    Mock.user st <> None ->
    (forall ev, In ev evs -> ev <> Mock.Logout) ->
    ~ In Mock.TypeError (Mock.rets st evs).
Proof.
  induction evs as [| ev evs IH]; intros st Hu Hevs; [intros [] |].
  cbn [Mock.rets].
  pose proof (MockInvariants.step_throws st ev) as Hthrow.
  pose proof (MockInvariants.step_keeps_user st ev Hu (Hevs ev (or_introl eq_refl))) as Hu1.
  destruct (Mock.step st ev) as [[st1 out1] ret]. cbn [fst snd] in *.
  intros [E | Hin].
  - apply Hu. now apply Hthrow.
  - apply (IH st1 Hu1); [| exact Hin]. intros e He. apply Hevs. now right.
Qed.

Lemma X10_witness :
  ~ In Mock.TypeError
      (Mock.rets Examples.mock_running
         [Mock.CashOut; Mock.IntervalFired 1060; Mock.Login "" 0.5; Mock.CashOut]).
Proof.
  apply (X10_mock_no_exception_while_logged_in
           [Mock.CashOut; Mock.IntervalFired 1060; Mock.Login "" 0.5; Mock.CashOut]
           Examples.mock_running).
  - vm_compute. discriminate.
  - intros ev [<- | [<- | [<- | [<- | []]]]]; discriminate.
Defined.

(** X11. No call changes the user without saving it. If the object last
    serialized into [localStorage] is the current user (or both are absent),
    then after any sequence of calls the entry is the serialization of the
    current user, and there is no entry when there is no user.
    [JSON.stringify] writes [NaN] and the infinities as [null] and both zeros
    as [0]; so when the balance and the total profit of the user are numbers
    that come back from it unchanged, the entry reads back as the current
    user. *)
Theorem X11_mock_user_is_saved (evs : list Mock.Event) :
  forall st : Mock.State,
    Mock.storage st = Mock.user st ->
    let st' := fst (Mock.run st evs) in
    Mock.entry st' = Mock.stringify <$> Mock.user st' /\
    (forall u : Mock.User,
        Mock.user st' = Some u ->
        Mock.json_number (Mock.balance u) = Some (Mock.balance u) ->
        Mock.json_number (Mock.totalProfit u) = Some (Mock.totalProfit u) ->
        match Mock.entry st' with
        | Some e => Mock.parse e
        | None => None
        end = Some u).
Proof.
  intros st Hs. cbv zeta.
  assert (Hsync : Mock.storage (fst (Mock.run st evs)) = Mock.user (fst (Mock.run st evs))).
  { revert st Hs. induction evs as [| ev evs IH]; intros st Hs; [exact Hs |].
    cbn [Mock.run].
    pose proof (MockInvariants.step_storage st ev Hs) as Hs1.
    destruct (Mock.step st ev) as [[st1 out1] ret]. cbn [fst] in Hs1.
    specialize (IH st1 Hs1). destruct (Mock.run st1 evs) as [st2 out2]. exact IH. }
  unfold Mock.entry. rewrite Hsync. split; [reflexivity |].
  intros u Hu Hb Ht. rewrite Hu. cbn [fmap option_fmap option_map].
  unfold Mock.parse, Mock.stringify.
  cbn [Mock.e_balance Mock.e_totalProfit Mock.e_username Mock.e_referralCode].
  rewrite Hb, Ht. now destruct u.
Qed.

Lemma X11_witness :
  match Mock.entry (fst (Mock.run (Mock.initial None) Examples.mock_round)) with
  | Some e => Mock.parse e
  | None => None
  end
  = Some {| Mock.username := "ann"; Mock.balance := 4900; Mock.referralCode := 5500;
            Mock.totalProfit := 0 |}.
Proof.
  apply (proj2 (X11_mock_user_is_saved Examples.mock_round (Mock.initial None) eq_refl)
           {| Mock.username := "ann"; Mock.balance := 4900; Mock.referralCode := 5500;
              Mock.totalProfit := 0 |});
    vm_compute; reflexivity.
Defined.

(** X12. The balance never goes below zero. Starting the mock with no saved
    user, or with one whose balance is not below zero, and calling it with
    amounts that are numbers below [Infinity] (and draws in [[0, 1)]), the
    balance of the user is [>= 0] after every sequence of calls: [placeBet]
    and [redeem] refuse what exceeds the balance, [cashOut] adds a payout
    that is not below zero, and [_crash] leaves the balance alone. *)
Theorem X12_mock_balance_never_negative (saved : option Mock.User)
    (evs : list Mock.Event) :
  (forall u, saved = Some u -> (0 <=? Mock.balance u)%float = true) ->
  forallb Mock.event_ok evs = true ->
  forallb Mock.amounts_ok evs = true ->
  forall u, Mock.user (fst (Mock.run (Mock.initial saved) evs)) = Some u ->
            (0 <=? Mock.balance u)%float = true.
Proof.
  intros Hsaved Hev Ham.
  assert (Hgen : forall st, Mock.invariant st -> Mock.balance_ok st ->
                            Mock.balance_ok (fst (Mock.run st evs))).
  { clear Hsaved. induction evs as [| ev evs IH]; intros st Hinv Hb; [exact Hb |].
    cbn [forallb] in Hev, Ham.
    apply andb_true_iff in Hev as [Hev1 Hev], Ham as [Ham1 Ham].
    cbn [Mock.run].
    pose proof (MockFacts.mock_step_invariant st ev Hinv Hev1) as Hinv1.
    pose proof (MockInvariants.mock_step_balance_ok st ev Hinv Hb Ham1) as Hb1.
    destruct (Mock.step st ev) as [[st1 out1] ret]. cbn [fst] in Hinv1, Hb1.
    specialize (IH Hev Ham st1 Hinv1 Hb1). now destruct (Mock.run st1 evs). }
  apply Hgen.
  - apply MockFacts.mock_initial_invariant.
  - split; [exact Hsaved |]. intros k bet H. cbn in H. rewrite lookup_empty in H.
    discriminate.
Qed.

Lemma X12_witness :
  (0 <=? 1000)%float = true.
Proof.
  apply (X12_mock_balance_never_negative None
           (Examples.mock_round ++ [Mock.CashOut; Mock.Redeem 4000; Mock.PlaceBet 2000])
           ltac:(discriminate) eq_refl eq_refl
           {| Mock.username := "ann"; Mock.balance := 1000; Mock.referralCode := 5500;
              Mock.totalProfit := 0 |}).
  vm_compute. reflexivity.
Defined.

(** X13. The numbers the mock shows stay within the round. In every state
    the mock can reach, each history entry holds a crash point between
    [1.00] and 1000, and of the messages a call emits a [TICK] carries a
    multiplier that is at least [1.00] and strictly below the target, a
    [CASHOUT_SUCCESS] one that is at least [1.00] and at most the target, and
    a [GAME_CRASHED] a crash point between [1.00] and 1000. *)
Theorem X13_mock_multipliers_within_target (saved : option Mock.User) (st : Mock.State)
    (ev : Mock.Event) :
  Mock.reachable saved st ->
  let target := Mock.crashPoint (Mock.game st) in
  Forall (fun e => in_range (Mock.mult e) = true) (Mock.history (Mock.game st)) /\
  (forall m elapsed,
      In (Mock.Emit (Mock.TICK m elapsed)) (snd (fst (Mock.step st ev))) ->
      (1 <=? m)%float = true /\ (m <? target)%float = true) /\
  (forall m w p,
      In (Mock.Emit (Mock.CASHOUT_SUCCESS m w p)) (snd (fst (Mock.step st ev))) ->
      (1 <=? m)%float = true /\ (m <=? target)%float = true) /\
  (forall c,
      In (Mock.Emit (Mock.GAME_CRASHED c)) (snd (fst (Mock.step st ev))) ->
      in_range c = true).
Proof.
  intros Hre. cbv zeta.
  pose proof (MockFacts.mock_reachable_invariant saved st Hre) as (Hinv & _ & _).
  pose proof (MockInvariants.mock_reachable_round_bounds saved st Hre) as (Hb & Hh).
  split; [exact Hh |]. split; [| split].
  - intros m elapsed Hin.
    apply MockInvariants.mock_step_msgs in Hin as (Hrun & -> & Hlt).
    destruct (Hinv Hrun) as (_ & k & Hk & Hm).
    destruct (Hb Hrun) as (Hcp & _ & _).
    apply in_range_spec in Hcp as [Hcp _].
    apply leb_true in Hcp as (_ & Hcn & _).
    rewrite Hm in *. change (grow 0.15 30 (mult_seq k)) with (mult_seq (S k)) in *.
    assert (Hmn : is_nan (mult_seq (S k)) = false) by (apply mult_seq_not_nan; lia).
    split; [apply mult_seq_ge_one; lia |].
    unfold js_ge in Hlt. rewrite leb_rank, Hmn, Hcn in Hlt. cbn in Hlt.
    apply Z.leb_gt in Hlt. apply ltb_true. repeat split; assumption.
  - intros m w p Hin.
    apply MockInvariants.mock_step_msgs in Hin as (Hrun & ->).
    destruct (Hb Hrun) as (_ & H1 & H2). now split.
  - intros c Hin.
    apply MockInvariants.mock_step_msgs in Hin as (Hrun & ->).
    now destruct (Hb Hrun) as (Hcp & _).
Qed.

Lemma X13_witness :
  (1 <=? mult_seq 1)%float = true /\
  (mult_seq 1 <=? Mock.crashPoint (Mock.game Examples.mock_running))%float = true.
Proof.
  apply (proj1 (proj2 (proj2 (X13_mock_multipliers_within_target None
                                Examples.mock_running Mock.CashOut
                                (MockFacts.mock_run_reachable None Examples.mock_round
                                   (Mock.initial None) (Mock.reachable_initial None)
                                   eq_refl))))
           (mult_seq 1) 100%float 0%float).
  vm_compute. left. reflexivity.
Defined.

(** X14. A running round of the mock ends only by its crash. Over any
    sequence of calls from a running round during which the interval is not
    cleared, the round is still running with the same id, target, start time
    and history: [startGame] returns at once while a round runs, and no other
    method writes these fields. *)
Theorem X14_mock_running_round_is_fixed (evs : list Mock.Event) :
  forall st : Mock.State,
    Mock.running (Mock.game st) = true ->
    ~ In Mock.ClearInterval (snd (Mock.run st evs)) ->
    let g := Mock.game st in
    let g' := Mock.game (fst (Mock.run st evs)) in
    Mock.running g' = true /\ Mock.id g' = Mock.id g /\
    Mock.crashPoint g' = Mock.crashPoint g /\
    Mock.startTime g' = Mock.startTime g /\
    Mock.history g' = Mock.history g.
Proof.
  induction evs as [| ev evs IH]; intros st Hrun Hno; cbv zeta; [now repeat split |].
  cbn [Mock.run] in *.
  pose proof (MockInvariants.mock_step_running st ev Hrun) as Hstep. cbv zeta in Hstep.
  destruct (Mock.step st ev) as [[st1 out1] ret]. cbn [fst snd] in Hstep.
  specialize (IH st1). destruct (Mock.run st1 evs) as [st2 out2]. cbn [fst snd] in *.
  destruct Hstep as [Hc | (Hr1 & Hid & Hcp & Hst & Hh)].
  - exfalso. apply Hno. apply in_or_app. now left.
  - destruct (IH Hr1) as (H1 & H2 & H3 & H4 & H5).
    { intros Hc. apply Hno. apply in_or_app. now right. }
    repeat split; congruence.
Qed.

Lemma X14_witness :
  let g := Mock.game Examples.mock_running in
  let g' := Mock.game (fst (Mock.run Examples.mock_running
                              [Mock.StartGame "turbo" 1050 0.9; Mock.IntervalFired 1060])) in
  Mock.running g' = true /\ Mock.id g' = Mock.id g /\
  Mock.crashPoint g' = Mock.crashPoint g /\
  Mock.startTime g' = Mock.startTime g /\
  Mock.history g' = Mock.history g.
Proof.
  apply (X14_mock_running_round_is_fixed
           [Mock.StartGame "turbo" 1050 0.9; Mock.IntervalFired 1060] Examples.mock_running).
  - reflexivity.
  - vm_compute. intros [H | []]. discriminate.
Defined.

(** X15. The mock never runs two game loops. Counting [setInterval] and
    [clearInterval(this._loopInterval)] along any sequence of calls from a
    fresh server, exactly one interval timer is running while a round runs
    and none otherwise: [startGame] sets a timer only when no round runs, and
    [_crash] clears it before anything can throw. *)
Theorem X15_mock_one_game_loop (saved : option Mock.User) (evs : list Mock.Event) :
  Mock.live_intervals (snd (Mock.run (Mock.initial saved) evs))
  = if Mock.running (Mock.game (fst (Mock.run (Mock.initial saved) evs)))
    then 1%nat else 0%nat.
Proof.
  unfold Mock.live_intervals.
  assert (Hgen : forall st,
             fold_left Mock.timer_step (snd (Mock.run st evs))
               (if Mock.running (Mock.game st) then (1%nat, true) else (0%nat, false))
             = if Mock.running (Mock.game (fst (Mock.run st evs)))
               then (1%nat, true) else (0%nat, false)).
  { induction evs as [| ev evs IH]; intros st; [reflexivity |].
    cbn [Mock.run].
    pose proof (MockInvariants.mock_step_timers st ev) as Hstep.
    destruct (Mock.step st ev) as [[st1 out1] ret]. cbn [fst snd] in Hstep.
    specialize (IH st1). destruct (Mock.run st1 evs) as [st2 out2]. cbn [fst snd] in *.
    now rewrite fold_left_app, Hstep. }
  specialize (Hgen (Mock.initial saved)). cbn [Mock.initial Mock.game Mock.running] in Hgen.
  rewrite Hgen. now destruct (Mock.running _).
Qed.

(** X16. A bet is tied to the game id of the moment it is placed. A bet the
    mock accepts while no round is running is stored under the id of the last
    round (or under [null]); when the next round starts under a fresh id, that
    round has no bet: [cashOut] answers ['No active bet'], although an
    accepted stake has been debited from the balance. *)
Theorem X16_mock_bet_before_start_is_not_in_round (st : Mock.State) (a : float)
    (modeId : string) (now : Z) (r : float) :
  Mock.running (Mock.game st) = false ->
  Mock.id (Mock.game st) <> Some now ->
  Mock.bets st !! Some now = None ->
  let st1 := fst (fst (Mock.placeBet st a)) in
  let st2 := fst (fst (Mock.startGame st1 modeId now r)) in
  Mock.running (Mock.game st2) = true /\
  Mock.cashOut st2 = (st2, [], Mock.Error "No active bet") /\
  (snd (Mock.placeBet st a) = Mock.Success ->
   exists u, Mock.user st = Some u /\
             Mock.balance <$> Mock.user st2 = Some (Mock.balance u - a)%float).
Proof.
  intros Hrun Hid Hl. cbv zeta.
  assert (H1 : Mock.running (Mock.game (fst (fst (Mock.placeBet st a)))) = false /\
               Mock.bets (fst (fst (Mock.placeBet st a))) !! Some now = None /\
               (snd (Mock.placeBet st a) = Mock.Success ->
                exists u, Mock.user st = Some u /\
                          Mock.balance <$> Mock.user (fst (fst (Mock.placeBet st a)))
                          = Some (Mock.balance u - a)%float)).
  { unfold Mock.placeBet. destruct (Mock.user st) as [u |]; [| now repeat split].
    destruct (js_gt _ _); [now repeat split |].
    destruct (a <? 10)%float; [now repeat split |].
    cbn. split; [exact Hrun |]. split; [| eauto].
    rewrite lookup_insert_ne; [exact Hl | exact Hid]. }
  destruct H1 as (Hrun1 & Hl1 & Hdebit).
  remember (fst (fst (Mock.placeBet st a))) as st1 eqn:E. clear E.
  unfold Mock.startGame. rewrite Hrun1. cbn.
  split; [reflexivity |]. split; [| exact Hdebit].
  unfold Mock.cashOut. cbn. now rewrite Hl1.
Qed.

Lemma X16_witness :
  let st1 := fst (fst (Mock.placeBet (fst (fst (Mock.login (Mock.initial None) "ann" 0.5)))
                         100)) in
  let st2 := fst (fst (Mock.startGame st1 "classic" 1000 0.5)) in
  Mock.running (Mock.game st2) = true /\
  Mock.cashOut st2 = (st2, [], Mock.Error "No active bet") /\
  (snd (Mock.placeBet (fst (fst (Mock.login (Mock.initial None) "ann" 0.5))) 100)
   = Mock.Success ->
   exists u, Mock.user (fst (fst (Mock.login (Mock.initial None) "ann" 0.5))) = Some u /\
             Mock.balance <$> Mock.user st2 = Some (Mock.balance u - 100)%float).
Proof.
  apply (X16_mock_bet_before_start_is_not_in_round
           (fst (fst (Mock.login (Mock.initial None) "ann" 0.5))) 100 "classic" 1000 0.5).
  - reflexivity.
  - discriminate.
  - reflexivity.
Defined.



(** * Further properties of the client *)

(** X17. The chart handlers never throw and keep the array bounded. Whatever
    the chart holds and whatever resizes, [GAME_START] and [TICK] messages
    arrive, every handler returns: [drawChart] reads [data[0]] only after
    [onGameStart] or [onTick] has put a point. An array of at most 200 points
    stays at most 200 points long. *)
Theorem X17_app_chart_never_throws (evs : list App.Event) :
  forall c : App.Chart,
    Forall (fun o => o = App.Returned) (snd (App.run c evs)) /\
    ((length (App.data c) <= App.maxPoints)%nat ->
     (length (App.data (fst (App.run c evs))) <= App.maxPoints)%nat).
Proof.
  induction evs as [| ev evs IH]; intros c; [split; [constructor | auto] |].
  cbn [App.run].
  assert (Hstep : snd (App.step c ev) = App.Returned /\
                  ((length (App.data c) <= App.maxPoints)%nat ->
                   (length (App.data (fst (fst (App.step c ev)))) <= App.maxPoints)%nat)).
  { destruct ev as [w h | | m]; cbn [App.step].
    - split; [reflexivity | auto].
    - split; [reflexivity |]. intros _. cbn. unfold App.maxPoints. lia.
    - split; [apply AppFacts.onTick_returns | apply AppFacts.onTick_length]. }
  destruct (App.step c ev) as [[c1 out] o]. cbn [fst snd] in Hstep.
  destruct Hstep as [-> Hlen]. specialize (IH c1).
  destruct (App.run c1 evs) as [c2 os]. cbn [fst snd] in *.
  destruct IH as [Hos Hlen2]. split; [now constructor | auto].
Qed.

Lemma X17_witness :
  Forall (fun o => o = App.Returned)
         (snd (App.run App.initial [App.TICK 1.5; App.Resize 800 400; App.GAME_START])) /\
  ((length (App.data App.initial) <= App.maxPoints)%nat ->
   (length (App.data (fst (App.run App.initial
                             [App.TICK 1.5; App.Resize 800 400; App.GAME_START])))
    <= App.maxPoints)%nat).
Proof.
  apply (X17_app_chart_never_throws [App.TICK 1.5; App.Resize 800 400; App.GAME_START]
           App.initial).
Defined.

(** X18. The chart is a sliding window over the round. After [GAME_START]
    and the ticks [ms], the array holds the last 200 points of the round, in
    order: the start point [(0, 1.0)] and one point per tick with the
    multiplier of the tick as [y]; with more than 199 ticks the oldest points
    are gone. *)
Theorem X18_app_chart_window (ms : list float) (c : App.Chart) :
  let c' := fst (App.run c (App.GAME_START :: map App.TICK ms)) in
  App.data c' = drop (S (length ms) - App.maxPoints) (App.round_points ms) /\
  App.y <$> App.data c' = drop (S (length ms) - App.maxPoints) (1.0%float :: ms).
Proof.
  cbv zeta. rewrite AppFacts.chart_after_ticks. split; [reflexivity |].
  rewrite fmap_drop. f_equal. unfold App.round_points. cbn [fmap list_fmap App.y].
  f_equal. change (list_fmap _ _ App.y) with (fmap App.y).
  rewrite fmap_imap. cbn. rewrite (imap_const (fun m : float => m)). apply list_fmap_id.
Qed.

(** X19. The [x] of a point is the length of the array when the point is
    pushed, times 0.1, and the length stops at 200. So 399 ticks into a round
    every point of the chart has [x = 20], and [drawChart] draws all of them
    at one canvas [x]: the curve has no width. *)
Theorem X19_app_chart_flat_after_399_ticks (ms : list float) (c : App.Chart) :
  (399 <= length ms)%nat ->
  let c' := fst (App.run c (App.GAME_START :: map App.TICK ms)) in
  Forall (fun p => App.x p = 20%float) (App.data c') /\
  forall m : float,
    Forall (fun e => match e with
                     | App.MoveTo px _ | App.LineTo px _ =>
                         px = (0 * float_of_Z (App.width c'))%float
                     | _ => True
                     end)
           (fst (App.drawChart c' m)).
Proof.
  intros Hn. cbv zeta.
  assert (Hx : Forall (fun p => App.x p = 20%float)
                 (App.data (fst (App.run c (App.GAME_START :: map App.TICK ms))))).
  { rewrite AppFacts.chart_after_ticks. apply Forall_lookup.
    intros i p Hl. rewrite lookup_drop in Hl. unfold App.maxPoints in *.
    remember (S (length ms) - 200 + i)%nat as j eqn:Ej.
    destruct j as [| j]; [lia |].
    assert (Hl' : imap (fun i m => App.pushed_point (Nat.min (S i) App.maxPoints) m) ms !! j
                  = Some p) by exact Hl.
    clear Hl. rename Hl' into Hl. rewrite list_lookup_imap in Hl.
    destruct (ms !! j) as [m |]; [| discriminate].
    injection Hl as <-. unfold App.maxPoints.
    change (S (Nat.min j 199)) with (Nat.min (S j) 200).
    replace (Nat.min (S j) 200) with 200%nat by lia. reflexivity. }
  split; [exact Hx |]. intros m. now apply AppFacts.drawChart_flat.
Qed.

Lemma X19_witness :
  Forall (fun p => App.x p = 20%float)
         (App.data (fst (App.run App.initial
                           (App.GAME_START :: map App.TICK (repeat 1.5%float 399))))).
Proof.
  apply (X19_app_chart_flat_after_399_ticks (repeat 1.5%float 399) App.initial).
  rewrite repeat_length. lia.
Defined.

(** X20. The history list of the page holds the 20 newest crash points,
    newest first, as long as the container holds elements only: [updateHistory]
    on such a container of at most 20 children is "prepend, keep 20", an item
    has class ['won'] exactly when the crash point is at least 2, and after
    any number of crashes from an empty container the list is the 20 newest
    items. The cap counts element children but the removal takes the last
    node of any kind: with 20 items followed by a text node, the text node is
    removed and 21 items remain. *)
Theorem X20_app_history_list_cap :
  let item cp := App.HistoryItem (js_ge cp 2) (App.Fixed2x cp) in
  (forall (container : list App.Node) (cp : float),
      Forall (fun n => App.is_element n = true) container ->
      (length container <= 20)%nat ->
      App.updateHistory container cp = take 20 (item cp :: container)) /\
  (forall cps : list float,
      fold_left App.updateHistory cps [] = take 20 (rev (map item cps))) /\
  (forall (items : list App.Node) (cp : float),
      Forall (fun n => App.is_element n = true) items -> length items = 20%nat ->
      App.updateHistory (items ++ [App.NonElement]) cp = item cp :: items /\
      App.children_length (App.updateHistory (items ++ [App.NonElement]) cp) = 21%nat).
Proof.
  cbv zeta. split; [exact AppFacts.updateHistory_take |]. split.
  - intros cps. induction cps as [| cp cps IH] using rev_ind; [reflexivity |].
    rewrite fold_left_app, map_app, rev_app_distr. cbn [fold_left map rev app].
    rewrite IH, AppFacts.updateHistory_take.
    + apply (take_cons_take _ _ 19).
    + apply Forall_take, List.Forall_rev, List.Forall_map.
      clear IH. induction cps; constructor; auto.
    + rewrite length_take. lia.
  - intros items cp He Hlen.
    assert (Hupd : App.updateHistory (items ++ [App.NonElement]) cp
                   = App.HistoryItem (js_ge cp 2) (App.Fixed2x cp) :: items).
    { unfold App.updateHistory. cbv zeta.
      assert (Hc : App.children_length
                     (App.HistoryItem (js_ge cp 2) (App.Fixed2x cp)
                        :: items ++ [App.NonElement]) = 21%nat).
      { unfold App.children_length. cbn [List.filter App.is_element length].
        rewrite List.filter_app. cbn. rewrite app_nil_r.
        change (length (List.filter App.is_element items))
          with (App.children_length items).
        rewrite AppFacts.children_length_elements by exact He. lia. }
      rewrite Hc. cbn [Nat.ltb Nat.leb].
      rewrite app_comm_cons. apply removelast_last. }
    split; [exact Hupd |]. rewrite Hupd.
    rewrite AppFacts.children_length_elements by (constructor; [reflexivity | exact He]).
    cbn. lia.
Qed.

Lemma X20_witness :
  App.updateHistory [App.HistoryItem false (App.Fixed2x 1.5)] 2.5
  = take 20 [App.HistoryItem true (App.Fixed2x 2.5); App.HistoryItem false (App.Fixed2x 1.5)].
Proof.
  apply (proj1 X20_app_history_list_cap [App.HistoryItem false (App.Fixed2x 1.5)] 2.5%float).
  - repeat constructor.
  - cbn. lia.
Defined.

(** * Further properties of the error paths *)

(** X21. An error answer of [server.js] means that nothing happened. Whenever
    a handler sends [ERROR] to a socket, whatever the reason (round not
    running, bet already placed, stake missing or too low, no bet to cash
    out), the state is exactly what it was, and the error is the only message
    sent. *)
Theorem X21_server_errors_change_nothing (st : Server.State) (ev : Server.Event)
    (sid : string) (text : string) :
  In (Server.SocketEmit sid (Server.ERROR text)) (snd (Server.step st ev)) ->
  Server.step st ev = (st, [Server.SocketEmit sid (Server.ERROR text)]).
Proof.
  destruct ev as [s | now r | s a u | s | s | now | now r]; cbn [Server.step].
  - intros [H | []]; discriminate.
  - unfold Server.on_START_GAME. destruct (negb _); [| intros []].
    intros [H | [H | []]]; discriminate.
  - unfold Server.on_PLACE_BET.
    destruct (negb _ || _); [intros [H | []]; now inversion H |].
    destruct (Server.activeBets st !! s); [intros [H | []]; now inversion H |].
    destruct a as [a |]; [| intros [H | []]; now inversion H].
    destruct (js_falsy a || _); intros [H | []]; [now inversion H | discriminate].
  - unfold Server.on_CASH_OUT.
    destruct (negb _ || _); [intros [H | []]; now inversion H |].
    destruct (Server.activeBets st !! s) as [b |]; [| intros [H | []]; now inversion H].
    destruct (Server.cashedOut b); intros [H | []]; [now inversion H | discriminate].
  - intros [].
  - destruct (Server.running (Server.gameState st)) eqn:Hrun.
    + destruct (ServerFacts.tick_cases st now Hrun) as [[_ ->] | [_ ->]]; cbn [snd].
      * intros [H | [H | [H | []]]]; discriminate.
      * intros [H | []]; discriminate.
    + rewrite ServerFacts.tick_idle by exact Hrun. intros [].
  - intros [H | [H | []]]; discriminate.
Qed.

Lemma X21_witness :
  Server.step Examples.server_running (Server.CASH_OUT "s2")
  = (Examples.server_running,
     [Server.SocketEmit "s2" (Server.ERROR "No active bet to cash out")]).
Proof.
  apply (X21_server_errors_change_nothing Examples.server_running (Server.CASH_OUT "s2")
           "s2" "No active bet to cash out").
  vm_compute. left. reflexivity.
Defined.

(** X22. An error result of the mock means that nothing happened. Whenever a
    method returns an [{ error }] object, whatever the reason (no username,
    not logged in, insufficient funds, stake below 10, round not running, no
    bet), the state is exactly what it was and nothing has been emitted. *)
Theorem X22_mock_errors_change_nothing (st : Mock.State) (ev : Mock.Event)
    (text : string) :
  snd (Mock.step st ev) = Mock.Error text ->
  Mock.step st ev = (st, [], Mock.Error text).
Proof.
  destruct ev as [| u r | | a | modeId now r | a | | now]; cbn [Mock.step].
  - discriminate.
  - unfold Mock.login. destruct u; [intros [= <-]; reflexivity | discriminate].
  - discriminate.
  - unfold Mock.redeem. destruct (Mock.user st) as [u |]; [| intros [= <-]; reflexivity].
    destruct (js_gt _ _); [intros [= <-]; reflexivity | discriminate].
  - unfold Mock.startGame. destruct (Mock.running _); discriminate.
  - unfold Mock.placeBet. destruct (Mock.user st) as [u |]; [| intros [= <-]; reflexivity].
    destruct (js_gt _ _); [intros [= <-]; reflexivity |].
    destruct (a <? 10)%float; [intros [= <-]; reflexivity | discriminate].
  - unfold Mock.cashOut. destruct (negb _); [intros [= <-]; reflexivity |].
    destruct (Mock.bets st !! Mock.id (Mock.game st)) as [bet |];
      [| intros [= <-]; reflexivity].
    destruct (Mock.cashedOut bet); [intros [= <-]; reflexivity |].
    destruct (Mock.user st); discriminate.
  - unfold Mock._gameLoop. destruct (negb _); [discriminate |].
    destruct (js_ge _ _); [| discriminate].
    unfold Mock._crash.
    destruct (Mock.bets _ !! _) as [bet |];
      [destruct (negb (Mock.cashedOut bet)); [destruct (Mock.user _) |] |]; discriminate.
Qed.

Lemma X22_witness :
  Mock.step Examples.mock_running (Mock.PlaceBet 5)
  = (Examples.mock_running, [], Mock.Error "Min bet 10").
Proof.
  apply (X22_mock_errors_change_nothing Examples.mock_running (Mock.PlaceBet 5) "Min bet 10").
  vm_compute. reflexivity.
Defined.

(** X23. A stake that is not a number. The mock lets [NaN] through: for a
    logged-in user both tests of [placeBet] ([amount > balance] and
    [amount < 10]) are false, the call succeeds, the bet is recorded and the
    balance becomes [NaN]. [server.js] refuses the same stake in every state,
    because [!amount] is true for [NaN]. *)
Theorem X23_stake_not_a_number :
  (forall (st : Mock.State) (u : Mock.User),
      Mock.user st = Some u ->
      let st' := fst (fst (Mock.placeBet st nan)) in
      snd (Mock.placeBet st nan) = Mock.Success /\
      (exists bet, Mock.bets st' !! Mock.id (Mock.game st) = Some bet /\
                   is_nan (Mock.amount bet) = true) /\
      (exists u', Mock.user st' = Some u' /\ is_nan (Mock.balance u') = true)) /\
  (forall (st : Server.State) (sid : string) (username : option string),
      exists text,
        Server.on_PLACE_BET st sid (Some nan) username
        = (st, [Server.SocketEmit sid (Server.ERROR text)])).
Proof.
  split.
  - intros st u Hu. cbv zeta. unfold Mock.placeBet. rewrite Hu.
    unfold js_gt. rewrite ltb_nan_r. change (nan <? 10)%float with false. cbn.
    split; [reflexivity |]. split.
    + eexists. rewrite lookup_insert_eq. split; reflexivity.
    + eexists. split; [reflexivity |]. cbn. apply sub_nan.
  - intros st sid username. unfold Server.on_PLACE_BET.
    destruct (negb _ || _); [eauto |].
    destruct (Server.activeBets st !! sid); [eauto |].
    change (js_falsy nan || (nan <? 10)%float) with true. cbn. eauto.
Qed.

Lemma X23_witness :
  let st' := fst (fst (Mock.placeBet Examples.mock_running nan)) in
  snd (Mock.placeBet Examples.mock_running nan) = Mock.Success /\
  (exists bet, Mock.bets st' !! Mock.id (Mock.game Examples.mock_running) = Some bet /\
               is_nan (Mock.amount bet) = true) /\
  (exists u', Mock.user st' = Some u' /\ is_nan (Mock.balance u') = true).
Proof.
  apply (proj1 X23_stake_not_a_number Examples.mock_running
           {| Mock.username := "ann"; Mock.balance := 4900; Mock.referralCode := 5500;
              Mock.totalProfit := 0 |}).
  vm_compute. reflexivity.
Defined.

(** * Further properties of the two engines together *)

(** X25. The mock and [server.js] run the same round. Started with the same
    draw (the mock from a state in which no round runs) and ticked the same
    number of times, the two engines agree on [running], the multiplier, the
    crash point and [crashed]: same target, same growth, same tick of the
    crash, whatever the clocks, the bets and the users. *)
Theorem X25_mock_and_server_same_round (s : Server.State) (m : Mock.State)
    (now now' : Z) (modeId : string) (r : float) (nows nows' : list Z) :
  Mock.running (Mock.game m) = false ->
  length nows = length nows' ->
  Server.round_view (Server.ticks (fst (Server.startGame s now r)) nows)
  = Mock.round_view (Mock.ticks (fst (fst (Mock.startGame m modeId now' r))) nows').
Proof.
  intros Hrun Hlen. apply ticks_view_agree; [exact Hlen |].
  unfold Mock.startGame. rewrite Hrun. reflexivity.
Qed.

Lemma X25_witness :
  Server.round_view
    (Server.ticks (fst (Server.startGame Server.initial 1000 0.5)) (repeat 1030 200))
  = Mock.round_view
      (Mock.ticks (fst (fst (Mock.startGame (Mock.initial None) "classic" 7 0.5)))
         (repeat 8 200)).
Proof.
  apply (X25_mock_and_server_same_round Server.initial (Mock.initial None) 1000 7
           "classic" 0.5 (repeat 1030 200) (repeat 8 200)); reflexivity.
Defined.
